(** * SportBetTrading back end: data transformer, caches and subscriptions

    A shallow embedding of [utils/dataTransformer.js] and of the REST and
    socket handlers of [server.js], with the properties of the
    specification stated over it. *)

From Stdlib Require Import ZArith List String Ascii Bool Lia Sorted Permutation.
From Stdlib Require Import DecimalString.
From stdpp Require Import gmap strings.
Import ListNotations.

Set Warnings "-register-all".

Open Scope Z_scope.

(** ** JavaScript values *)

Module JS.

(** Host objects that a property read can reach through a prototype
    chain: [Object.prototype] itself and native functions. *)
Inductive builtin :=
| BObjectPrototype
| BFunction (name : string).

(** The values of the program: what [JSON.parse] produces (the upstream
    payloads), [undefined], and the host objects above.  Numbers are only
    copied, tested for zero and printed as property keys by the code, and
    are carried as integers. *)
Inductive value :=
| VUndefined
| VNull
| VBool (b : bool)
| VNum (n : Z)
| VStr (s : string)
| VArr (items : list value)
| VObj (props : list (string * value))
| VBuiltin (b : builtin).

(** Exceptions the modelled code can raise: all are [TypeError]s. *)
Inductive error :=
| ReadOfNullish (prop : string)
| NotAFunction (callee : string)
| NotPrimitive.

(** The completion of an evaluation: a value, or a thrown exception. *)
Inductive completion (A : Type) :=
| Normal (a : A)
| Throw (e : error).
Arguments Normal {A} a.
Arguments Throw {A} e.

Definition bind {A B} (c : completion A) (k : A -> completion B) : completion B :=
  match c with
  | Normal a => k a
  | Throw e => Throw e
  end.

Notation "'let!' x ':=' c 'in' k" := (bind c (fun x => k))
  (at level 10, x name, c at level 100, k at level 200).

(** [try { body } catch (error) { handler }] *)
Definition try_catch {A} (body : completion A) (handler : error -> completion A)
  : completion A :=
  match body with
  | Normal a => Normal a
  | Throw e => handler e
  end.

(** ToBoolean. *)
Definition truthy (v : value) : bool :=
  match v with
  | VUndefined | VNull => false
  | VBool b => b
  | VNum n => negb (n =? 0)%Z
  | VStr s => negb (String.eqb s "")
  | VArr _ | VObj _ | VBuiltin _ => true
  end.

Definition nullish (v : value) : bool :=
  match v with
  | VUndefined | VNull => true
  | _ => false
  end.

(** [a || b] *)
Definition or_else (a b : value) : value := if truthy a then a else b.

Fixpoint assoc {A} (k : string) (l : list (string * A)) : option A :=
  match l with
  | [] => None
  | (k', a) :: l' => if String.eqb k k' then Some a else assoc k l'
  end.

(** The properties every ordinary object inherits from
    [Object.prototype]; reading one of them on an object that does not
    own it yields a host object, which is truthy. *)
Definition object_prototype (k : string) : option builtin :=
  if String.eqb k "__proto__" then Some BObjectPrototype
  else if String.eqb k "constructor" then Some (BFunction "Object")
  else if existsb (String.eqb k)
            ["hasOwnProperty"; "isPrototypeOf"; "propertyIsEnumerable";
             "toLocaleString"; "toString"; "valueOf";
             "__defineGetter__"; "__defineSetter__";
             "__lookupGetter__"; "__lookupSetter__"]
       then Some (BFunction k)
  else None.

(** [v.k], for the property names [k] that the program reads.  Of those
    names only [sort] is defined on the prototype of an array and only
    [name] on a function; strings, numbers and booleans define none. *)
Definition get (v : value) (k : string) : completion value :=
  match v with
  | VUndefined | VNull => Throw (ReadOfNullish k)
  | VObj props =>
      match assoc k props with
      | Some x => Normal x
      | None =>
          match object_prototype k with
          | Some b => Normal (VBuiltin b)
          | None => Normal VUndefined
          end
      end
  | VArr _ =>
      if String.eqb k "sort" then Normal (VBuiltin (BFunction "sort"))
      else Normal VUndefined
  | VBuiltin (BFunction n) =>
      if String.eqb k "name" then Normal (VStr n) else Normal VUndefined
  | VBuiltin BObjectPrototype | VBool _ | VNum _ | VStr _ => Normal VUndefined
  end.

(** [v?.k] *)
Definition get_opt (v : value) (k : string) : completion value :=
  if nullish v then Normal VUndefined else get v k.

Definition string_of_Z (n : Z) : string := NilZero.string_of_int (Z.to_int n).

Fixpoint join (sep : string) (l : list string) : string :=
  match l with
  | [] => ""
  | [s] => s
  | s :: l' => s +:+ sep +:+ join sep l'
  end.

(** ToString, as performed by template literals and by the conversion
    of a property key.  An object that owns a [toString] property (never
    callable in parsed JSON) has no primitive value. *)
Fixpoint to_string (v : value) : completion string :=
  match v with
  | VUndefined => Normal "undefined"
  | VNull => Normal "null"
  | VBool true => Normal "true"
  | VBool false => Normal "false"
  | VNum n => Normal (string_of_Z n)
  | VStr s => Normal s
  | VArr items =>
      let fix elements (l : list value) : completion (list string) :=
        match l with
        | [] => Normal []
        | x :: l' =>
            let! s := (if nullish x then Normal "" else to_string x) in
            let! ss := elements l' in
            Normal (s :: ss)
        end in
      let! ss := elements items in
      Normal (join "," ss)
  | VObj props =>
      match assoc "toString" props with
      | Some _ => Throw NotPrimitive
      | None => Normal "[object Object]"
      end
  | VBuiltin BObjectPrototype => Normal "[object Object]"
  | VBuiltin (BFunction n) => Normal ("function " +:+ n +:+ "() { [native code] }")
  end.

(** [a === s] for a string literal [s]. *)
Definition strict_eq_str (a : value) (s : string) : bool :=
  match a with
  | VStr s' => String.eqb s' s
  | _ => false
  end.

End JS.

(** ** Ordinary objects used as dictionaries *)

Module Dict.
Import JS.

(** The outcome of [o[k]] on an object created by [{}]: an own property,
    a property inherited from [Object.prototype], or [undefined]. *)
Inductive slot (A : Type) :=
| Own (a : A)
| Inherited (b : builtin)
| Absent.
Arguments Own {A} a.
Arguments Inherited {A} b.
Arguments Absent {A}.

(** Own properties in creation order. *)
Definition t (A : Type) := list (string * A).

Definition lookup {A} (o : t A) (k : string) : slot A :=
  match assoc k o with
  | Some a => Own a
  | None =>
      match object_prototype k with
      | Some b => Inherited b
      | None => Absent
      end
  end.

(** [!o[k]] *)
Definition missing {A} (o : t A) (k : string) : bool :=
  match lookup o k with
  | Absent => true
  | _ => false
  end.

(** [o[k] = a] for a key that [o] does not own yet. *)
Definition add {A} (o : t A) (k : string) (a : A) : t A := o ++ [(k, a)].

(** In-place mutation of the object stored under [k]. *)
Fixpoint update {A} (k : string) (f : A -> A) (o : t A) : t A :=
  match o with
  | [] => []
  | (k', a) :: o' =>
      if String.eqb k k' then (k', f a) :: o' else (k', a) :: update k f o'
  end.

(** Array indices: canonical decimal strings below 2^32 - 1. *)
Definition array_index (k : string) : option N :=
  match NilZero.uint_of_string k with
  | Some u =>
      let n := N.of_uint u in
      if String.eqb (NilZero.string_of_uint (N.to_uint n)) k && (n <=? 4294967294)%N
      then Some n else None
  | None => None
  end.

Fixpoint insert_index {A} (n : N) (a : A) (l : list (N * A)) : list (N * A) :=
  match l with
  | [] => [(n, a)]
  | (n', a') :: l' =>
      if (n <? n')%N then (n, a) :: l else (n', a') :: insert_index n a l'
  end.

Fixpoint split_keys {A} (o : t A) : list (N * A) * list A :=
  match o with
  | [] => ([], [])
  | (k, a) :: o' =>
      let (ix, named) := split_keys o' in
      match array_index k with
      | Some n => (insert_index n a ix, named)
      | None => (ix, a :: named)
      end
  end.

(** [Object.values(o)]: array-index keys in ascending numeric order,
    then the other keys in creation order. *)
Definition values {A} (o : t A) : list A :=
  let (ix, named) := split_keys o in map snd ix ++ named.

(** [Object.keys(o).length] *)
Definition size {A} (o : t A) : nat := length o.

End Dict.

(** ** The normalized records of [dataTransformer.js] *)

Module Price.
Record t := { price : JS.value; size : JS.value }.
End Price.

Module Runner.
Record t := {
  id : JS.value;
  name : JS.value;
  status : JS.value;
  sortPriority : JS.value;
  handicap : JS.value;
  lastPriceTraded : JS.value;
  totalMatched : JS.value;
  backPrices : list Price.t;
  layPrices : list Price.t
}.
End Runner.

Module Market.
Record t := {
  id : JS.value;
  name : JS.value;
  status : JS.value;
  inPlay : JS.value;
  totalMatched : JS.value;
  numWinners : JS.value;
  start : JS.value;
  marketType : JS.value;
  sport : string;
  runners : list Runner.t
}.
End Market.

Module Match.
Record t := {
  id : JS.value;
  name : JS.value;
  venue : JS.value;
  startTime : JS.value;
  inPlay : JS.value;
  sport : string;
  competitionId : JS.value;
  competition : JS.value;
  markets : list Market.t
}.

(** [match.markets.push(m)] *)
Definition push_market (m : Market.t) (x : t) : t :=
  {| id := id x; name := name x; venue := venue x; startTime := startTime x;
     inPlay := inPlay x; sport := sport x; competitionId := competitionId x;
     competition := competition x; markets := markets x ++ [m] |}.
End Match.

Module Competition.
(** While the payload is scanned a competition lists the event ids of
    its matches; in the result each id is replaced by [matches[id]]. *)
Record t (M : Type) := { id : JS.value; name : JS.value; matches : list M }.
Arguments id {M} _.
Arguments name {M} _.
Arguments matches {M} _.

(** [competition.matches.push(x)] *)
Definition push {M} (x : M) (c : t M) : t M :=
  {| id := id c; name := name c; matches := matches c ++ [x] |}.
End Competition.

(** ** dataTransformer.js *)

Module Transformer.
Import JS Dict.

(** [a.map(f)]: only arrays have a callable [map]. *)
Fixpoint map_items {B} (f : value -> completion B) (items : list value)
  : completion (list B) :=
  match items with
  | [] => Normal []
  | x :: items' =>
      let! y := f x in
      let! ys := map_items f items' in
      Normal (y :: ys)
  end.

Definition array_method {B} (method : string) (a : value)
    (run : list value -> completion B) : completion B :=
  match a with
  | VArr items => run items
  | VUndefined | VNull => Throw (ReadOfNullish method)
  | _ => Throw (NotAFunction method)
  end.

Definition array_map {B} (a : value) (f : value -> completion B)
  : completion (list B) :=
  array_method "map" a (map_items f).

Definition transformPrice (price : value) : completion Price.t :=
  let! p := get price "price" in
  let! s := get price "size" in
  Normal {| Price.price := p; Price.size := s |}.

(** [ladder?.map(price => ({...})) || []] *)
Definition transformLadder (ladder : value) : completion (list Price.t) :=
  if nullish ladder then Normal [] else array_map ladder transformPrice.

Definition transformRunner (runner : value) : completion Runner.t :=
  let! id := get runner "id" in
  let! name := get runner "name" in
  let! status := get runner "status" in
  let! sort := get runner "sort" in
  let! hdp := get runner "hdp" in
  let! lastPriceTraded := get runner "lastPriceTraded" in
  let! totalMatched := get runner "totalMatched" in
  let! back := get runner "back" in
  let! backPrices := transformLadder back in
  let! lay := get runner "lay" in
  let! layPrices := transformLadder lay in
  Normal {| Runner.id := id; Runner.name := name; Runner.status := status;
            Runner.sortPriority := sort; Runner.handicap := hdp;
            Runner.lastPriceTraded := lastPriceTraded;
            Runner.totalMatched := totalMatched;
            Runner.backPrices := backPrices; Runner.layPrices := layPrices |}.

Definition sport_of_type (eventTypeId : value) : string :=
  if strict_eq_str eventTypeId "1" then "football"
  else if strict_eq_str eventTypeId "2" then "tennis"
  else if strict_eq_str eventTypeId "4" then "cricket"
  else "unknown".

(** The body of the [try] block of [transformMarket]. *)
Definition transformMarket_body (market : value) : completion Market.t :=
  let! id := get market "id" in
  let! name := get market "name" in
  let! status := get market "status" in
  let! inPlay := get market "inPlay" in
  let! matched := get market "matched" in
  let! numWinners := get market "numWinners" in
  let! start := get market "start" in
  let! mtype := get market "mtype" in
  let! eventTypeId := get market "eventTypeId" in
  let! runners := get market "runners" in
  let! rs := array_map runners transformRunner in
  Normal {| Market.id := id; Market.name := name; Market.status := status;
            Market.inPlay := or_else inPlay (VBool false);
            Market.totalMatched := matched; Market.numWinners := numWinners;
            Market.start := start; Market.marketType := mtype;
            Market.sport := sport_of_type eventTypeId; Market.runners := rs |}.

(** [transformMarket(market)]; [None] is the [null] result. *)
Definition transformMarket (market : value) : completion (option Market.t) :=
  if negb (truthy market) then Normal None else
  let! runners := get market "runners" in
  if negb (truthy runners) then Normal None else
  try_catch
    (let! m := transformMarket_body market in Normal (Some m))
    (fun _ => Normal None).

(** [{ success: false, message, sport }] or the transformed payload of
    [transformSportData]. *)
Inductive sport_data :=
| SportFailure (message : string) (sport : string)
| SportSuccess (sport : string)
               (competitions : list (Competition.t (slot Match.t)))
               (matchCount : nat) (timestamp : Z).

Module EventInfo.
Record t := {
  id : value;
  name : value;
  venue : value;
  startTime : value;
  inPlay : value;
  competition : value;
  competitionId : value
}.
End EventInfo.

Module Grouped.
Record t := {
  matchOdds : option Market.t;
  tiedMatch : option Market.t;
  overUnderMarkets : list Market.t;
  setMarkets : list Market.t;
  gameMarkets : list Market.t;
  otherMarkets : list Market.t
}.
End Grouped.

Inductive event_data :=
| EventFailure (message : string) (sport : string)
| EventSuccess (sport : string) (event : EventInfo.t) (markets : list Market.t)
               (groupedMarkets : Grouped.t) (timestamp : Z).

(** The tables [matches] and [competitions] of [transformSportData]. *)
Record tables := {
  matches : Dict.t Match.t;
  competitions : Dict.t (Competition.t value)
}.

Definition no_tables : tables := {| matches := []; competitions := [] |}.

(** [a.forEach(f)] with the tables threaded through the callback. *)
Fixpoint for_each {S} (f : S -> value -> completion S) (st : S) (items : list value)
  : completion S :=
  match items with
  | [] => Normal st
  | x :: items' =>
      let! st' := f st x in
      for_each f st' items'
  end.

(** [a.sort(compare)]: ECMAScript fixes the result for a consistent
    comparator (the stable ordering) and leaves the sequence of calls to
    the engine; here each element is compared, as first argument, with
    the elements already placed. *)
Fixpoint insert_sorted {X} (compare : X -> X -> completion Z) (a : X) (l : list X)
  : completion (list X) :=
  match l with
  | [] => Normal [a]
  | b :: l' =>
      let! c := compare a b in
      if (c <? 0)%Z then Normal (a :: l)
      else let! r := insert_sorted compare a l' in Normal (b :: r)
  end.

Fixpoint sort_into {X} (compare : X -> X -> completion Z) (placed l : list X)
  : completion (list X) :=
  match l with
  | [] => Normal placed
  | a :: l' =>
      let! placed' := insert_sorted compare a placed in
      sort_into compare placed' l'
  end.

Definition array_sort {X} (compare : X -> X -> completion Z) (l : list X)
  : completion (list X) :=
  sort_into compare [] l.

(** [s.includes(needle)] on strings. *)
Fixpoint includes (s needle : string) : bool :=
  String.prefix needle s ||
  match s with
  | EmptyString => false
  | String _ s' => includes s' needle
  end.

(** [name?.includes(needle)], as a condition: a missing name gives
    [undefined], an array is searched for an element equal to the
    needle, and any other value has no callable [includes]. *)
Definition name_includes (name : value) (needle : string) : completion bool :=
  match name with
  | VUndefined | VNull => Normal false
  | VStr s => Normal (includes s needle)
  | VArr items => Normal (existsb (fun x => strict_eq_str x needle) items)
  | _ => Throw (NotAFunction "includes")
  end.

(** [a.filter(p)] and [a.find(p)] for a predicate that may throw. *)
Fixpoint filter_items {X} (p : X -> completion bool) (l : list X) : completion (list X) :=
  match l with
  | [] => Normal []
  | x :: l' =>
      let! b := p x in
      let! r := filter_items p l' in
      Normal (if b then x :: r else r)
  end.

(** [result?.[0]] for a truthy [result]. *)
Definition first_item (result : value) : value :=
  match result with
  | VArr (x :: _) => x
  | VStr (String c _) => VStr (String c EmptyString)
  | VObj props =>
      match assoc "0" props with
      | Some x => x
      | None => VUndefined
      end
  | _ => VUndefined
  end.

Section Host.

(** What the host provides: [new Date(v).getTime()], the collation
    order of [String.prototype.localeCompare], and the text of an
    exception's [message]. *)
Variable date_getTime : value -> completion value.
Variable localeCompare : string -> string -> Z.
Variable error_message : error -> string.

(** The callback of [data.result.forEach] in [transformSportData]. *)
Definition scan_market (sportName : string) (st : tables) (market : value)
  : completion tables :=
  let! event := get market "event" in
  if negb (truthy event) then Normal st else
  let! eventId := get event "id" in
  if negb (truthy eventId) then Normal st else
  let! competition := get market "competition" in
  let! competitionId := get_opt competition "id" in
  let! competitionName := get_opt competition "name" in
  (* Store competition info *)
  let! competitions1 :=
    (if truthy competitionId && truthy competitionName then
       let! ck := to_string competitionId in
       if missing (competitions st) ck then
         Normal (add (competitions st) ck
                   {| Competition.id := competitionId;
                      Competition.name := competitionName;
                      Competition.matches := [] |})
       else Normal (competitions st)
     else Normal (competitions st)) in
  (* Create or update match entry *)
  let! ek := to_string eventId in
  let! st1 :=
    (if missing (matches st) ek then
       let! name := get event "name" in
       let! venue := get event "venue" in
       let! openDate := get event "openDate" in
       let! startTime :=
         (if truthy openDate then date_getTime openDate else get market "start") in
       let! inPlay := get market "inPlay" in
       let matches1 :=
         add (matches st) ek
           {| Match.id := eventId; Match.name := name; Match.venue := venue;
              Match.startTime := startTime;
              Match.inPlay := or_else inPlay (VBool false);
              Match.sport := sportName;
              Match.competitionId := competitionId;
              Match.competition := competitionName;
              Match.markets := [] |} in
       (* Add this match to its competition *)
       if truthy competitionId then
         let! ck := to_string competitionId in
         match lookup competitions1 ck with
         | Own _ =>
             Normal {| matches := matches1;
                       competitions :=
                         update ck (Competition.push eventId) competitions1 |}
         | Inherited _ => Throw (ReadOfNullish "push")
         | Absent => Normal {| matches := matches1; competitions := competitions1 |}
         end
       else Normal {| matches := matches1; competitions := competitions1 |}
     else Normal {| matches := matches st; competitions := competitions1 |}) in
  (* Add market to match *)
  let! transformedMarket := transformMarket market in
  match transformedMarket with
  | Some m =>
      match lookup (matches st1) ek with
      | Own _ =>
          Normal {| matches := update ek (Match.push_market m) (matches st1);
                    competitions := competitions st1 |}
      | Inherited _ => Throw (ReadOfNullish "push")
      | Absent => Throw (ReadOfNullish "markets")
      end
  | None => Normal st1
  end.

(** [comp => ({ ...comp, matches: comp.matches.map(matchId => matches[matchId]) })] *)
Definition resolve_competition (ms : Dict.t Match.t) (comp : Competition.t value)
  : completion (Competition.t (slot Match.t)) :=
  let! resolved :=
    map_items (fun matchId => let! k := to_string matchId in Normal (lookup ms k))
              (Competition.matches comp) in
  Normal {| Competition.id := Competition.id comp;
            Competition.name := Competition.name comp;
            Competition.matches := resolved |}.

Fixpoint map_list {X Y} (f : X -> completion Y) (l : list X) : completion (list Y) :=
  match l with
  | [] => Normal []
  | x :: l' =>
      let! y := f x in
      let! ys := map_list f l' in
      Normal (y :: ys)
  end.

(** [(a, b) => a.name.localeCompare(b.name)] *)
Definition compare_names {M} (a b : Competition.t M) : completion Z :=
  match Competition.name a with
  | VStr s =>
      let! t := to_string (Competition.name b) in
      Normal (localeCompare s t)
  | VUndefined | VNull => Throw (ReadOfNullish "localeCompare")
  | _ => Throw (NotAFunction "localeCompare")
  end.

(** The body of the [try] block of [transformSportData]; [now] is the
    clock read by [new Date().getTime()].  Both callers pass a string as
    [sportName]: a route parameter, or a name on which [toLowerCase] has
    been called already. *)
Definition transformSportData_body (now : Z) (data : value) (sportName : string)
  : completion sport_data :=
  let! result := get data "result" in
  let! st := array_method "forEach" result (for_each (scan_market sportName) no_tables) in
  let! competitionsArray :=
    map_list (resolve_competition (matches st)) (Dict.values (competitions st)) in
  let! sorted := array_sort compare_names competitionsArray in
  Normal (SportSuccess sportName sorted (Dict.size (matches st)) now).

Definition transformSportData (now : Z) (data : value) (sportName : string)
  : completion sport_data :=
  if negb (truthy data) then Normal (SportFailure "Invalid data format" sportName) else
  let! result := get data "result" in
  if negb (truthy result) then Normal (SportFailure "Invalid data format" sportName) else
  try_catch
    (transformSportData_body now data sportName)
    (fun error =>
       Normal (SportFailure
                 ("Error transforming " +:+ sportName +:+ " data: " +:+ error_message error)
                 sportName)).

(** The predicate of [otherMarkets]. *)
Definition is_other (m : Market.t) : completion bool :=
  if strict_eq_str (Market.name m) "Match Odds" then Normal false else
  if strict_eq_str (Market.name m) "Tied Match" then Normal false else
  let! ou := name_includes (Market.name m) "Over/Under" in
  if ou then Normal false else
  let! st := name_includes (Market.name m) "Set" in
  if st then Normal false else
  let! gm := name_includes (Market.name m) "Game" in
  Normal (negb gm).

Definition groupMarkets (markets : list Market.t) : completion Grouped.t :=
  let matchOdds := List.find (fun m => strict_eq_str (Market.name m) "Match Odds") markets in
  let tiedMatch := List.find (fun m => strict_eq_str (Market.name m) "Tied Match") markets in
  let! overUnderMarkets :=
    filter_items (fun m => name_includes (Market.name m) "Over/Under") markets in
  let! setMarkets := filter_items (fun m => name_includes (Market.name m) "Set") markets in
  let! gameMarkets := filter_items (fun m => name_includes (Market.name m) "Game") markets in
  let! otherMarkets := filter_items is_other markets in
  Normal {| Grouped.matchOdds := matchOdds; Grouped.tiedMatch := tiedMatch;
            Grouped.overUnderMarkets := overUnderMarkets;
            Grouped.setMarkets := setMarkets; Grouped.gameMarkets := gameMarkets;
            Grouped.otherMarkets := otherMarkets |}.

(** [.filter(Boolean)] on the results of [transformMarket]. *)
Definition keep_markets (l : list (option Market.t)) : list Market.t :=
  flat_map (fun o => match o with Some m => [m] | None => [] end) l.

Definition transformEventData_body (now : Z) (data : value) (sportName : string)
  : completion event_data :=
  let! result := get data "result" in
  let firstMarket := or_else (first_item result) (VObj []) in
  let! ev := get firstMarket "event" in
  let event := or_else ev (VObj []) in
  let! transformed := array_map result transformMarket in
  let markets := keep_markets transformed in
  let! groupedMarkets := groupMarkets markets in
  let! id := get event "id" in
  let! name := get event "name" in
  let! venue := get event "venue" in
  let! openDate := get event "openDate" in
  let! startTime :=
    (if truthy openDate then date_getTime openDate else get firstMarket "start") in
  let! inPlay := get firstMarket "inPlay" in
  let! competition := get firstMarket "competition" in
  let! competitionName := get_opt competition "name" in
  let! competitionId := get_opt competition "id" in
  Normal (EventSuccess sportName
            {| EventInfo.id := id; EventInfo.name := name; EventInfo.venue := venue;
               EventInfo.startTime := startTime;
               EventInfo.inPlay := or_else inPlay (VBool false);
               EventInfo.competition := competitionName;
               EventInfo.competitionId := competitionId |}
            markets groupedMarkets now).

Definition transformEventData (now : Z) (data : value) (sportName : string)
  : completion event_data :=
  if negb (truthy data) then Normal (EventFailure "Invalid event data format" sportName) else
  let! result := get data "result" in
  if negb (truthy result) then Normal (EventFailure "Invalid event data format" sportName) else
  try_catch
    (transformEventData_body now data sportName)
    (fun error =>
       Normal (EventFailure
                 ("Error transforming event data: " +:+ error_message error)
                 sportName)).

End Host.

End Transformer.

(** ** server.js: upstream client, caches and REST routes *)

Module Server.
Import JS Dict Transformer.

Definition API_BASE_URL : string := "https://gobook9.com/api".

Definition SPORT_TYPE_IDS : Dict.t string :=
  [("cricket", "4"); ("football", "1"); ("tennis", "2")].

(** Cache TTL (5 minutes), and the 10 seconds of the event route. *)
Definition CACHE_TTL : Z := 5 * 60 * 1000.
Definition EVENT_TTL : Z := 10000.

(** A cache slot [{ data, timestamp }]; [data] is [null] until filled. *)
Record entry (P : Type) := { data : option P; timestamp : Z }.
Arguments data {P} _.
Arguments timestamp {P} _.

(** The process-wide state: the two caches, and the URLs handed to
    [apiRequest] so far (most recent first).  A cache is read only
    through [cache[key] && cache[key].data], which fails alike for a key
    that is missing and for one inherited from [Object.prototype], and a
    write creates the key, so a finite map describes it. *)
Record state := {
  sportsDataCache : gmap string (entry sport_data);
  eventDataCache : gmap string (entry event_data);
  requested : list string
}.

Definition initial : state :=
  {| sportsDataCache :=
       <["cricket" := {| data := None; timestamp := 0 |}]>
       (<["football" := {| data := None; timestamp := 0 |}]>
       (<["tennis" := {| data := None; timestamp := 0 |}]> ∅));
     eventDataCache := ∅;
     requested := [] |}.

(** [apiRequest(url)] records the call; what it resolves to (the
    response body, or [null] after a logged failure) is the upstream's
    choice and is supplied to the continuation. *)
Definition apiRequest (url : string) (st : state) : state :=
  {| sportsDataCache := sportsDataCache st;
     eventDataCache := eventDataCache st;
     requested := url :: requested st |}.

Definition set_sport (key : string) (e : entry sport_data) (st : state) : state :=
  {| sportsDataCache := <[key := e]> (sportsDataCache st);
     eventDataCache := eventDataCache st;
     requested := requested st |}.

Definition set_event (key : string) (e : entry event_data) (st : state) : state :=
  {| sportsDataCache := sportsDataCache st;
     eventDataCache := <[key := e]> (eventDataCache st);
     requested := requested st |}.

(** What [res.json] / [res.status(500).json] send. *)
Inductive body (P : Type) :=
| Payload (p : P)
| Failed (message : string).
Arguments Payload {P} p.
Arguments Failed {P} message.

Record response (P : Type) := { status : Z; sent : body P }.
Arguments status {P} _.
Arguments sent {P} _.

Definition ok {P} (p : P) : response P := {| status := 200; sent := Payload p |}.
Definition failed {P} (message : string) : response P :=
  {| status := 500; sent := Failed message |}.

(** A route handler runs up to its [await apiRequest(url)] and is
    resumed with what the request resolved to. *)
Inductive progress (P : Type) :=
| Responded (r : response P)
| Awaiting (url : string).
Arguments Responded {P} r.
Arguments Awaiting {P} url.

(** The cache test of both routes: a filled slot younger than [ttl]. *)
Definition fresh {P} (cache : gmap string (entry P)) (key : string) (now ttl : Z)
  : option P :=
  match cache !! key with
  | Some e =>
      match data e with
      | Some p => if (now - timestamp e <? ttl)%Z then Some p else None
      | None => None
      end
  | None => None
  end.

Section Host.

Variable toLowerCase : string -> string.
Variable date_getTime : value -> completion value.
Variable localeCompare : string -> string -> Z.
Variable error_message : error -> string.

(** [SPORT_TYPE_IDS[normalizedName] || '4'] *)
Definition getSportTypeId (sportName : string) : value :=
  let normalizedName := toLowerCase sportName in
  or_else
    match lookup SPORT_TYPE_IDS normalizedName with
    | Own id => VStr id
    | Inherited b => VBuiltin b
    | Absent => VUndefined
    end
    (VStr "4").

Definition sport_url (sportTypeId : value) : completion string :=
  let! id := to_string sportTypeId in
  Normal (API_BASE_URL +:+ "/exchange/odds/eventType/" +:+ id).

Definition event_url (sportTypeId : value) (eventId : string) : completion string :=
  let! id := to_string sportTypeId in
  Normal (API_BASE_URL +:+ "/exchange/odds/d-sma-event/" +:+ id +:+ "/" +:+ eventId).

(** [GET /api/sport/:sportName], up to the upstream request. *)
Definition sport_route_start (now : Z) (sportName : string) (st : state)
  : completion (progress sport_data * state) :=
  let sportTypeId := getSportTypeId sportName in
  let cacheKey := toLowerCase sportName in
  match fresh (sportsDataCache st) cacheKey now CACHE_TTL with
  | Some cached => Normal (Responded (ok cached), st)
  | None =>
      let! url := sport_url sportTypeId in
      Normal (Awaiting url, apiRequest url st)
  end.

(** ... and from the reply on; [now] is the clock read before the
    request was sent, [clock] the one read by the transformer. *)
Definition sport_route_finish (now clock : Z) (sportName : string) (sportData : value)
    (st : state) : completion (response sport_data * state) :=
  if negb (truthy sportData) then
    Normal (failed ("Failed to fetch " +:+ sportName +:+ " data"), st)
  else
    let! transformedData :=
      transformSportData date_getTime localeCompare error_message clock sportData sportName in
    let st' :=
      set_sport (toLowerCase sportName)
                {| data := Some transformedData; timestamp := now |} st in
    Normal (ok transformedData, st').

(** The whole handler for a request served without interleaving;
    [sportData] is what the upstream answers if it is asked. *)
Definition sport_route (now clock : Z) (sportName : string) (sportData : value)
    (st : state) : response sport_data * state :=
  match sport_route_start now sportName st with
  | Normal (Responded r, st1) => (r, st1)
  | Normal (Awaiting _, st1) =>
      match sport_route_finish now clock sportName sportData st1 with
      | Normal out => out
      | Throw _ => (failed ("Failed to fetch " +:+ sportName +:+ " data"), st1)
      end
  | Throw _ => (failed ("Failed to fetch " +:+ sportName +:+ " data"), st)
  end.

(** [GET /api/event/:sportName/:eventId] *)
Definition event_route_start (now : Z) (sportName eventId : string) (st : state)
  : completion (progress event_data * state) :=
  let sportTypeId := getSportTypeId sportName in
  let cacheKey := sportName +:+ "_" +:+ eventId in
  match fresh (eventDataCache st) cacheKey now EVENT_TTL with
  | Some cached => Normal (Responded (ok cached), st)
  | None =>
      let! url := event_url sportTypeId eventId in
      Normal (Awaiting url, apiRequest url st)
  end.

Definition event_route_finish (now clock : Z) (sportName eventId : string)
    (eventData : value) (st : state) : completion (response event_data * state) :=
  if negb (truthy eventData) then
    Normal (failed ("Failed to fetch event data for " +:+ eventId), st)
  else
    let! transformedData :=
      transformEventData date_getTime error_message clock eventData sportName in
    let st' :=
      set_event (sportName +:+ "_" +:+ eventId)
                {| data := Some transformedData; timestamp := now |} st in
    Normal (ok transformedData, st').

Definition event_route (now clock : Z) (sportName eventId : string) (eventData : value)
    (st : state) : response event_data * state :=
  match event_route_start now sportName eventId st with
  | Normal (Responded r, st1) => (r, st1)
  | Normal (Awaiting _, st1) =>
      match event_route_finish now clock sportName eventId eventData st1 with
      | Normal out => out
      | Throw _ => (failed ("Failed to fetch event data for " +:+ eventId), st1)
      end
  | Throw _ => (failed ("Failed to fetch event data for " +:+ eventId), st)
  end.

End Host.

(** [String.prototype.toLowerCase] on ASCII text. *)
Definition ascii_lower (c : ascii) : ascii :=
  let n := nat_of_ascii c in
  if (65 <=? n)%nat && (n <=? 90)%nat then ascii_of_nat (n + 32) else c.

Fixpoint lower (s : string) : string :=
  match s with
  | EmptyString => EmptyString
  | String c s' => String (ascii_lower c) (lower s')
  end.

End Server.

(** ** server.js: the socket handlers of one connection *)

Module Socket.
Import JS Dict Transformer Server.

(** The closures [fetchAndEmitSportData] and [fetchAndEmitEventData]
    with the variables they capture. *)
Inductive cycle :=
| SportCycle (sportName : string) (sportTypeId : value)
| EventCycle (sportName eventId : string) (sportTypeId : value).

Definition is_sport_cycle (c : cycle) : bool :=
  match c with
  | SportCycle _ _ => true
  | EventCycle _ _ _ => false
  end.

(** An interval armed by [setInterval] and not cleared since. *)
Record timer := { handle : nat; period : Z; callback : cycle }.

(** [socket.emit('sport_update', ...)] and [socket.emit('event_update', ...)] *)
Inductive emission :=
| sport_update (p : sport_data)
| event_update (p : event_data).

(** The variables of the [io.on('connection', ...)] closure, the armed
    timers, the [subscribe_*] handlers suspended at
    [await fetchAndEmit...()], and what was emitted (most recent first). *)
Record connection := {
  subscriptions_sport : option string;
  subscriptions_event : option (string * string);
  sportUpdateInterval : option nat;
  eventUpdateInterval : option nat;
  timers : list timer;
  next_handle : nat;
  suspended : list (nat * cycle);
  next_call : nat;
  emitted : list emission
}.

Definition connected : connection :=
  {| subscriptions_sport := None; subscriptions_event := None;
     sportUpdateInterval := None; eventUpdateInterval := None;
     timers := []; next_handle := 0; suspended := []; next_call := 0;
     emitted := [] |}.

Record world := { server : Server.state; conn : connection }.

(** [clearInterval(h)] *)
Definition clearInterval (h : option nat) (ts : list timer) : list timer :=
  match h with
  | Some n => List.filter (fun t => negb (Nat.eqb (handle t) n)) ts
  | None => ts
  end.

(** What the client, the upstream and the clock make happen on a
    connection: the client's messages (sport names are strings), the
    resolution of the initial fetch of the suspended handler [call], and
    a tick of the timer [h] together with the resolution of its fetch. *)
Inductive event :=
| SubscribeSport (sportName : string)
| UnsubscribeSport
| SubscribeEvent (sportName eventId : string)
| UnsubscribeEvent
| Disconnect
| Fetched (call : nat) (reply : value) (clock : Z)
| Tick (h : nat) (reply : value) (clock : Z).

Section Host.

Variable toLowerCase : string -> string.
Variable date_getTime : value -> completion value.
Variable localeCompare : string -> string -> Z.
Variable error_message : error -> string.

(** The request of a cycle: [await apiRequest(url)]. *)
Definition cycle_url (c : cycle) : completion string :=
  match c with
  | SportCycle _ sportTypeId => sport_url sportTypeId
  | EventCycle _ eventId sportTypeId => event_url sportTypeId eventId
  end.

Definition request (c : cycle) (st : Server.state) : Server.state :=
  match cycle_url c with
  | Normal url => apiRequest url st
  | Throw _ => st
  end.

(** The rest of a cycle once the request has resolved to [reply]:
    transform and emit, inside [try { } catch { console.error }]. *)
Definition deliver (c : cycle) (reply : value) (clock : Z) (out : list emission)
  : list emission :=
  match cycle_url c with
  | Throw _ => out
  | Normal _ =>
      if truthy reply then
        match c with
        | SportCycle sportName _ =>
            match transformSportData date_getTime localeCompare error_message
                    clock reply sportName with
            | Normal transformedData => sport_update transformedData :: out
            | Throw _ => out
            end
        | EventCycle sportName _ _ =>
            match transformEventData date_getTime error_message clock reply sportName with
            | Normal transformedData => event_update transformedData :: out
            | Throw _ => out
            end
        end
      else out
  end.

(** The closure a [subscribe_sport] / [subscribe_event] handler builds. *)
Definition sport_cycle (sportName : string) : cycle :=
  SportCycle sportName (getSportTypeId toLowerCase sportName).

Definition event_cycle (sportName eventId : string) : cycle :=
  EventCycle sportName eventId (getSportTypeId toLowerCase sportName).

Definition find_call (call : nat) (l : list (nat * cycle)) : option cycle :=
  option_map snd (List.find (fun p => Nat.eqb (fst p) call) l).

Definition find_timer (h : nat) (l : list timer) : option timer :=
  List.find (fun t => Nat.eqb (handle t) h) l.

Definition step (w : world) (e : event) : world :=
  let c := conn w in
  match e with
  | SubscribeSport sportName =>
      (* clear any existing sport interval, set the subscription, and
         start the initial fetch *)
      let cyc := sport_cycle sportName in
      {| server := request cyc (server w);
         conn :=
           {| subscriptions_sport := Some sportName;
              subscriptions_event := subscriptions_event c;
              sportUpdateInterval := sportUpdateInterval c;
              eventUpdateInterval := eventUpdateInterval c;
              timers := clearInterval (sportUpdateInterval c) (timers c);
              next_handle := next_handle c;
              suspended := (next_call c, cyc) :: suspended c;
              next_call := S (next_call c);
              emitted := emitted c |} |}
  | SubscribeEvent sportName eventId =>
      let cyc := event_cycle sportName eventId in
      {| server := request cyc (server w);
         conn :=
           {| subscriptions_sport := subscriptions_sport c;
              subscriptions_event := Some (sportName, eventId);
              sportUpdateInterval := sportUpdateInterval c;
              eventUpdateInterval := eventUpdateInterval c;
              timers := clearInterval (eventUpdateInterval c) (timers c);
              next_handle := next_handle c;
              suspended := (next_call c, cyc) :: suspended c;
              next_call := S (next_call c);
              emitted := emitted c |} |}
  | Fetched call reply clock =>
      (* the initial fetch resolves: emit, then arm the interval *)
      match find_call call (suspended c) with
      | None => w
      | Some cyc =>
          let h := next_handle c in
          let sport := is_sport_cycle cyc in
          {| server := server w;
             conn :=
               {| subscriptions_sport := subscriptions_sport c;
                  subscriptions_event := subscriptions_event c;
                  sportUpdateInterval :=
                    if sport then Some h else sportUpdateInterval c;
                  eventUpdateInterval :=
                    if sport then eventUpdateInterval c else Some h;
                  timers :=
                    {| handle := h; period := if sport then 5000 else 1000;
                       callback := cyc |} :: timers c;
                  next_handle := S h;
                  suspended :=
                    List.filter (fun p => negb (Nat.eqb (fst p) call)) (suspended c);
                  next_call := next_call c;
                  emitted := deliver cyc reply clock (emitted c) |} |}
      end
  | Tick h reply clock =>
      match find_timer h (timers c) with
      | None => w
      | Some t =>
          {| server := request (callback t) (server w);
             conn :=
               {| subscriptions_sport := subscriptions_sport c;
                  subscriptions_event := subscriptions_event c;
                  sportUpdateInterval := sportUpdateInterval c;
                  eventUpdateInterval := eventUpdateInterval c;
                  timers := timers c;
                  next_handle := next_handle c;
                  suspended := suspended c;
                  next_call := next_call c;
                  emitted := deliver (callback t) reply clock (emitted c) |} |}
      end
  | UnsubscribeSport =>
      {| server := server w;
         conn :=
           {| subscriptions_sport := None;
              subscriptions_event := subscriptions_event c;
              sportUpdateInterval := None;
              eventUpdateInterval := eventUpdateInterval c;
              timers := clearInterval (sportUpdateInterval c) (timers c);
              next_handle := next_handle c;
              suspended := suspended c;
              next_call := next_call c;
              emitted := emitted c |} |}
  | UnsubscribeEvent =>
      {| server := server w;
         conn :=
           {| subscriptions_sport := subscriptions_sport c;
              subscriptions_event := None;
              sportUpdateInterval := sportUpdateInterval c;
              eventUpdateInterval := None;
              timers := clearInterval (eventUpdateInterval c) (timers c);
              next_handle := next_handle c;
              suspended := suspended c;
              next_call := next_call c;
              emitted := emitted c |} |}
  | Disconnect =>
      {| server := server w;
         conn :=
           {| subscriptions_sport := subscriptions_sport c;
              subscriptions_event := subscriptions_event c;
              sportUpdateInterval := sportUpdateInterval c;
              eventUpdateInterval := eventUpdateInterval c;
              timers :=
                clearInterval (eventUpdateInterval c)
                  (clearInterval (sportUpdateInterval c) (timers c));
              next_handle := next_handle c;
              suspended := suspended c;
              next_call := next_call c;
              emitted := emitted c |} |}
  end.

Definition run (w : world) (es : list event) : world := fold_left step es w.

(** The cycles that the handlers build capture the type id of their
    sport. *)
Definition subscribed (c : cycle) : Prop :=
  match c with
  | SportCycle sportName sportTypeId => sportTypeId = getSportTypeId toLowerCase sportName
  | EventCycle sportName _ sportTypeId => sportTypeId = getSportTypeId toLowerCase sportName
  end.

(** Every armed timer and every suspended handler runs such a cycle. *)
Definition armed_by_handlers (c : connection) : Prop :=
  Forall (fun t => subscribed (callback t)) (timers c) /\
  Forall (fun p => subscribed (snd p)) (suspended c).

(** The armed timers of the sport lane. *)
Definition sport_timers (c : connection) : list timer :=
  List.filter (fun t => is_sport_cycle (callback t)) (timers c).

End Host.

End Socket.

(** ** Vocabulary of the properties *)

Module Spec.
Import JS Dict Transformer.

(** [v.k] where the read cannot throw. *)
Definition field (v : value) (k : string) : value :=
  match get v k with
  | Normal x => x
  | Throw _ => VUndefined
  end.

(** The property key under which a market record is grouped: the
    string form of its truthy [event.id].  A key that names a property
    of [Object.prototype] groups nothing: [matches[key]] is then an
    inherited host object and no match is created. *)
Definition event_key (market : value) : option string :=
  if nullish market then None else
  let event := field market "event" in
  if negb (truthy event) then None else
  let eventId := field event "id" in
  if negb (truthy eventId) then None else
  match to_string eventId with
  | Normal k =>
      match object_prototype k with
      | None => Some k
      | Some _ => None
      end
  | Throw _ => None
  end.

Definition has_key (k : string) (market : value) : bool :=
  match event_key market with
  | Some k' => String.eqb k k'
  | None => false
  end.

(** [market.competition?.id] and [market.competition?.name] *)
Definition competition_id (market : value) : value :=
  let competition := field market "competition" in
  if nullish competition then VUndefined else field competition "id".

Definition competition_name (market : value) : value :=
  let competition := field market "competition" in
  if nullish competition then VUndefined else field competition "name".

(** The record that creates the match of key [k]: the first one of the
    payload grouped under [k]. *)
Definition first_record (k : string) (items : list value) : option value :=
  List.find (has_key k) items.

(** The markets that the records grouped under [k] transform to. *)
Definition markets_of (k : string) (items : list value) : list Market.t :=
  flat_map (fun market =>
              if has_key k market then
                match transformMarket market with
                | Normal (Some m) => [m]
                | _ => []
                end
              else []) items.

Definition has_runners (market : value) : bool := truthy (field market "runners").

(** A slot of a competition's match list holds the match of key [k]. *)
Definition holds (k : string) (s : slot Match.t) : Prop :=
  match s with
  | Own m => to_string (Match.id m) = Normal k
  | _ => False
  end.

Definition holdsb (k : string) (s : slot Match.t) : bool :=
  match s with
  | Own m =>
      match to_string (Match.id m) with
      | Normal k' => String.eqb k k'
      | Throw _ => false
      end
  | _ => false
  end.

(** How many times the match of key [k] is listed, over all the
    competitions of a result. *)
Definition listed (k : string) (cs : list (Competition.t (slot Match.t))) : nat :=
  list_sum (map (fun c => length (List.filter (holdsb k) (Competition.matches c))) cs).

(** The distinct event keys of a payload, in order of first occurrence. *)
Fixpoint event_keys (seen : list string) (items : list value) : list string :=
  match items with
  | [] => seen
  | market :: items' =>
      match event_key market with
      | Some k =>
          if existsb (String.eqb k) seen then event_keys seen items'
          else event_keys (seen ++ [k]) items'
      | None => event_keys seen items'
      end
  end.

(** The key of an event id pushed on a competition. *)
Definition key_of (eventId : value) : option string :=
  match to_string eventId with
  | Normal k => Some k
  | Throw _ => None
  end.

(** The keys of the matches listed under the competitions, while the
    payload is scanned. *)
Definition listing (competitions : Dict.t (Competition.t value)) : list (option string) :=
  flat_map (fun c => map key_of (Competition.matches (snd c))) competitions.

(** The competition a record declares: both its id and name truthy. *)
Definition has_competition (market : value) : bool :=
  truthy (competition_id market) && truthy (competition_name market).

(** How many times the key [k] is listed. *)
Definition occurrences (k : string) (l : list (option string)) : nat :=
  length (List.filter (fun e => match e with Some k' => String.eqb k k' | None => false end) l).

(** What holds of the tables once the records [seen] are scanned. *)
Record scanned (seen : list value) (st : tables) : Prop := {
  scanned_markets :
    forall k m, assoc k (matches st) = Some m ->
      to_string (Match.id m) = Normal k /\ Match.markets m = markets_of k seen;
  scanned_keys : map fst (matches st) = event_keys [] seen;
  scanned_listed :
    forall e, In e (listing (competitions st)) ->
      exists k, e = Some k /\ In k (map fst (matches st));
  scanned_once : List.NoDup (listing (competitions st));
  scanned_first :
    forall k r, first_record k seen = Some r ->
      (has_competition r = true -> In (Some k) (listing (competitions st))) /\
      (truthy (competition_id r) = false -> ~ In (Some k) (listing (competitions st)))
}.

(** The six buckets of [groupedMarkets]. *)
Inductive bucket := MatchOdds | TiedMatch | OverUnder | Sets | Games | Other.

Definition in_bucket (g : Grouped.t) (b : bucket) (m : Market.t) : Prop :=
  match b with
  | MatchOdds => Grouped.matchOdds g = Some m
  | TiedMatch => Grouped.tiedMatch g = Some m
  | OverUnder => In m (Grouped.overUnderMarkets g)
  | Sets => In m (Grouped.setMarkets g)
  | Games => In m (Grouped.gameMarkets g)
  | Other => In m (Grouped.otherMarkets g)
  end.

(** What membership in a bucket says about the name of the market. *)
Definition bucket_test (b : bucket) (m : Market.t) : Prop :=
  match b with
  | MatchOdds => Market.name m = VStr "Match Odds"
  | TiedMatch => Market.name m = VStr "Tied Match"
  | OverUnder => name_includes (Market.name m) "Over/Under" = Normal true
  | Sets => name_includes (Market.name m) "Set" = Normal true
  | Games => name_includes (Market.name m) "Game" = Normal true
  | Other => is_other m = Normal true
  end.

(** No market is in two buckets. *)
Definition mutually_exclusive (g : Grouped.t) : Prop :=
  forall m b1 b2, in_bucket g b1 m -> in_bucket g b2 m -> b1 = b2.

Definition by_substring (b : bucket) : bool :=
  match b with
  | OverUnder | Sets | Games => true
  | _ => false
  end.

(** The claim that a match is listed exactly once as soon as one of its
    records declares a competition, and that every match is listed. *)
Definition listed_when_declared (items : list value)
    (cs : list (Competition.t (slot Match.t))) : Prop :=
  forall k r, In r items -> event_key r = Some k -> has_competition r = true ->
              listed k cs = 1%nat.

Definition all_retained (items : list value)
    (cs : list (Competition.t (slot Match.t))) : Prop :=
  forall k r, In r items -> event_key r = Some k -> (1 <= listed k cs)%nat.


End Spec.

(** ** Sample hosts and payloads *)

Module Sample.
Import JS Dict Transformer Server Socket.

(** A host whose dates are opaque, whose collation compares the
    lower-cased names by code unit, and whose exceptions all read
    ["TypeError"]. *)
Definition date_getTime (v : value) : completion value := Normal (VNum 0).

Definition localeCompare (a b : string) : Z :=
  match String.compare (lower a) (lower b) with
  | Lt => -1
  | Eq => 0
  | Gt => 1
  end.

Definition error_message (e : error) : string := "TypeError".

(** Case-insensitive lexicographic order. *)
Definition ci_le (a b : string) : Prop := String.compare (lower a) (lower b) <> Gt.

Definition record (eventId name : string) (competition : option (string * string))
  : value :=
  VObj ([("event", VObj [("id", VStr eventId); ("name", VStr "A v B")]);
         ("name", VStr name);
         ("runners", VArr [])] ++
        match competition with
        | Some (id, cname) => [("competition", VObj [("id", VStr id); ("name", VStr cname)])]
        | None => []
        end).

Definition payload (records : list value) : value := VObj [("result", VArr records)].

(** An event whose first record carries no competition. *)
Definition late_competition : list value :=
  [record "E1" "Match Odds" None;
   record "E1" "Over/Under 1.5" (Some ("C1", "League"))].

Definition two_leagues : list value :=
  [record "E1" "Match Odds" (Some ("C2", "premier League"));
   record "E2" "Match Odds" (Some ("C1", "Championship"));
   record "E1" "Over/Under 1.5" (Some ("C2", "premier League"))].

Definition set_game : list value := [record "E1" "Set Game" None].

(** A record without [runners], and a payload that contains it. *)
Definition no_runners : value :=
  VObj [("event", VObj [("id", VStr "E1")]);
        ("competition", VObj [("id", VStr "C1"); ("name", VStr "League")])].

Definition with_no_runners : list value :=
  [no_runners; record "E1" "Match Odds" (Some ("C1", "League"))].

Definition no_competition : list value := [record "E1" "Match Odds" None].

Definition start : world := {| server := Server.initial; conn := connected |}.

End Sample.

(** ** Further vocabulary: markets, runners and event payloads *)

Module Shape.
Import JS Dict Transformer Spec.

(** A runner of a transformed market mirrors the record it comes from:
    its fields are copied, and a ladder that is absent is empty. *)
Definition mirrors_runner (runner : value) (r : Runner.t) : Prop :=
  Runner.id r = field runner "id" /\
  Runner.name r = field runner "name" /\
  Runner.status r = field runner "status" /\
  Runner.sortPriority r = field runner "sort" /\
  Runner.handicap r = field runner "hdp" /\
  Runner.lastPriceTraded r = field runner "lastPriceTraded" /\
  Runner.totalMatched r = field runner "totalMatched" /\
  (nullish (field runner "back") = true -> Runner.backPrices r = []) /\
  (nullish (field runner "lay") = true -> Runner.layPrices r = []).

(** The markets that the records of an event payload transform to. *)
Definition transformed (items : list value) : list Market.t :=
  flat_map (fun market =>
              match transformMarket market with
              | Normal (Some m) => [m]
              | _ => []
              end) items.

(** The event block that describes an event payload: that of its first
    record, or [{}]. *)
Definition first_record_of (items : list value) : value :=
  or_else (match items with x :: _ => x | [] => VUndefined end) (VObj []).

Definition event_block (items : list value) : value :=
  or_else (field (first_record_of items) "event") (VObj []).

(** A record reaches the competition table when its event and event id
    are truthy and it declares a competition id and name. *)
Definition declares (market : value) : bool :=
  negb (nullish market) &&
  truthy (field market "event") &&
  truthy (field (field market "event") "id") &&
  has_competition market.

(** The competition that a declaring record stores. *)
Definition declared (market : value) : Competition.t value :=
  {| Competition.id := competition_id market;
     Competition.name := competition_name market;
     Competition.matches := [] |}.

(** What holds of the tables, besides [scanned], once the records
    [seen] are scanned: where the fields of a match and of a competition
    come from, and which matches a competition lists. *)
Record catalogued (sportName : string) (seen : list value) (st : tables) : Prop := {
  catalogued_match :
    forall k m, assoc k (matches st) = Some m ->
      Match.sport m = sportName /\
      exists r, first_record k seen = Some r /\
                Match.id m = field (field r "event") "id" /\
                Match.name m = field (field r "event") "name" /\
                Match.venue m = field (field r "event") "venue" /\
                Match.competitionId m = competition_id r /\
                Match.competition m = competition_name r;
  catalogued_competition :
    forall ck c, assoc ck (competitions st) = Some c ->
      to_string (Competition.id c) = Normal ck /\
      exists r, In r seen /\ declares r = true /\
                Competition.id c = competition_id r /\
                Competition.name c = competition_name r;
  catalogued_member :
    forall ck c e, assoc ck (competitions st) = Some c -> In e (Competition.matches c) ->
      exists k m, to_string e = Normal k /\ assoc k (matches st) = Some m /\
                  to_string (Match.competitionId m) = Normal ck;
  catalogued_keys : List.NoDup (map fst (competitions st));
  catalogued_declared :
    forall r, In r seen -> declares r = true ->
      exists ck, to_string (competition_id r) = Normal ck /\
                 (object_prototype ck = None -> assoc ck (competitions st) <> None)
}.

(** A value usable as a property key of the tables: it has a string
    form, which names no property of [Object.prototype]. *)
Definition plain_key (v : value) : Prop :=
  exists k, to_string v = Normal k /\ object_prototype k = None.

(** A record as the upstream sends them: not [null]; and, when it has
    an event with an id, that id and the competition id are plain keys,
    the competition name is a string, and [openDate] is accepted by the
    host's [Date]. *)
Definition well_formed (date_getTime : value -> completion value) (market : value)
  : Prop :=
  nullish market = false /\
  (truthy (field market "event") = true ->
   truthy (field (field market "event") "id") = true ->
   plain_key (field (field market "event") "id") /\
   (truthy (competition_id market) = true -> plain_key (competition_id market)) /\
   (has_competition market = true -> exists s, competition_name market = VStr s) /\
   (truthy (field (field market "event") "openDate") = true ->
    exists x, date_getTime (field (field market "event") "openDate") = Normal x)).

(** The same, as a test. *)
Definition plain_keyb (v : value) : bool :=
  match to_string v with
  | Normal k =>
      match object_prototype k with
      | None => true
      | Some _ => false
      end
  | Throw _ => false
  end.

Definition well_formedb (date_getTime : value -> completion value) (market : value)
  : bool :=
  negb (nullish market) &&
  (negb (truthy (field market "event") && truthy (field (field market "event") "id")) ||
   plain_keyb (field (field market "event") "id") &&
   (negb (truthy (competition_id market)) || plain_keyb (competition_id market)) &&
   (negb (has_competition market) ||
    match competition_name market with
    | VStr _ => true
    | _ => false
    end) &&
   (negb (truthy (field (field market "event") "openDate")) ||
    match date_getTime (field (field market "event") "openDate") with
    | Normal _ => true
    | Throw _ => false
    end)).

(** A competition whose name the comparator of [sort] can compare. *)
Definition string_named {M} (c : Competition.t M) : Prop :=
  exists s, Competition.name c = VStr s.

(** Tables on which resolving and sorting cannot throw. *)
Definition presentable (st : tables) : Prop :=
  forall ck c, In (ck, c) (competitions st) ->
    (exists s, Competition.name c = VStr s) /\
    (forall e, In e (Competition.matches c) -> exists k, to_string e = Normal k).

(** A value without a callable [includes]. *)
Definition unsearchable (v : value) : bool :=
  match v with
  | VNum _ | VBool _ | VObj _ | VBuiltin _ => true
  | _ => false
  end.

Definition named (s : string) (m : Market.t) : bool := strict_eq_str (Market.name m) s.

End Shape.

(** ** Vocabulary of the socket properties *)

Module Lane.
Import JS Server Socket.

(** The armed timers of the event lane. *)
Definition event_timers (c : connection) : list timer :=
  List.filter (fun t => negb (is_sport_cycle (callback t))) (timers c).

(** Handles are handed out in increasing order, and each of the two
    interval variables, when set, names a handle that was handed out to
    its own lane. *)
Record lanes (c : connection) : Prop := {
  lanes_handles : forall t, In t (timers c) -> (handle t < next_handle c)%nat;
  lanes_sport : forall h, sportUpdateInterval c = Some h ->
    (h < next_handle c)%nat /\
    forall t, In t (timers c) -> handle t = h -> is_sport_cycle (callback t) = true;
  lanes_event : forall h, eventUpdateInterval c = Some h ->
    (h < next_handle c)%nat /\
    forall t, In t (timers c) -> handle t = h -> is_sport_cycle (callback t) = false
}.

(** Events that call [apiRequest], and events that carry a reply on
    which something can be emitted. *)
Definition asks (e : event) : bool :=
  match e with
  | SubscribeSport _ | SubscribeEvent _ _ | Tick _ _ _ => true
  | _ => false
  end.

Definition answers (e : event) : bool :=
  match e with
  | Fetched _ reply _ | Tick _ reply _ => truthy reply
  | _ => false
  end.

(** What can still happen on a connection once the client is gone. *)
Definition is_internal (e : event) : bool :=
  match e with
  | Fetched _ _ _ | Tick _ _ _ => true
  | _ => false
  end.

(** A client that waits for the first update before it sends its next
    message: each subscription is followed by the resolution of its
    initial fetch. *)
Inductive command :=
| Subscribe_sport (sportName : string) (reply : value) (clock : Z)
| Unsubscribe_sport
| Subscribe_event (sportName eventId : string) (reply : value) (clock : Z)
| Unsubscribe_event
| Elapse (h : nat) (reply : value) (clock : Z).

Definition script (next : nat) (cmd : command) : list event :=
  match cmd with
  | Subscribe_sport sportName reply clock =>
      [SubscribeSport sportName; Fetched next reply clock]
  | Unsubscribe_sport => [UnsubscribeSport]
  | Subscribe_event sportName eventId reply clock =>
      [SubscribeEvent sportName eventId; Fetched next reply clock]
  | Unsubscribe_event => [UnsubscribeEvent]
  | Elapse h reply clock => [Tick h reply clock]
  end.

Section Host.

Variable toLowerCase : string -> string.
Variable date_getTime : value -> completion value.
Variable localeCompare : string -> string -> Z.
Variable error_message : error -> string.

Definition perform (w : world) (cmd : command) : world :=
  run toLowerCase date_getTime localeCompare error_message w
    (script (next_call (conn w)) cmd).

Definition session (w : world) (cmds : list command) : world :=
  fold_left perform cmds w.

(** One timer per active subscription, running that subscription's
    cycle, and named by the lane's interval variable. *)
Definition sport_lane_settled (c : connection) : Prop :=
  match subscriptions_sport c with
  | Some sportName =>
      exists h, sportUpdateInterval c = Some h /\
                sport_timers c =
                [{| handle := h; period := 5000;
                    callback := sport_cycle toLowerCase sportName |}]
  | None => sport_timers c = []
  end.

Definition event_lane_settled (c : connection) : Prop :=
  match subscriptions_event c with
  | Some (sportName, eventId) =>
      exists h, eventUpdateInterval c = Some h /\
                event_timers c =
                [{| handle := h; period := 1000;
                    callback := event_cycle toLowerCase sportName eventId |}]
  | None => event_timers c = []
  end.

(** The state a sequential client keeps the connection in. *)
Record settled (c : connection) : Prop := {
  settled_lanes : lanes c;
  settled_suspended : suspended c = [];
  settled_sport : sport_lane_settled c;
  settled_event : event_lane_settled c
}.

End Host.

End Lane.

(** ** server.js: the user records *)

Module ActiveSession.
Import JS.
Record t := {
  sessionId : string;
  userAgent : value;
  ipAddress : value;
  createdAt : string
}.
End ActiveSession.

Module User.
Import JS.
Record t := {
  id : Z;
  username : value;
  password : string;
  plainPassword : value;
  activeSessions : list ActiveSession.t;
  createdAt : string
}.

(** [user.activeSessions.push(newSession)] *)
Definition push_session (s : ActiveSession.t) (u : t) : t :=
  {| id := id u; username := username u; password := password u;
     plainPassword := plainPassword u;
     activeSessions := activeSessions u ++ [s];
     createdAt := createdAt u |}.

(** [user.activeSessions = user.activeSessions.filter(keep)] *)
Definition filter_sessions (keep : ActiveSession.t -> bool) (u : t) : t :=
  {| id := id u; username := username u; password := password u;
     plainPassword := plainPassword u;
     activeSessions := List.filter keep (activeSessions u);
     createdAt := createdAt u |}.
End User.

(** ** server.js: authentication and user management *)

Module Users.
Import JS.

Definition MAX_DEVICES_PER_USER : nat := 2.

Definition builtin_eqb (a b : builtin) : bool :=
  match a, b with
  | BObjectPrototype, BObjectPrototype => true
  | BFunction n, BFunction m => String.eqb n m
  | _, _ => false
  end.

(** [a === b] between a stored value and one that arrives with a
    request: primitives are compared by value, and an object or array of
    the request body is a new one, equal to none that is stored. *)
Definition strict_equals (a b : value) : bool :=
  match a, b with
  | VUndefined, VUndefined | VNull, VNull => true
  | VBool x, VBool y => Bool.eqb x y
  | VNum x, VNum y => Z.eqb x y
  | VStr x, VStr y => String.eqb x y
  | VBuiltin x, VBuiltin y => builtin_eqb x y
  | _, _ => false
  end.

(** [array.findIndex(f)], with [None] for [-1]. *)
Fixpoint findIndex {A} (f : A -> bool) (l : list A) : option nat :=
  match l with
  | [] => None
  | x :: l' => if f x then Some O else option_map S (findIndex f l')
  end.

(** [s.split(sep)] for a separator of one character. *)
Fixpoint split (sep : ascii) (s : string) : list string :=
  match s with
  | EmptyString => [EmptyString]
  | String c s' =>
      if Ascii.eqb c sep then EmptyString :: split sep s'
      else match split sep s' with
           | piece :: pieces => String c piece :: pieces
           | [] => [String c EmptyString]
           end
  end.

(** [Math.max(...ids, 0)] *)
Definition max_id (ids : list Z) : Z := fold_right Z.max 0 ids.

(** [n + 1] as the sum of two doubles, for an integer [n] that is a
    double and not negative.  Below 2^53 the sum is exact.  From there
    on [n + 1] is no double and the sum is the nearest one: [n] itself,
    or, on a tie (below 2^54, where the doubles are the even integers),
    the neighbour whose significand is even. *)
Definition plus_one (n : Z) : Z :=
  if n <? 2 ^ 53 then n + 1
  else if n <? 2 ^ 54 then (if Z.even (n / 2) then n else n + 2)
  else n.

(** What a handler sends: [res.status(s).json({ success: false, message })],
    [res.json({ success: true, ... })] in its four shapes, or nothing at
    all when the promise of a handler without [try] is rejected. *)
Record row := {
  row_id : Z;
  row_username : value;
  row_plainPassword : value;
  row_activeSessions : nat;
  row_createdAt : string
}.

Inductive answer :=
| Refused (status : Z) (message : string)
| Succeeded (message : string)
| LoggedIn (token : string) (id : Z) (username : value)
| UserList (rows : list row)
| UserCreated (r : row)
| Unanswered.

(** What [authenticateToken] and [io.use] do with a request. *)
Inductive verdict :=
| Denied (status : Z) (message : string)
| Next (user : value).

Abbreviation users := (list User.t).

(** The outcomes, for one login, of the calls the handler makes outside
    the program: [generateRandomString(32)], [jwt.sign] (which throws
    without a secret), the request's headers and address, the clock and
    the write of the users file. *)
Record login_host := {
  new_sessionId : string;
  signed : option string;
  header_userAgent : value;
  req_ip : value;
  login_date : string;
  login_saved : bool
}.

Section Host.

(** [jwt.verify(token, secret)]: the decoded payload, or nothing for an
    error. *)
Variable verify : string -> option value.

(** [bcrypt.compare(password, hash)], or nothing when it rejects (as it
    does for a password that is not a string). *)
Variable compare : value -> string -> option bool.

(** [authHeader && authHeader.split(' ')[1]] and the test [!token]; a
    header of the request is a string, or missing. *)
Definition bearer (authHeader : option string) : option string :=
  match authHeader with
  | None => None
  | Some "" => None
  | Some h =>
      match nth_error (split " " h) 1 with
      | Some "" => None
      | other => other
      end
  end.

Definition authenticateToken (authHeader : option string) : verdict :=
  match bearer authHeader with
  | None => Denied 401 "Access token required"
  | Some token =>
      match verify token with
      | None => Denied 403 "Invalid or expired token"
      | Some user => Next user
      end
  end.

(** The [io.use] middleware: [socket.handshake.auth.token] is whatever
    the client sent; [jwt.verify] refuses what is not a string. *)
Definition io_use (token : value) : option value :=
  if negb (truthy token) then None
  else match token with
       | VStr s => verify s
       | _ => None
       end.

(** The handlers below are given as one request runs them from start to
    end, with the outcomes of the calls they await as arguments; what
    other requests do to [users] while a handler waits is not part of
    them.  The addition of a user, which reads [users] before it waits
    and writes it after, is also given in its two halves.

    [POST /api/auth/login].  The handler has no [try]: a rejected
    [bcrypt.compare] or [saveUsers], or a throwing [jwt.sign], leaves the
    request unanswered. *)
Definition login (body : value) (host : login_host) (us : users) : answer * users :=
  match (let! username := get body "username" in
         let! password := get body "password" in
         Normal (username, password)) with
  | Throw _ => (Unanswered, us)
  | Normal (username, password) =>
      match List.find (fun u => strict_equals (User.username u) username) us with
      | None => (Refused 401 "Invalid credentials", us)
      | Some user =>
          match compare password (User.password user) with
          | None => (Unanswered, us)
          | Some false => (Refused 401 "Invalid credentials", us)
          | Some true =>
              if (MAX_DEVICES_PER_USER <=? length (User.activeSessions user))%nat then
                (Refused 403 "Maximum number of active devices (2) reached", us)
              else
                match signed host with
                | None => (Unanswered, us)
                | Some token =>
                    match findIndex (fun u => (User.id u =? User.id user)%Z) us with
                    | None => (Unanswered, us)
                    | Some userIndex =>
                        let newSession :=
                          {| ActiveSession.sessionId := new_sessionId host;
                             ActiveSession.userAgent :=
                               or_else (header_userAgent host) (VStr "Unknown");
                             ActiveSession.ipAddress := req_ip host;
                             ActiveSession.createdAt := login_date host |} in
                        let us' := alter (User.push_session newSession) userIndex us in
                        if login_saved host then
                          (LoggedIn token (User.id user) (User.username user), us')
                        else (Unanswered, us')
                    end
                end
          end
      end
  end.

(** [POST /api/auth/logout], behind [authenticateToken]: [user] is the
    decoded payload that the middleware stored in [req.user]. *)
Definition logout (user : value) (saved : bool) (us : users) : answer * users :=
  match (let! sessionId := get user "sessionId" in
         let! id := get user "id" in
         Normal (sessionId, id)) with
  | Throw _ => (Unanswered, us)
  | Normal (sessionId, id) =>
      match findIndex (fun u => strict_equals (VNum (User.id u)) id) us with
      | None => (Refused 404 "User not found", us)
      | Some userIndex =>
          let keep (s : ActiveSession.t) :=
            negb (strict_equals (VStr (ActiveSession.sessionId s)) sessionId) in
          let us' := alter (User.filter_sessions keep) userIndex us in
          if saved then (Succeeded "Logged out successfully", us') else (Unanswered, us')
      end
  end.

Definition logout_route (authHeader : option string) (saved : bool) (us : users)
  : answer * users :=
  match authenticateToken authHeader with
  | Denied status message => (Refused status message, us)
  | Next user => logout user saved us
  end.

End Host.

Definition row_of (u : User.t) : row :=
  {| row_id := User.id u;
     row_username := User.username u;
     row_plainPassword := User.plainPassword u;
     row_activeSessions := length (User.activeSessions u);
     row_createdAt := User.createdAt u |}.

(** [GET /api/admin/users] *)
Definition list_users (us : users) : answer := UserList (map row_of us).

(** [POST /api/admin/users], up to [await bcrypt.genSalt(10)]: the
    handler has answered, or it has chosen the id of the new user and
    waits for the hash. *)
Inductive adding :=
| Answered (a : answer)
| Hashing (id : Z) (username password : value).

Definition add_user_start (body : value) (us : users) : adding :=
  match (let! username := get body "username" in
         let! password := get body "password" in
         Normal (username, password)) with
  | Throw _ => Answered (Refused 500 "Failed to add user")
  | Normal (username, password) =>
      match List.find (fun u => strict_equals (User.username u) username) us with
      | Some _ => Answered (Refused 400 "Username already exists")
      | None => Hashing (plus_one (max_id (map User.id us))) username password
      end
  end.

(** ... and from the hash on, on the users as they are by then.
    [hashed] is the outcome of [bcrypt.genSalt] and [bcrypt.hash], [date]
    the clock, [saved] whether the write of the users file succeeded. *)
Definition add_user_finish (id : Z) (username password : value)
    (hashed : option string) (date : string) (saved : bool) (us : users)
  : answer * users :=
  match hashed with
  | None => (Refused 500 "Failed to add user", us)
  | Some hashedPassword =>
      let newUser :=
        {| User.id := id; User.username := username;
           User.password := hashedPassword;
           User.plainPassword := password;
           User.activeSessions := [];
           User.createdAt := date |} in
      let us' := us ++ [newUser] in
      if saved then (UserCreated (row_of newUser), us')
      else (Refused 500 "Failed to add user", us')
  end.

(** The whole handler, for a request served without another one in
    between. *)
Definition add_user (body : value) (hashed : option string) (date : string)
    (saved : bool) (us : users) : answer * users :=
  match add_user_start body us with
  | Answered a => (a, us)
  | Hashing id username password =>
      add_user_finish id username password hashed date saved us
  end.

(** [DELETE /api/admin/users/:id].  [userId] is what [parseInt] made of
    the parameter, with [None] for [NaN]. *)
Definition delete_user (userId : option Z) (saved : bool) (us : users)
  : answer * users :=
  match findIndex (fun u => match userId with
                            | Some n => (User.id u =? n)%Z
                            | None => false
                            end) us with
  | None => (Refused 404 "User not found", us)
  | Some userIndex =>
      let us' := delete userIndex us in
      if saved then (Succeeded "User deleted successfully", us')
      else (Refused 500 "Failed to delete user", us')
  end.

(** [loadOrCreateUsers] when there is no users file: the administrator,
    then ten users with generated names and passwords; [generated i] is
    the name, password and hash drawn in round [i]. *)
Definition created_users (adminHash adminDate : string)
    (generated : nat -> string * string * string * string) : users :=
  {| User.id := 1; User.username := VStr "admin@infusion810";
     User.password := adminHash; User.plainPassword := VStr "Infusion@810";
     User.activeSessions := []; User.createdAt := adminDate |}
  :: map (fun i =>
            let '(username, password, hashedPassword, date) := generated i in
            {| User.id := Z.of_nat i + 2; User.username := VStr username;
               User.password := hashedPassword; User.plainPassword := VStr password;
               User.activeSessions := []; User.createdAt := date |})
         (seq 0 10).

(** The requests that change the users, with what the host answers to
    each. *)
Inductive operation :=
| Login (body : value) (host : login_host)
| Logout (user : value) (saved : bool)
| AddUser (body : value) (hashed : option string) (date : string) (saved : bool)
| DeleteUser (userId : option Z) (saved : bool).

Definition is_addition (r : operation) : bool :=
  match r with
  | AddUser _ _ _ _ => true
  | _ => false
  end.

Definition serve (compare : value -> string -> option bool) (us : users) (r : operation)
  : users :=
  match r with
  | Login body host => snd (login compare body host us)
  | Logout user saved => snd (logout user saved us)
  | AddUser body hashed date saved => snd (add_user body hashed date saved us)
  | DeleteUser userId saved => snd (delete_user userId saved us)
  end.

(** Values that [===] compares by what they are, not by where they
    were allocated. *)
Definition by_value (v : value) : bool :=
  match v with
  | VArr _ | VObj _ => false
  | _ => true
  end.

(** A word: a string without a space. *)
Fixpoint spaceless (s : string) : bool :=
  match s with
  | EmptyString => true
  | String c s' => negb (Ascii.eqb c " ") && spaceless s'
  end.

(** The session that a login with the answers [host] records. *)
Definition session_of (host : login_host) : ActiveSession.t :=
  {| ActiveSession.sessionId := new_sessionId host;
     ActiveSession.userAgent := or_else (header_userAgent host) (VStr "Unknown");
     ActiveSession.ipAddress := req_ip host;
     ActiveSession.createdAt := login_date host |}.

(** The same answers, with another outcome of the write of the file. *)
Definition with_saved (saved : bool) (host : login_host) : login_host :=
  {| new_sessionId := new_sessionId host; signed := signed host;
     header_userAgent := header_userAgent host; req_ip := req_ip host;
     login_date := login_date host; login_saved := saved |}.

(** Ids are unique and nobody holds more sessions than devices allowed. *)
Definition consistent (us : users) : Prop :=
  List.NoDup (map User.id us) /\
  Forall (fun u => (length (User.activeSessions u) <= MAX_DEVICES_PER_USER)%nat) us.

End Users.

(** ** Sample accounts *)

Module Accounts.
Import JS Users.

(** A stand-in for [bcrypt.compare]: the hash of [p] is ["#" ++ p]. *)
Definition compare (password : value) (hash : string) : option bool :=
  match password with
  | VStr p => Some (String.eqb ("#" +:+ p) hash)
  | _ => None
  end.

Definition ann : User.t :=
  {| User.id := 1; User.username := VStr "ann"; User.password := "#secret";
     User.plainPassword := VStr "secret"; User.activeSessions := [];
     User.createdAt := "2025-01-01T00:00:00.000Z" |}.

Definition bob : User.t :=
  {| User.id := 2; User.username := VStr "bob"; User.password := "#hunter2";
     User.plainPassword := VStr "hunter2"; User.activeSessions := [];
     User.createdAt := "2025-01-02T00:00:00.000Z" |}.

Definition credentials (username password : string) : value :=
  VObj [("username", VStr username); ("password", VStr password)].

Definition host : login_host :=
  {| new_sessionId := "s1"; signed := Some "t1";
     header_userAgent := VUndefined; req_ip := VStr "10.0.0.1";
     login_date := "2025-01-03T00:00:00.000Z"; login_saved := true |}.

(** A stand-in for [jwt.verify]: only the token ["t1"] is valid, and
    carries ann's first session. *)
Definition verify (token : string) : option value :=
  if String.eqb token "t1"
  then Some (VObj [("id", VNum 1); ("username", VStr "ann"); ("sessionId", VStr "s1")])
  else None.

Definition generated (i : nat) : string * string * string * string :=
  ("user" +:+ string_of_Z (Z.of_nat i), "pw", "#pw", "2025-01-01T00:00:00.000Z").

End Accounts.

(** ** server.js: generated names and passwords *)

Module Random.
Import JS.

(** [s.charAt(i)] *)
Definition charAt (s : string) (i : nat) : string :=
  match String.get i s with
  | Some c => String c EmptyString
  | None => EmptyString
  end.

Definition characters (includeUppercase : bool) : string :=
  "abcdefghijklmnopqrstuvwxyz0123456789" +:+
  (if includeUppercase then "ABCDEFGHIJKLMNOPQRSTUVWXYZ" else "").

(** [generateRandomString(length, includeUppercase)]; [draws i] is
    [Math.floor(Math.random() * characters.length)] in round [i] of the
    loop. *)
Definition generateRandomString (length : nat) (includeUppercase : bool)
    (draws : nat -> nat) : string :=
  fold_left (fun result i => result +:+ charAt (characters includeUppercase) (draws i))
            (seq 0 length) "".

Definition generateRandomUsername (draws : nat -> nat) : string :=
  "user" +:+ generateRandomString 5 false draws.

(** [generateRandomPassword()]; [n], [l] and [u] are the three
    [Math.floor(Math.random() * ...)] of the first lines, and [shuffle] is
    what [sort] does with the comparator [() => 0.5 - Math.random()]. *)
Definition generateRandomPassword (n l u : nat) (draws : nat -> nat)
    (shuffle : list ascii -> list ascii) : string :=
  let number := string_of_Z (Z.of_nat n) in
  let letter := charAt "abcdefghijklmnopqrstuvwxyz" l in
  let upperLetter := charAt "ABCDEFGHIJKLMNOPQRSTUVWXYZ" u in
  let remaining := generateRandomString 3 true draws in
  let combined := number +:+ letter +:+ upperLetter +:+ remaining in
  String.substring 0 6 (string_of_list_ascii (shuffle (list_ascii_of_string combined))).

(** The characters of a string. *)
Definition drawn_from (alphabet s : string) : Prop :=
  forall c, In c (list_ascii_of_string s) -> In c (list_ascii_of_string alphabet).

Definition contains_one_of (alphabet s : string) : Prop :=
  exists c, In c (list_ascii_of_string s) /\ In c (list_ascii_of_string alphabet).

End Random.

(** ** Vocabulary: payloads that differ in [runners] only *)

Module Akin.
Import JS Dict Transformer Spec.

(** The record [r0] is the record [r], or has no usable [runners] and
    reads like [r] at every other property. *)
Definition without_runners (r0 r : value) : Prop :=
  r0 = r \/
  (has_runners r0 = false /\ forall k, k <> "runners" -> get r0 k = get r k).

(** Matches, slots, competitions and tables that differ in the market
    lists only. *)
Definition same_match (m0 m : Match.t) : Prop :=
  Match.id m0 = Match.id m /\
  Match.name m0 = Match.name m /\
  Match.venue m0 = Match.venue m /\
  Match.startTime m0 = Match.startTime m /\
  Match.inPlay m0 = Match.inPlay m /\
  Match.sport m0 = Match.sport m /\
  Match.competitionId m0 = Match.competitionId m /\
  Match.competition m0 = Match.competition m.

Definition same_slot (s0 s : slot Match.t) : Prop :=
  match s0, s with
  | Own m0, Own m => same_match m0 m
  | Inherited b0, Inherited b => b0 = b
  | Absent, Absent => True
  | _, _ => False
  end.

Definition same_competition (c0 c : Competition.t (slot Match.t)) : Prop :=
  Competition.id c0 = Competition.id c /\
  Competition.name c0 = Competition.name c /\
  Forall2 same_slot (Competition.matches c0) (Competition.matches c).

Definition same_entry (p0 p : string * Match.t) : Prop :=
  fst p0 = fst p /\ same_match (snd p0) (snd p).

Definition same_tables (st0 st : tables) : Prop :=
  competitions st0 = competitions st /\
  Forall2 same_entry (matches st0) (matches st).

End Akin.

(** ** A collation for the samples *)

Module Collation.
Import JS.

(** The printable ASCII characters in the order of the root collation of
    CLDR, which the ICU of Node applies when [localeCompare] is called
    without a locale: the space, then punctuation and symbols (given
    below by character code, from the low line and the hyphen to the
    dollar sign), then the digits, then the letters.  The case of a
    letter counts only between strings that are equal otherwise, lower
    case first. *)
Definition symbols : list nat :=
  [32; 95; 45; 44; 59; 58; 33; 63; 46; 39; 34; 40; 41; 91; 93; 123; 125; 64; 42; 47;
   92; 38; 35; 37; 96; 94; 43; 60; 61; 62; 124; 126; 36]%nat.

Fixpoint index_of (n : nat) (l : list nat) : option nat :=
  match l with
  | [] => None
  | m :: l' => if Nat.eqb n m then Some O else option_map S (index_of n l')
  end.

Definition primary (c : ascii) : nat :=
  let n := nat_of_ascii c in
  match index_of n symbols with
  | Some i => i
  | None =>
      if (48 <=? n)%nat && (n <=? 57)%nat then (100 + (n - 48))%nat
      else if (97 <=? n)%nat && (n <=? 122)%nat then (200 + (n - 97))%nat
      else if (65 <=? n)%nat && (n <=? 90)%nat then (200 + (n - 65))%nat
      else (300 + n)%nat
  end.

Definition tertiary (c : ascii) : nat :=
  let n := nat_of_ascii c in
  if (65 <=? n)%nat && (n <=? 90)%nat then 1%nat else 0%nat.

(** Strings compared weight by weight, a prefix first. *)
Fixpoint compare_by (weight : ascii -> nat) (a b : string) : comparison :=
  match a, b with
  | EmptyString, EmptyString => Eq
  | EmptyString, String _ _ => Lt
  | String _ _, EmptyString => Gt
  | String x a', String y b' =>
      match Nat.compare (weight x) (weight y) with
      | Eq => compare_by weight a' b'
      | c => c
      end
  end.

Definition localeCompare (a b : string) : Z :=
  match
    match compare_by primary a b with
    | Eq => compare_by tertiary a b
    | c => c
    end
  with
  | Lt => -1
  | Eq => 0
  | Gt => 1
  end.


End Collation.

(** ** Further sample records *)

Module Examples.
Import JS.

(** A market with one runner that has no price ladders. *)
Definition priced : value :=
  VObj [("id", VStr "1.101"); ("name", VStr "Match Odds");
        ("event", VObj [("id", VStr "E1"); ("name", VStr "A v B")]);
        ("runners", VArr [VObj [("id", VNum 11); ("name", VStr "Home")]])].

(** A market whose name is a number. *)
Definition numbered : value :=
  VObj [("event", VObj [("id", VStr "E1")]); ("name", VNum 7); ("runners", VArr [])].

(** The payload [Sample.with_no_runners] with an empty [runners] array
    given to its first record. *)
Definition with_runners_restored : list value :=
  [VObj [("event", VObj [("id", VStr "E1")]);
         ("competition", VObj [("id", VStr "C1"); ("name", VStr "League")]);
         ("runners", VArr [])];
   Sample.record "E1" "Match Odds" (Some ("C1", "League"))].

End Examples.

(** * Properties *)

(** ** Reads and conversions *)

Module JSFacts.
Import JS Spec.

Lemma truthy_not_nullish v : truthy v = true -> nullish v = false.
Proof. destruct v; simpl; congruence. Qed.

Lemma get_field v k : nullish v = false -> get v k = Normal (field v k).
Proof.
  unfold field. destruct v; simpl; try discriminate; intros _; try reflexivity.
  - destruct (String.eqb k "sort"); reflexivity.
  - destruct (assoc k props); [reflexivity|].
    destruct (object_prototype k); reflexivity.
  - destruct b; [reflexivity|]. destruct (String.eqb k "name"); reflexivity.
Qed.

Lemma get_truthy v k : truthy v = true -> get v k = Normal (field v k).
Proof. intros H. apply get_field, truthy_not_nullish, H. Qed.

Lemma get_opt_normal v k : exists x, get_opt v k = Normal x.
Proof.
  unfold get_opt. destruct (nullish v) eqn:E; [eauto|].
  rewrite (get_field _ _ E). eauto.
Qed.

Lemma bind_normal {A B} (c : completion A) (k : A -> completion B) b :
  bind c k = Normal b -> exists a, c = Normal a /\ k a = Normal b.
Proof. destruct c; simpl; [eauto | discriminate]. Qed.

Ltac inv_bind H :=
  let a := fresh "v" in
  let Ha := fresh "E" in
  apply bind_normal in H; destruct H as (a & Ha & H).

End JSFacts.

(** ** Dictionaries *)

Module DictFacts.
Import JS Dict Transformer Spec JSFacts.

Lemma lookup_own {A} (o : Dict.t A) k a : assoc k o = Some a -> lookup o k = Own a.
Proof. unfold lookup. intros ->. reflexivity. Qed.

Lemma lookup_absent {A} (o : Dict.t A) k :
  lookup o k = Absent <-> assoc k o = None /\ object_prototype k = None.
Proof.
  unfold lookup. destruct (assoc k o); [split; [discriminate|intros [? _]; discriminate]|].
  destruct (object_prototype k); split; try discriminate; auto.
  intros [_ ?]; discriminate.
Qed.

Lemma missing_true {A} (o : Dict.t A) k :
  missing o k = true <-> assoc k o = None /\ object_prototype k = None.
Proof.
  rewrite <- lookup_absent. unfold missing.
  destruct (lookup o k); split; congruence.
Qed.

Lemma assoc_add {A} (o : Dict.t A) k a k' :
  assoc k' (add o k a) =
  match assoc k' o with
  | Some x => Some x
  | None => if String.eqb k' k then Some a else None
  end.
Proof.
  unfold add. induction o as [|[k0 a0] o IH]; simpl.
  - reflexivity.
  - destruct (String.eqb k' k0); [reflexivity|apply IH].
Qed.

Lemma assoc_update {A} (o : Dict.t A) k f k' :
  assoc k' (update k f o) =
  if String.eqb k k' then option_map f (assoc k' o) else assoc k' o.
Proof.
  induction o as [|[k0 a0] o IH]; simpl.
  - destruct (String.eqb k k'); reflexivity.
  - destruct (String.eqb k k0) eqn:E0; simpl.
    + apply String.eqb_eq in E0. subst k0.
      rewrite (String.eqb_sym k' k).
      destruct (String.eqb k k'); reflexivity.
    + destruct (String.eqb k' k0) eqn:E1.
      * apply String.eqb_eq in E1. subst k0. rewrite E0. reflexivity.
      * apply IH.
Qed.

Lemma keys_update {A} (o : Dict.t A) k f : map fst (update k f o) = map fst o.
Proof.
  induction o as [|[k0 a0] o IH]; simpl; [reflexivity|].
  destruct (String.eqb k k0); simpl; [reflexivity|]. f_equal. apply IH.
Qed.

Lemma keys_add {A} (o : Dict.t A) k a : map fst (add o k a) = map fst o ++ [k].
Proof. unfold add. rewrite map_app. reflexivity. Qed.

Lemma assoc_keys {A} (o : Dict.t A) k : assoc k o <> None <-> In k (map fst o).
Proof.
  induction o as [|[k0 a0] o IH]; simpl.
  - tauto.
  - destruct (String.eqb k k0) eqn:E.
    + apply String.eqb_eq in E. subst. split; [auto|discriminate].
    + apply String.eqb_neq in E. rewrite IH. split; [auto|].
      intros [?|?]; [congruence|assumption].
Qed.

Lemma existsb_keys k l : existsb (String.eqb k) l = true <-> In k l.
Proof.
  rewrite existsb_exists. split.
  - intros (x & Hx & E). apply String.eqb_eq in E. subst. assumption.
  - intros H. exists k. split; [assumption|apply String.eqb_refl].
Qed.

Lemma get_normal v k x : get v k = Normal x -> nullish v = false /\ field v k = x.
Proof.
  intros H. destruct (nullish v) eqn:N.
  - destruct v; simpl in *; discriminate.
  - split; [reflexivity|]. rewrite (get_field _ _ N) in H. congruence.
Qed.

Lemma get_opt_field v k x :
  get_opt v k = Normal x -> x = if nullish v then VUndefined else field v k.
Proof.
  unfold get_opt. destruct (nullish v) eqn:N; [congruence|].
  rewrite (get_field _ _ N). congruence.
Qed.

End DictFacts.

(** ** The transformer *)

Module TransformerFacts.
Import JS Dict Transformer Spec Akin JSFacts DictFacts.

Lemma transformMarket_normal market : exists o, transformMarket market = Normal o.
Proof.
  unfold transformMarket. destruct (truthy market) eqn:E; simpl; [|eauto].
  rewrite (get_truthy _ _ E). simpl.
  destruct (truthy (field market "runners")); simpl; [|eauto].
  destruct (transformMarket_body market); simpl; eauto.
Qed.

Lemma transformMarket_without_runners market :
  has_runners market = false -> transformMarket market = Normal None.
Proof.
  unfold has_runners, transformMarket. intros H.
  destruct (truthy market) eqn:E; simpl; [|reflexivity].
  rewrite (get_truthy _ _ E). simpl. rewrite H. reflexivity.
Qed.

Section Host.

Variable date_getTime : value -> completion value.
Variable localeCompare : string -> string -> Z.
Variable error_message : error -> string.

Local Abbreviation transformSportData :=
  (transformSportData date_getTime localeCompare error_message).
Local Abbreviation transformSportData_body :=
  (transformSportData_body date_getTime localeCompare).

Lemma transformSportData_normal now data sportName :
  exists r, transformSportData now data sportName = Normal r.
Proof.
  unfold Transformer.transformSportData.
  destruct (truthy data) eqn:E; simpl; [|eauto].
  rewrite (get_truthy _ _ E). simpl.
  destruct (truthy (field data "result")); simpl; [|eauto].
  destruct (transformSportData_body now data sportName); simpl; eauto.
Qed.

Lemma transformEventData_normal now data sportName :
  exists r, transformEventData date_getTime error_message now data sportName = Normal r.
Proof.
  unfold Transformer.transformEventData.
  destruct (truthy data) eqn:E; simpl; [|eauto].
  rewrite (get_truthy _ _ E). simpl.
  destruct (truthy (field data "result")); simpl; [|eauto].
  destruct (transformEventData_body date_getTime now data sportName); simpl; eauto.
Qed.

(** C7. [transformSportData] never raises: it returns on every input;
    it returns [{success:false, message:'Invalid data format', sport}]
    when the raw argument or its [result] field is absent (or falsy);
    and an exception raised while transforming is turned into
    [{success:false, message, sport}] carrying the exception's message. *)
Theorem transformSportData_never_raises now data sportName :
  (exists r, transformSportData now data sportName = Normal r) /\
  (truthy data = false \/ truthy (field data "result") = false ->
   transformSportData now data sportName =
   Normal (SportFailure "Invalid data format" sportName)) /\
  (forall e,
     truthy data = true -> truthy (field data "result") = true ->
     transformSportData_body now data sportName = Throw e ->
     transformSportData now data sportName =
     Normal (SportFailure
               ("Error transforming " +:+ sportName +:+ " data: " +:+ error_message e)
               sportName)).
Proof.
  split; [apply transformSportData_normal|].
  unfold Transformer.transformSportData. split.
  - intros [H|H].
    + rewrite H. reflexivity.
    + destruct (truthy data) eqn:E; simpl; [|reflexivity].
      rewrite (get_truthy _ _ E). simpl. rewrite H. reflexivity.
  - intros e E R B. rewrite E. simpl.
    rewrite (get_truthy _ _ E). simpl. rewrite R. simpl.
    rewrite B. reflexivity.
Qed.

End Host.

(** C7, witness: a [null] payload, and a payload whose [result] is a
    string, on which [forEach] is not a function. *)
Lemma transformSportData_never_raises_witness :
  Transformer.transformSportData Sample.date_getTime Sample.localeCompare
    Sample.error_message 0 VNull "cricket"
  = Normal (SportFailure "Invalid data format" "cricket") /\
  Transformer.transformSportData Sample.date_getTime Sample.localeCompare
    Sample.error_message 0 (VObj [("result", VStr "down")]) "cricket"
  = Normal (SportFailure "Error transforming cricket data: TypeError" "cricket").
Proof.
  split.
  - apply (proj1 (proj2 (transformSportData_never_raises
                           Sample.date_getTime Sample.localeCompare
                           Sample.error_message 0 VNull "cricket"))).
    left. reflexivity.
  - apply (proj2 (proj2 (transformSportData_never_raises
                           Sample.date_getTime Sample.localeCompare
                           Sample.error_message 0
                           (VObj [("result", VStr "down")]) "cricket"))
             (NotAFunction "forEach")); reflexivity.
Defined.

Section Events.

Variable date_getTime : value -> completion value.
Variable error_message : error -> string.

Local Abbreviation transformEventData := (transformEventData date_getTime error_message).

(** *** The market buckets of [transformEventData] *)

Lemma filter_items_In {X} (p : X -> completion bool) l r :
  filter_items p l = Normal r ->
  forall x, In x r <-> In x l /\ p x = Normal true.
Proof.
  revert r. induction l as [|y l IH]; simpl; intros r H x.
  - injection H as <-. simpl. tauto.
  - inv_bind H. inv_bind H. injection H as <-.
    rename v into b, v0 into r'. specialize (IH _ E0 x).
    destruct b; simpl; rewrite IH; split.
    + intros [->|[? ?]]; auto.
    + intros [[->|?] ?]; auto.
    + intros [? ?]; auto.
    + intros [[->|?] ?]; [congruence|auto].
Qed.

Lemma transformEventData_success now data sportName s e ms g t :
  transformEventData now data sportName = Normal (EventSuccess s e ms g t) ->
  groupMarkets ms = Normal g.
Proof.
  unfold Transformer.transformEventData. intros H.
  destruct (truthy data); simpl in H; [|discriminate].
  inv_bind H. destruct (truthy v); simpl in H; [|discriminate].
  destruct (transformEventData_body date_getTime now data sportName) eqn:B;
    simpl in H; [|discriminate].
  injection H as ->. unfold transformEventData_body in B.
  repeat inv_bind B. injection B as <- <- <- <- <-. assumption.
Qed.

Lemma strict_eq_str_true v s : strict_eq_str v s = true -> v = VStr s.
Proof.
  destruct v; simpl; try discriminate. intros H.
  apply String.eqb_eq in H. congruence.
Qed.

Lemma in_bucket_test ms g b m :
  groupMarkets ms = Normal g -> in_bucket g b m -> bucket_test b m.
Proof.
  unfold groupMarkets. intros H. repeat inv_bind H. injection H as <-.
  destruct b; simpl; intros Hin.
  - apply find_some in Hin. apply strict_eq_str_true, Hin.
  - apply find_some in Hin. apply strict_eq_str_true, Hin.
  - apply (filter_items_In _ _ _ E) in Hin. apply Hin.
  - apply (filter_items_In _ _ _ E0) in Hin. apply Hin.
  - apply (filter_items_In _ _ _ E1) in Hin. apply Hin.
  - apply (filter_items_In _ _ _ E2) in Hin. apply Hin.
Qed.

Lemma is_other_true m :
  is_other m = Normal true ->
  Market.name m <> VStr "Match Odds" /\ Market.name m <> VStr "Tied Match" /\
  name_includes (Market.name m) "Over/Under" = Normal false /\
  name_includes (Market.name m) "Set" = Normal false /\
  name_includes (Market.name m) "Game" = Normal false.
Proof.
  unfold is_other. intros H.
  destruct (strict_eq_str (Market.name m) "Match Odds") eqn:A; [discriminate|].
  destruct (strict_eq_str (Market.name m) "Tied Match") eqn:B; [discriminate|].
  inv_bind H. destruct v; [discriminate|].
  inv_bind H. destruct v; [discriminate|].
  inv_bind H. destruct v; [discriminate|].
  repeat split; try assumption.
  - intros N. rewrite N in A. discriminate.
  - intros N. rewrite N in B. discriminate.
Qed.

Lemma bucket_tests_agree b1 b2 m :
  bucket_test b1 m -> bucket_test b2 m ->
  b1 = b2 \/ (by_substring b1 = true /\ by_substring b2 = true).
Proof.
  destruct b1, b2; simpl; intros H1 H2;
    try (left; reflexivity); try (right; split; reflexivity);
    exfalso;
    try (apply is_other_true in H1; destruct H1 as (? & ? & ? & ? & ?));
    try (apply is_other_true in H2; destruct H2 as (? & ? & ? & ? & ?));
    try congruence;
    try (rewrite H1 in H2; simpl in H2; discriminate);
    try (rewrite H2 in H1; simpl in H1; discriminate).
Qed.

(** C2, as amended.  In a successful result of [transformEventData] a
    market lies in two different buckets only if both are substring
    buckets ([overUnderMarkets], [setMarkets], [gameMarkets]); a market
    named exactly "Tied Match" or "Match Odds" lies in none of
    [overUnderMarkets], [setMarkets], [gameMarkets], [otherMarkets]. *)
Theorem buckets_exclusive_up_to_substrings now data sportName s e ms g t :
  transformEventData now data sportName = Normal (EventSuccess s e ms g t) ->
  (forall m b1 b2,
     in_bucket g b1 m -> in_bucket g b2 m ->
     b1 = b2 \/ (by_substring b1 = true /\ by_substring b2 = true)) /\
  (forall m b,
     Market.name m = VStr "Tied Match" \/ Market.name m = VStr "Match Odds" ->
     In b [OverUnder; Sets; Games; Other] ->
     ~ in_bucket g b m).
Proof.
  intros H. apply transformEventData_success in H. split.
  - intros m b1 b2 H1 H2.
    apply (bucket_tests_agree b1 b2 m); eapply in_bucket_test; eassumption.
  - intros m b Hn Hb Hin.
    apply (in_bucket_test _ _ _ _ H) in Hin.
    simpl in Hb.
    destruct Hb as [<-|[<-|[<-|[<-|[]]]]]; simpl in Hin;
      try (apply is_other_true in Hin; destruct Hin as (? & ? & _));
      destruct Hn as [Hn|Hn]; try congruence;
      rewrite Hn in Hin; simpl in Hin; discriminate.
Qed.

End Events.

(** C2, witness: the payload with the single market "Set Game". *)
Lemma buckets_exclusive_up_to_substrings_witness :
  exists e ms g t,
    Transformer.transformEventData Sample.date_getTime Sample.error_message
      0 (Sample.payload Sample.set_game) "tennis"
    = Normal (EventSuccess "tennis" e ms g t) /\
    ((forall m b1 b2,
        in_bucket g b1 m -> in_bucket g b2 m ->
        b1 = b2 \/ (by_substring b1 = true /\ by_substring b2 = true)) /\
     (forall m b,
        Market.name m = VStr "Tied Match" \/ Market.name m = VStr "Match Odds" ->
        In b [OverUnder; Sets; Games; Other] ->
        ~ in_bucket g b m)).
Proof.
  eexists _, _, _, _. split; [reflexivity|].
  eapply (buckets_exclusive_up_to_substrings
            Sample.date_getTime Sample.error_message
            0 (Sample.payload Sample.set_game) "tennis").
  reflexivity.
Defined.

(** C2, counterexample: the market "Set Game" is both in [setMarkets]
    and in [gameMarkets]. *)
Lemma buckets_not_mutually_exclusive :
  exists e ms g t,
    Transformer.transformEventData Sample.date_getTime Sample.error_message
      0 (Sample.payload Sample.set_game) "tennis"
    = Normal (EventSuccess "tennis" e ms g t) /\
    ~ mutually_exclusive g.
Proof.
  eexists _, _, _, _. split; [reflexivity|].
  intros X.
  specialize (X _ Sets Games (or_introl eq_refl) (or_introl eq_refl)).
  discriminate.
Qed.

(** *** Scanning the market records *)

Lemma has_key_true k r : has_key k r = true <-> event_key r = Some k.
Proof.
  unfold has_key. destruct (event_key r) as [k'|]; [|split; discriminate].
  rewrite String.eqb_eq. split; congruence.
Qed.

Lemma has_key_false k r : has_key k r = false <-> event_key r <> Some k.
Proof.
  rewrite <- has_key_true. destruct (has_key k r); split; congruence.
Qed.

Lemma event_key_proper r k : event_key r = Some k -> object_prototype k = None.
Proof.
  unfold event_key. destruct (nullish r); [discriminate|].
  destruct (negb _); [discriminate|]. destruct (negb _); [discriminate|].
  destruct (to_string _); [|discriminate].
  destruct (object_prototype a) eqn:P; [discriminate|]. congruence.
Qed.

Lemma markets_of_app k l r :
  markets_of k (l ++ [r]) =
  markets_of k l ++
  (if has_key k r then
     match transformMarket r with
     | Normal (Some m) => [m]
     | _ => []
     end
   else []).
Proof. unfold markets_of. rewrite flat_map_app. simpl. rewrite app_nil_r. reflexivity. Qed.

Lemma markets_of_none k l :
  (forall r, In r l -> event_key r <> Some k) -> markets_of k l = [].
Proof.
  induction l as [|x l IH]; simpl; intros H; [reflexivity|].
  rewrite (proj2 (has_key_false k x)) by auto. simpl. auto.
Qed.

Lemma event_keys_app acc l r :
  event_keys acc (l ++ [r]) = event_keys (event_keys acc l) [r].
Proof.
  revert acc. induction l as [|x l IH]; simpl; intros acc; [reflexivity|].
  destruct (event_key x) as [k|]; [|apply IH].
  destruct (existsb (String.eqb k) acc); apply IH.
Qed.

Lemma event_keys_In acc l k :
  In k (event_keys acc l) <-> In k acc \/ exists r, In r l /\ event_key r = Some k.
Proof.
  revert acc. induction l as [|x l IH]; simpl; intros acc.
  - split; [auto|]. intros [?|(? & [] & _)]. assumption.
  - assert (G : (In k acc \/ exists r, In r l /\ event_key r = Some k) ->
                In k acc \/ exists r, (x = r \/ In r l) /\ event_key r = Some k).
    { intros [?|(r & ? & ?)]; [auto|]. right. exists r. auto. }
    destruct (event_key x) as [k'|] eqn:K.
    + destruct (existsb (String.eqb k') acc) eqn:X; rewrite IH.
      * split; [exact G|]. intros [?|(r & [<-|?] & Hr)]; [auto| |eauto].
        left. apply existsb_keys in X. congruence.
      * rewrite in_app_iff. simpl. split.
        -- intros [[?|[<-|[]]]|?]; [auto| |auto]. right. exists x. auto.
        -- intros [?|(r & [<-|?] & Hr)]; [auto| |eauto].
           left. right. left. congruence.
    + rewrite IH. split; [exact G|].
      intros [?|(r & [<-|?] & Hr)]; [auto|congruence|eauto].
Qed.

Lemma first_record_app k l r :
  first_record k (l ++ [r]) =
  match first_record k l with
  | Some x => Some x
  | None => if has_key k r then Some r else None
  end.
Proof.
  unfold first_record. induction l as [|x l IH]; simpl; [reflexivity|].
  destruct (has_key k x); [reflexivity|apply IH].
Qed.

Lemma first_record_none k l :
  first_record k l = None <-> forall r, In r l -> event_key r <> Some k.
Proof.
  unfold first_record. split.
  - intros H r Hr. apply has_key_false. exact (find_none _ _ H r Hr).
  - intros H. induction l as [|x l IH]; simpl; [reflexivity|].
    rewrite (proj2 (has_key_false k x)) by (apply H; left; reflexivity).
    apply IH. intros r Hr. apply H. right. assumption.
Qed.

Lemma first_record_key k l r : first_record k l = Some r -> In r l /\ event_key r = Some k.
Proof.
  unfold first_record. intros H. apply find_some in H as [? ?].
  split; [assumption|]. apply has_key_true. assumption.
Qed.

Lemma listing_add comps ck c0 :
  Competition.matches c0 = [] -> listing (add comps ck c0) = listing comps.
Proof.
  intros H. unfold listing, add. rewrite flat_map_app. simpl. rewrite H. simpl.
  apply app_nil_r.
Qed.

Lemma listing_update comps ck c e :
  assoc ck comps = Some c ->
  Permutation (listing (update ck (Competition.push e) comps)) (key_of e :: listing comps).
Proof.
  unfold listing. revert c. induction comps as [|[k0 c0] comps IH]; simpl; intros c H.
  - discriminate.
  - destruct (String.eqb ck k0) eqn:E.
    + simpl. rewrite map_app. simpl.
      rewrite <- app_assoc. simpl.
      symmetry. apply Permutation_middle.
    + simpl.
      rewrite (IH _ H). rewrite <- Permutation_middle. reflexivity.
Qed.


Lemma occurrences_app k l1 l2 :
  occurrences k (l1 ++ l2) = (occurrences k l1 + occurrences k l2)%nat.
Proof. unfold occurrences. rewrite List.filter_app, length_app. reflexivity. Qed.

Lemma occurrences_absent k l : ~ In (Some k) l -> occurrences k l = 0%nat.
Proof.
  unfold occurrences. induction l as [|e l IH]; simpl; intros H; [reflexivity|].
  destruct e as [k'|].
  - destruct (String.eqb k k') eqn:E.
    + apply String.eqb_eq in E. subst. exfalso. apply H. auto.
    + apply IH. intros I. apply H. auto.
  - apply IH. intros I. apply H. auto.
Qed.

Lemma occurrences_once k l :
  List.NoDup l -> In (Some k) l -> occurrences k l = 1%nat.
Proof.
  induction 1 as [|e l N D IH]; simpl; intros I; [contradiction|].
  change (occurrences k (e :: l)) with (occurrences k ([e] ++ l)).
  rewrite occurrences_app. destruct I as [->|I].
  - rewrite (occurrences_absent _ _ N). unfold occurrences. simpl.
    rewrite String.eqb_refl. reflexivity.
  - rewrite (IH I). unfold occurrences. simpl. destruct e as [k'|]; [|reflexivity].
    destruct (String.eqb k k') eqn:E; [|reflexivity].
    apply String.eqb_eq in E. subst. contradiction.
Qed.

Lemma occurrences_at_most_once k l : List.NoDup l -> (occurrences k l <= 1)%nat.
Proof.
  intros D. destruct (in_dec (fun x y : option string => decide (x = y)) (Some k) l) as [I|I].
  - rewrite (occurrences_once _ _ D I). lia.
  - rewrite (occurrences_absent _ _ I). lia.
Qed.

Lemma list_sum_perm {X} (f : X -> nat) l l' :
  Permutation l l' -> list_sum (map f l) = list_sum (map f l').
Proof. induction 1; simpl; lia. Qed.

Lemma occurrences_listing k comps :
  occurrences k (listing comps) =
  list_sum (map (fun c => occurrences k (map key_of (Competition.matches c)))
                (map snd comps)).
Proof.
  unfold listing. induction comps as [|[ck c] comps IH]; simpl; [reflexivity|].
  rewrite occurrences_app, IH. reflexivity.
Qed.

Lemma insert_index_perm {A} n (a : A) l :
  Permutation (map snd (insert_index n a l)) (a :: map snd l).
Proof.
  induction l as [|[n' a'] l IH]; simpl; [reflexivity|].
  destruct (n <? n')%N; simpl; [reflexivity|].
  rewrite IH. apply perm_swap.
Qed.

Lemma values_perm {A} (o : Dict.t A) : Permutation (values o) (map snd o).
Proof.
  unfold values. induction o as [|[k a] o IH]; simpl; [reflexivity|].
  destruct (split_keys o) as [ix named].
  destruct (array_index k); simpl.
  - rewrite insert_index_perm. simpl. constructor. exact IH.
  - rewrite <- Permutation_middle. constructor. exact IH.
Qed.

Lemma insert_sorted_perm {X} (cmp : X -> X -> completion Z) a l r :
  insert_sorted cmp a l = Normal r -> Permutation r (a :: l).
Proof.
  revert r. induction l as [|b l IH]; simpl; intros r H.
  - injection H as <-. reflexivity.
  - inv_bind H. destruct (v <? 0)%Z.
    + injection H as <-. reflexivity.
    + inv_bind H. injection H as <-. rewrite (IH _ E0). apply perm_swap.
Qed.

Lemma sort_into_perm {X} (cmp : X -> X -> completion Z) placed l r :
  sort_into cmp placed l = Normal r -> Permutation r (placed ++ l).
Proof.
  revert placed r. induction l as [|a l IH]; simpl; intros placed r H.
  - injection H as <-. rewrite app_nil_r. reflexivity.
  - inv_bind H. rewrite (IH _ _ H), (insert_sorted_perm _ _ _ _ E).
    apply Permutation_middle.
Qed.

Lemma array_sort_perm {X} (cmp : X -> X -> completion Z) l r :
  array_sort cmp l = Normal r -> Permutation r l.
Proof. intros H. apply sort_into_perm in H. exact H. Qed.

Lemma map_list_Forall2 {X Y} (f : X -> completion Y) l r :
  map_list f l = Normal r -> Forall2 (fun x y => f x = Normal y) l r.
Proof.
  revert r. induction l as [|x l IH]; simpl; intros r H.
  - injection H as <-. constructor.
  - inv_bind H. inv_bind H. injection H as <-. constructor; auto.
Qed.

Lemma map_items_Forall2 {Y} (f : value -> completion Y) l r :
  map_items f l = Normal r -> Forall2 (fun x y => f x = Normal y) l r.
Proof.
  revert r. induction l as [|x l IH]; simpl; intros r H.
  - injection H as <-. constructor.
  - inv_bind H. inv_bind H. injection H as <-. constructor; auto.
Qed.

Section Scan.

Variable date_getTime : value -> completion value.
Variable localeCompare : string -> string -> Z.
Variable error_message : error -> string.

Local Abbreviation transformSportData :=
  (transformSportData date_getTime localeCompare error_message).


Lemma scan_market_spec sportName st r st' :
  (forall k x, assoc k (matches st) = Some x -> object_prototype k = None) ->
  scan_market date_getTime sportName st r = Normal st' ->
  exists comps1,
    (comps1 = competitions st \/
     exists ck c0, lookup (competitions st) ck = Absent /\ Competition.matches c0 = [] /\
                   comps1 = add (competitions st) ck c0) /\
    match event_key r with
    | None => st' = {| matches := matches st; competitions := comps1 |}
    | Some k =>
        exists eventId matches1 comps2,
          to_string eventId = Normal k /\
          ( (exists x, assoc k (matches st) = Some x) /\ matches1 = matches st /\ comps2 = comps1
            \/
            assoc k (matches st) = None /\
            (exists m0, Match.id m0 = eventId /\ Match.markets m0 = [] /\
                        Match.competitionId m0 = competition_id r /\
                        Match.competition m0 = competition_name r /\
                        matches1 = add (matches st) k m0) /\
            ( (exists ck c, truthy (competition_id r) = true /\
                            to_string (competition_id r) = Normal ck /\
                            assoc ck comps1 = Some c /\
                            comps2 = update ck (Competition.push eventId) comps1)
              \/ (comps2 = comps1 /\ has_competition r = false)) ) /\
          exists o, transformMarket r = Normal o /\
            st' = {| matches := match o with
                                | Some m => update k (Match.push_market m) matches1
                                | None => matches1
                                end;
                     competitions := comps2 |}
    end.
Proof.
  intros Hproper H. unfold scan_market in H.
  inv_bind H. rename v into event.
  apply get_normal in E as [Nr Fe].
  unfold event_key. rewrite Nr, Fe.
  destruct (truthy event) eqn:Te; cbn [negb] in H |- *.
  2:{ injection H as <-. exists (competitions st). split; [auto|]. destruct st; reflexivity. }
  inv_bind H. rename v into eventId.
  apply get_normal in E as [_ Fi]. rewrite Fi.
  destruct (truthy eventId) eqn:Ti; cbn [negb] in H |- *.
  2:{ injection H as <-. exists (competitions st). split; [auto|]. destruct st; reflexivity. }
  inv_bind H. rename v into competition. apply get_normal in E as [_ Fc].
  inv_bind H. rename v into competitionId. apply get_opt_field in E.
  inv_bind H. rename v into competitionName. apply get_opt_field in E0.
  rewrite <- Fc in E, E0.
  change (competitionId = competition_id r) in E.
  change (competitionName = competition_name r) in E0.
  subst competitionId competitionName. clear Fc competition.
  inv_bind H. rename v into comps1, E into Hc1.
  inv_bind H. rename v into ek, E into Hek. rewrite Hek.
  inv_bind H. rename v into st1, E into Hst1.
  inv_bind H. rename v into o, E into Ho.
  assert (C1 : (comps1 = competitions st \/
     exists ck c0, lookup (competitions st) ck = Absent /\ Competition.matches c0 = [] /\
                   comps1 = add (competitions st) ck c0) /\
     (has_competition r = true ->
      exists ck, to_string (competition_id r) = Normal ck /\ lookup comps1 ck <> Absent)).
  { fold (has_competition r) in Hc1. destruct (has_competition r) eqn:HC.
    - inv_bind Hc1. rename v into ck.
      destruct (missing (competitions st) ck) eqn:M; injection Hc1 as <-.
      + split.
        * right. eexists _, _. split; [|split; [|reflexivity]]; [|reflexivity].
          unfold missing in M. destruct (lookup (competitions st) ck); congruence.
        * intros _. exists ck. split; [assumption|].
          apply missing_true in M as [M1 M2].
          rewrite lookup_absent, assoc_add, M1, String.eqb_refl. intros [? _]. discriminate.
      + split; [auto|]. intros _. exists ck. split; [assumption|].
        unfold missing in M. destruct (lookup (competitions st) ck); congruence.
    - injection Hc1 as <-. split; [auto|discriminate]. }
  destruct C1 as [C1 C1'].
  exists comps1. split; [exact C1|]. clear Hc1 C1.
  destruct (object_prototype ek) eqn:P.
  - (* an inherited key: no match is created *)
    assert (M : missing (matches st) ek = false).
    { unfold missing, lookup. destruct (assoc ek (matches st)); [reflexivity|].
      rewrite P. reflexivity. }
    rewrite M in Hst1. injection Hst1 as <-. cbn [matches competitions] in H.
    destruct o as [m|]; [|congruence].
    unfold lookup in H. destruct (assoc ek (matches st)) eqn:A.
    + apply Hproper in A. congruence.
    + rewrite P in H. discriminate.
  - exists eventId.
    destruct (missing (matches st) ek) eqn:M.
    + apply missing_true in M as [M _].
      repeat inv_bind Hst1.
      set (m0 := {| Match.id := eventId; Match.name := v; Match.venue := v0;
                    Match.startTime := v2; Match.inPlay := or_else v3 (VBool false);
                    Match.sport := sportName; Match.competitionId := competition_id r;
                    Match.competition := competition_name r; Match.markets := [] |}) in *.
      assert (R : exists comps2, st1 = {| matches := add (matches st) ek m0; competitions := comps2 |} /\
         ((exists ck c, truthy (competition_id r) = true /\
                            to_string (competition_id r) = Normal ck /\
                            assoc ck comps1 = Some c /\
                            comps2 = update ck (Competition.push eventId) comps1)
              \/ (comps2 = comps1 /\ has_competition r = false))).
      { destruct (truthy (competition_id r)) eqn:Tc.
        - inv_bind Hst1. rename v4 into ck.
          unfold lookup in Hst1. destruct (assoc ck comps1) as [c|] eqn:A.
          + injection Hst1 as <-. eexists. split; [reflexivity|].
            left. exists ck, c. auto.
          + destruct (object_prototype ck) eqn:Pc; [discriminate|].
            injection Hst1 as <-. eexists. split; [reflexivity|]. right.
            split; [reflexivity|].
            destruct (has_competition r) eqn:HC; [|reflexivity].
            destruct (C1' eq_refl) as (ck' & Hck & Hl).
            assert (ck' = ck) by congruence. subst ck'.
            exfalso. apply Hl. apply lookup_absent. auto.
        - injection Hst1 as <-. eexists. split; [reflexivity|]. right.
          split; [reflexivity|]. unfold has_competition. rewrite Tc. reflexivity. }
      destruct R as (comps2 & -> & R). cbn [matches competitions] in H.
      exists (add (matches st) ek m0), comps2. split; [exact Hek|]. split.
      * right. split; [assumption|]. split; [|exact R].
        exists m0. repeat split; reflexivity.
      * exists o. split; [assumption|].
        destruct o as [m|]; [|congruence].
        unfold lookup in H. rewrite assoc_add, M, String.eqb_refl in H.
        congruence.
    + injection Hst1 as <-. cbn [matches competitions] in H.
      assert (A : exists x, assoc ek (matches st) = Some x).
      { unfold missing, lookup in M. destruct (assoc ek (matches st)); [eauto|].
        rewrite P in M. discriminate. }
      exists (matches st), comps1. split; [exact Hek|]. split; [left; auto|].
      exists o. split; [assumption|].
      destruct o as [m|]; [|congruence].
      destruct A as (x & A). unfold lookup in H. rewrite A in H. congruence.
Qed.



Lemma scanned_nothing : scanned [] no_tables.
Proof.
  split; simpl; try discriminate; try reflexivity; try tauto.
  constructor.
Qed.

Lemma scanned_proper seen st k x :
  scanned seen st -> assoc k (matches st) = Some x -> object_prototype k = None.
Proof.
  intros S A.
  assert (I : In k (map fst (matches st))) by (apply assoc_keys; congruence).
  rewrite (scanned_keys _ _ S) in I. apply event_keys_In in I as [[]|(r & _ & K)].
  exact (event_key_proper _ _ K).
Qed.

Lemma scanned_seen seen st k :
  scanned seen st ->
  (assoc k (matches st) <> None <-> exists r, In r seen /\ event_key r = Some k).
Proof.
  intros S. rewrite assoc_keys, (scanned_keys _ _ S), event_keys_In. simpl. tauto.
Qed.

Lemma scanned_step sportName seen st r st' :
  scanned seen st ->
  scan_market date_getTime sportName st r = Normal st' ->
  scanned (seen ++ [r]) st'.
Proof.
  intros S H.
  apply scan_market_spec in H; [|intros k x; apply (scanned_proper _ _ _ _ S)].
  destruct H as (comps1 & C1 & H).
  assert (L1 : listing comps1 = listing (competitions st)).
  { destruct C1 as [->|(ck & c0 & _ & Hc0 & ->)]; [reflexivity|].
    apply listing_add, Hc0. }
  destruct (event_key r) as [k0|] eqn:K.
  - destruct H as (eventId & matches1 & comps2 & Hk0 & Hm & o & Ho & ->).
    destruct Hm as [((x & A) & -> & ->)|(A & (m0 & Hid & Hmk & _ & _ & ->) & Hc)].
    + (* the match exists already *)
      assert (K0 : In k0 (event_keys [] seen)).
      { rewrite <- (scanned_keys _ _ S). apply assoc_keys. congruence. }
      split; cbn [matches competitions].
      * intros k m Hm. rewrite markets_of_app.
        destruct o as [mk|].
        -- rewrite assoc_update in Hm. destruct (String.eqb k0 k) eqn:E.
           ++ apply String.eqb_eq in E. subst k. rewrite A in Hm.
              injection Hm as <-. simpl.
              destruct (scanned_markets _ _ S _ _ A) as [I M].
              split; [exact I|].
              rewrite (proj2 (has_key_true k0 r) K), Ho, M. reflexivity.
           ++ destruct (scanned_markets _ _ S _ _ Hm) as [I M].
              split; [exact I|].
              rewrite (proj2 (has_key_false k r)), app_nil_r; [exact M|].
              apply String.eqb_neq in E. congruence.
        -- destruct (scanned_markets _ _ S _ _ Hm) as [I M].
           split; [exact I|]. rewrite Ho.
           destruct (has_key k r); rewrite app_nil_r; exact M.
      * rewrite event_keys_app. simpl. rewrite K.
        rewrite (proj2 (existsb_keys _ _) K0).
        destruct o; [rewrite keys_update|]; apply (scanned_keys _ _ S).
      * rewrite L1. intros e He.
        destruct (scanned_listed _ _ S e He) as (k & -> & Hk).
        exists k. split; [reflexivity|]. destruct o; [rewrite keys_update|]; exact Hk.
      * rewrite L1. apply (scanned_once _ _ S).
      * rewrite L1. intros k r'. rewrite first_record_app.
        destruct (first_record k seen) as [x'|] eqn:F.
        -- intros [= <-]. apply (scanned_first _ _ S _ _ F).
        -- destruct (has_key k r) eqn:HK; [|discriminate].
           apply has_key_true in HK. assert (k = k0) by congruence. subst k.
           exfalso. apply event_keys_In in K0 as [[]|(r0 & I0 & K0)].
           exact (proj1 (first_record_none _ _) F r0 I0 K0).
    + (* the match is created *)
      assert (K0 : ~ In k0 (event_keys [] seen)).
      { rewrite <- (scanned_keys _ _ S), <- assoc_keys. congruence. }
      assert (N0 : forall r0, In r0 seen -> event_key r0 <> Some k0).
      { intros r0 I0 E0. apply K0, event_keys_In. right. eauto. }
      assert (X0 : ~ In (Some k0) (listing (competitions st))).
      { intros I. destruct (scanned_listed _ _ S _ I) as (k & [= <-] & Hk).
        rewrite (scanned_keys _ _ S) in Hk. contradiction. }
      assert (KE : key_of eventId = Some k0).
      { unfold key_of. rewrite Hk0. reflexivity. }
      assert (L2 : forall e, In e (listing comps2) ->
                             e = Some k0 \/ In e (listing (competitions st))).
      { intros e He. destruct Hc as [(ck & c & _ & _ & Ac & ->)|[-> _]].
        - apply (Permutation_in _ (listing_update _ _ _ eventId Ac)) in He.
          rewrite KE, L1 in He. destruct He; auto.
        - rewrite L1 in He. auto. }
      split; cbn [matches competitions].
      * intros k m Hm. rewrite markets_of_app.
        assert (Hm' : (k = k0 /\ exists m', m = match o with
                                       | Some mk => Match.push_market mk m'
                                       | None => m'
                                       end /\ Match.id m' = eventId /\ Match.markets m' = []) \/
                      (k <> k0 /\ assoc k (matches st) = Some m)).
        { destruct (String.eqb k0 k) eqn:E.
          - apply String.eqb_eq in E. subst k. left. split; [reflexivity|].
            exists m0. destruct o as [mk|].
            + rewrite assoc_update, String.eqb_refl, assoc_add, A, String.eqb_refl in Hm.
              simpl in Hm. injection Hm as <-. auto.
            + rewrite assoc_add, A, String.eqb_refl in Hm. injection Hm as <-. auto.
          - right. split; [apply String.eqb_neq in E; congruence|].
            destruct o as [mk|].
            + rewrite assoc_update, E, assoc_add in Hm.
              rewrite String.eqb_sym, E in Hm. destruct (assoc k (matches st)); congruence.
            + rewrite assoc_add in Hm.
              rewrite String.eqb_sym, E in Hm. destruct (assoc k (matches st)); congruence. }
        destruct Hm' as [(-> & m' & -> & Hi & Hmm)|(Hne & Hm')].
        -- rewrite (markets_of_none _ _ N0), (proj2 (has_key_true k0 r) K), Ho.
           destruct o; simpl; rewrite ?Hi, ?Hmm; auto.
        -- destruct (scanned_markets _ _ S _ _ Hm') as [I M].
           split; [exact I|].
           rewrite (proj2 (has_key_false k r)), app_nil_r; [exact M|]. congruence.
      * rewrite event_keys_app. simpl. rewrite K.
        destruct (existsb (String.eqb k0) (event_keys [] seen)) eqn:X.
        { apply existsb_keys in X. contradiction. }
        destruct o; [rewrite keys_update|]; rewrite keys_add, (scanned_keys _ _ S);
          reflexivity.
      * intros e He. apply L2 in He.
        assert (G : exists k, e = Some k /\ In k (map fst (add (matches st) k0 m0))).
        { rewrite keys_add. destruct He as [->|He].
          - exists k0. split; [reflexivity|]. apply in_app_iff. simpl. auto.
          - destruct (scanned_listed _ _ S e He) as (k & -> & Hk).
            exists k. split; [reflexivity|]. apply in_app_iff. auto. }
        destruct o; [rewrite keys_update|]; exact G.
      * destruct Hc as [(ck & c & _ & _ & Ac & ->)|[-> _]].
        -- apply (Permutation_NoDup (Permutation_sym (listing_update _ _ _ eventId Ac))).
           rewrite KE, L1. constructor; [exact X0|apply (scanned_once _ _ S)].
        -- rewrite L1. apply (scanned_once _ _ S).
      * intros k r'. rewrite first_record_app.
        destruct (first_record k seen) as [x'|] eqn:F.
        -- intros [= <-].
           destruct (first_record_key _ _ _ F) as [I' K'].
           assert (k <> k0) by (intros ->; exact (N0 _ I' K')).
           destruct (scanned_first _ _ S _ _ F) as [G1 G2]. split.
           ++ intros HC. specialize (G1 HC).
              destruct Hc as [(ck & c & _ & _ & Ac & ->)|[-> _]].
              ** apply (Permutation_in _ (Permutation_sym (listing_update _ _ _ eventId Ac))).
                 right. rewrite L1. exact G1.
              ** rewrite L1. exact G1.
           ++ intros HC I. apply L2 in I as [I|I]; [congruence|].
              exact (G2 HC I).
        -- destruct (has_key k r) eqn:HK; [|discriminate].
           apply has_key_true in HK. assert (k = k0) by congruence. subst k.
           intros [= <-]. split.
           ++ intros HC. destruct Hc as [(ck & c & _ & _ & Ac & ->)|[_ HC']]; [|congruence].
              apply (Permutation_in _ (Permutation_sym (listing_update _ _ _ eventId Ac))).
              left. exact KE.
           ++ intros HC I.
              destruct Hc as [(ck & c & T & _)|[-> _]]; [congruence|].
              rewrite L1 in I. contradiction.
  - subst st'. split; cbn [matches competitions]; rewrite ?L1.
    + intros k m Hm. destruct (scanned_markets _ _ S _ _ Hm) as [I M].
      split; [exact I|]. rewrite markets_of_app.
      rewrite (proj2 (has_key_false k r)), app_nil_r; [exact M|]. congruence.
    + rewrite event_keys_app. simpl. rewrite K. apply (scanned_keys _ _ S).
    + apply (scanned_listed _ _ S).
    + apply (scanned_once _ _ S).
    + intros k r'. rewrite first_record_app.
      rewrite (proj2 (has_key_false k r)) by congruence.
      destruct (first_record k seen) eqn:F; [|discriminate].
      intros [= <-]. apply (scanned_first _ _ S _ _ F).
Qed.


Lemma scanned_for_each sportName items seen st st' :
  scanned seen st ->
  for_each (scan_market date_getTime sportName) st items = Normal st' ->
  scanned (seen ++ items) st'.
Proof.
  revert seen st. induction items as [|r items IH]; simpl; intros seen st S H.
  - injection H as <-. rewrite app_nil_r. exact S.
  - inv_bind H. replace (seen ++ r :: items) with ((seen ++ [r]) ++ items)
      by (rewrite <- app_assoc; reflexivity).
    eapply IH; [|exact H]. eapply scanned_step; eassumption.
Qed.

Lemma transformSportData_success now data sportName s cs n t :
  transformSportData now data sportName = Normal (SportSuccess s cs n t) ->
  exists items st competitionsArray,
    field data "result" = VArr items /\
    scanned items st /\
    map_list (resolve_competition (matches st)) (values (competitions st))
    = Normal competitionsArray /\
    array_sort (compare_names localeCompare) competitionsArray = Normal cs /\
    n = Dict.size (matches st).
Proof.
  unfold Transformer.transformSportData. intros H.
  destruct (truthy data) eqn:T; simpl in H; [|discriminate].
  inv_bind H. apply get_normal in E as [_ F].
  destruct (truthy v); simpl in H; [|discriminate].
  destruct (transformSportData_body _ _ now data sportName) eqn:B;
    simpl in H; [|discriminate].
  injection H as ->. unfold transformSportData_body in B.
  inv_bind B. apply get_normal in E as [_ F']. rewrite F in F'. subst v0.
  inv_bind B. rename v0 into st.
  inv_bind B. inv_bind B. injection B as <- <- <- <-.
  destruct v; simpl in E; try discriminate.
  exists items, st, v0.
  split; [exact F|]. split; [|auto].
  exact (scanned_for_each _ _ [] _ _ scanned_nothing E).
Qed.

(** The slots of a resolved competition hold the keys it listed. *)
Lemma resolved_occurrences seen st c c' k :
  scanned seen st ->
  (forall e, In e (map key_of (Competition.matches c)) -> In e (listing (competitions st))) ->
  resolve_competition (matches st) c = Normal c' ->
  length (List.filter (holdsb k) (Competition.matches c')) =
  occurrences k (map key_of (Competition.matches c)).
Proof.
  intros S Hin H. unfold resolve_competition in H. inv_bind H. injection H as <-.
  simpl. apply map_items_Forall2 in E.
  revert Hin. induction E as [|e sl es sls He _ IH]; intros Hin; [reflexivity|].
  simpl in Hin. specialize (IH (fun e I => Hin e (or_intror I))).
  apply bind_normal in He as (ke & Ek & He). injection He as <-.
  destruct (scanned_listed _ _ S (key_of e) (Hin _ (or_introl eq_refl))) as (k' & Hk' & I).
  unfold key_of in Hk'. rewrite Ek in Hk'. injection Hk' as <-.
  apply assoc_keys in I. destruct (assoc ke (matches st)) as [m|] eqn:A; [|congruence].
  destruct (scanned_markets _ _ S _ _ A) as [Hid _].
  unfold occurrences in *. simpl. unfold key_of at 1. rewrite Ek.
  rewrite (lookup_own _ _ _ A). simpl. rewrite Hid.
  destruct (String.eqb k ke); simpl; rewrite IH; reflexivity.
Qed.

Lemma listed_occurrences seen st cs0 k :
  scanned seen st ->
  forall comps,
  (forall c, In c comps -> In c (map snd (competitions st))) ->
  map_list (resolve_competition (matches st)) comps = Normal cs0 ->
  listed k cs0 =
  list_sum (map (fun c => occurrences k (map key_of (Competition.matches c))) comps).
Proof.
  intros S comps. revert cs0. induction comps as [|c comps IH]; simpl; intros cs0 Hin H.
  - injection H as <-. reflexivity.
  - inv_bind H. inv_bind H. injection H as <-. unfold listed in *. simpl.
    rewrite (IH _ (fun c I => Hin c (or_intror I)) E0). f_equal.
    eapply resolved_occurrences; [exact S| |exact E].
    intros e He. unfold listing. apply in_flat_map.
    specialize (Hin c (or_introl eq_refl)). apply in_map_iff in Hin as ([ck c0] & <- & I).
    exists (ck, c0). auto.
Qed.

Lemma listed_in_result now data sportName s cs n t :
  transformSportData now data sportName = Normal (SportSuccess s cs n t) ->
  exists items st,
    field data "result" = VArr items /\ scanned items st /\
    n = length (event_keys [] items) /\
    forall k, listed k cs = occurrences k (listing (competitions st)).
Proof.
  intros H. apply transformSportData_success in H
    as (items & st & cs0 & F & S & R & Hs & ->).
  exists items, st. split; [exact F|]. split; [exact S|]. split.
  - unfold Dict.size. rewrite <- (scanned_keys _ _ S), length_map. reflexivity.
  - intros k. apply array_sort_perm in Hs.
    unfold listed. rewrite (list_sum_perm _ _ _ Hs).
    change (listed k cs0 = occurrences k (listing (competitions st))).
    rewrite (listed_occurrences _ _ _ k S _ (fun c I => Permutation_in _ (values_perm _) I) R).
    rewrite occurrences_listing. apply list_sum_perm, values_perm.
Qed.


Lemma lookup_own_inv {A} (o : Dict.t A) k a : lookup o k = Own a -> assoc k o = Some a.
Proof.
  unfold lookup. destruct (assoc k o); [congruence|].
  destruct (object_prototype k); discriminate.
Qed.

Lemma markets_of_with_runners k items :
  markets_of k items = markets_of k (List.filter has_runners items).
Proof.
  unfold markets_of. induction items as [|r items IH]; simpl; [reflexivity|].
  destruct (has_runners r) eqn:R; simpl; rewrite IH; [reflexivity|].
  rewrite (transformMarket_without_runners _ R).
  destruct (has_key k r); reflexivity.
Qed.



Lemma resolved_slot ms c c' m :
  resolve_competition ms c = Normal c' ->
  In (Own m) (Competition.matches c') ->
  exists k, assoc k ms = Some m.
Proof.
  unfold resolve_competition. intros H I. inv_bind H. injection H as <-.
  simpl in I. apply map_items_Forall2 in E.
  induction E as [|e sl es sls He _ IH]; [contradiction|].
  destruct I as [->|I]; [|auto].
  apply bind_normal in He as (k & _ & He). injection He as He.
  exists k. apply lookup_own_inv. exact He.
Qed.

Lemma Forall2_right {X Y} (R : X -> Y -> Prop) l r y :
  Forall2 R l r -> In y r -> exists x, In x l /\ R x y.
Proof.
  induction 1 as [|x y' l r Hxy _ IH]; simpl; [contradiction|].
  intros [<-|I]; [eauto|]. destruct (IH I) as (x' & ? & ?). eauto.
Qed.

Lemma same_match_refl m : same_match m m.
Proof. repeat split. Qed.

Lemma same_entries_assoc l0 l k :
  Forall2 same_entry l0 l ->
  match assoc k l0, assoc k l with
  | Some m0, Some m => same_match m0 m
  | None, None => True
  | _, _ => False
  end.
Proof.
  induction 1 as [|[k0 m0] [k1 m1] l0 l [E S] _ IH]; simpl; [exact I|].
  simpl in E, S. subst k1. destruct (String.eqb k k0); [exact S|exact IH].
Qed.

Lemma same_entries_lookup l0 l k :
  Forall2 same_entry l0 l -> same_slot (lookup l0 k) (lookup l k).
Proof.
  intros H. pose proof (same_entries_assoc l0 l k H) as A. unfold lookup.
  destruct (assoc k l0), (assoc k l); try contradiction; [exact A|].
  destruct (object_prototype k); simpl; auto.
Qed.

Lemma same_entries_missing l0 l k :
  Forall2 same_entry l0 l -> missing l0 k = missing l k.
Proof.
  intros H. pose proof (same_entries_lookup l0 l k H) as A. unfold missing.
  destruct (lookup l0 k), (lookup l k); simpl in A; try contradiction; reflexivity.
Qed.

Lemma same_entries_add l0 l k m :
  Forall2 same_entry l0 l -> Forall2 same_entry (add l0 k m) (add l k m).
Proof.
  intros H. unfold add. apply Forall2_app; [exact H|].
  constructor; [|constructor]. split; [reflexivity|apply same_match_refl].
Qed.

Lemma same_entries_update l0 l k (f0 f : Match.t -> Match.t) :
  (forall m0 m, same_match m0 m -> same_match (f0 m0) (f m)) ->
  Forall2 same_entry l0 l -> Forall2 same_entry (update k f0 l0) (update k f l).
Proof.
  intros Hf. induction 1 as [|[k0 m0] [k1 m1] l0 l [E S] H IH]; simpl; [constructor|].
  simpl in E, S. subst k1. destruct (String.eqb k k0).
  - constructor; [split; [reflexivity|apply Hf, S]|exact H].
  - constructor; [split; [reflexivity|exact S]|exact IH].
Qed.

Lemma same_entries_update_right l0 l k (f : Match.t -> Match.t) :
  (forall m0 m, same_match m0 m -> same_match m0 (f m)) ->
  Forall2 same_entry l0 l -> Forall2 same_entry l0 (update k f l).
Proof.
  intros Hf. induction 1 as [|[k0 m0] [k1 m1] l0 l [E S] H IH]; simpl; [constructor|].
  simpl in E, S. subst k1. destruct (String.eqb k k0).
  - constructor; [split; [reflexivity|apply Hf, S]|exact H].
  - constructor; [split; [reflexivity|exact S]|exact IH].
Qed.

Lemma get_but_runners props x k :
  k <> "runners" -> get (VObj props) k = get (VObj (props ++ [("runners", x)])) k.
Proof.
  intros N. unfold get.
  assert (A : assoc k (props ++ [("runners", x)]) = assoc k props).
  { induction props as [|[k' a] props IH]; simpl.
    - apply String.eqb_neq in N. rewrite N. reflexivity.
    - destruct (String.eqb k k'); [reflexivity|exact IH]. }
  rewrite A. reflexivity.
Qed.

(** The last step of the callback of [forEach], for tables that differ
    in market lists only and a record that may have lost its runners. *)
Lemma push_market_akin st0 st ek (o0 o : completion (option Market.t)) st' :
  same_tables st0 st ->
  o0 = o \/ o0 = Normal None ->
  (let! transformedMarket := o in
   match transformedMarket with
   | Some m =>
       match lookup (matches st) ek with
       | Own _ =>
           Normal {| matches := update ek (Match.push_market m) (matches st);
                     competitions := competitions st |}
       | Inherited _ => Throw (ReadOfNullish "push")
       | Absent => Throw (ReadOfNullish "markets")
       end
   | None => Normal st
   end) = Normal st' ->
  exists st0',
    (let! transformedMarket := o0 in
     match transformedMarket with
     | Some m =>
         match lookup (matches st0) ek with
         | Own _ =>
             Normal {| matches := update ek (Match.push_market m) (matches st0);
                       competitions := competitions st0 |}
         | Inherited _ => Throw (ReadOfNullish "push")
         | Absent => Throw (ReadOfNullish "markets")
         end
     | None => Normal st0
     end) = Normal st0' /\
    same_tables st0' st'.
Proof.
  intros [Ec Em] Ho H.
  destruct o as [[m|]|e]; cbn [bind] in H; [| |discriminate].
  - pose proof (same_entries_lookup _ _ ek Em) as L.
    destruct (lookup (matches st) ek) as [x| |] eqn:Lk; try discriminate.
    injection H as <-.
    destruct Ho as [-> | ->]; cbn [bind].
    + destruct (lookup (matches st0) ek) as [x0| |]; simpl in L; try contradiction.
      eexists. split; [reflexivity|]. split; [exact Ec|]. cbn [matches].
      apply same_entries_update; [intros ? ? S; exact S|exact Em].
    + eexists. split; [reflexivity|]. split; [exact Ec|]. cbn [matches].
      apply same_entries_update_right; [intros ? ? S; exact S|exact Em].
  - injection H as <-. destruct Ho as [-> | ->]; cbn [bind];
      (eexists; split; [reflexivity|]; split; assumption).
Qed.

Lemma scan_market_akin sportName st0 st r0 r st' :
  same_tables st0 st -> without_runners r0 r ->
  scan_market date_getTime sportName st r = Normal st' ->
  exists st0', scan_market date_getTime sportName st0 r0 = Normal st0' /\ same_tables st0' st'.
Proof.
  intros [Ec Em] W H.
  assert (G : forall k, k <> "runners" -> get r0 k = get r k).
  { destruct W as [-> |[_ G]]; [reflexivity|exact G]. }
  assert (TM : transformMarket r0 = transformMarket r \/ transformMarket r0 = Normal None).
  { destruct W as [-> |[N _]]; [left; reflexivity|].
    right. apply transformMarket_without_runners, N. }
  clear W. unfold Transformer.scan_market in *.
  rewrite !G by discriminate. rewrite Ec.
  destruct (get r "event") as [event|]; cbn [bind] in *; [|discriminate].
  destruct (negb (truthy event)).
  { injection H as <-. eexists. split; [reflexivity|]. split; assumption. }
  destruct (get event "id") as [eventId|]; cbn [bind] in *; [|discriminate].
  destruct (negb (truthy eventId)).
  { injection H as <-. eexists. split; [reflexivity|]. split; assumption. }
  destruct (get r "competition") as [competition|]; cbn [bind] in *; [|discriminate].
  destruct (get_opt competition "id") as [competitionId|]; cbn [bind] in *; [|discriminate].
  destruct (get_opt competition "name") as [competitionName|]; cbn [bind] in *;
    [|discriminate].
  match type of H with
  | bind ?X _ = _ => destruct X as [competitions1|]; cbn [bind] in *; [|discriminate]
  end.
  destruct (to_string eventId) as [ek|]; cbn [bind] in *; [|discriminate].
  rewrite (same_entries_missing _ _ ek Em).
  apply bind_normal in H as (st1 & B & H).
  match goal with
  | |- exists st0', bind ?X _ = _ /\ _ =>
      assert (B0 : exists st1_0, X = Normal st1_0 /\ same_tables st1_0 st1)
  end.
  { destruct (missing (matches st) ek).
    - destruct (get event "name") as [name|]; cbn [bind] in *; [|discriminate].
      destruct (get event "venue") as [venue|]; cbn [bind] in *; [|discriminate].
      destruct (get event "openDate") as [openDate|]; cbn [bind] in *; [|discriminate].
      match type of B with
      | bind ?X _ = _ => destruct X as [startTime|]; cbn [bind] in *; [|discriminate]
      end.
      destruct (get r "inPlay") as [inPlay|]; cbn [bind] in *; [|discriminate].
      destruct (truthy competitionId).
      + destruct (to_string competitionId) as [ck|]; cbn [bind] in *; [|discriminate].
        destruct (lookup competitions1 ck); try discriminate; injection B as <-;
          (eexists; split; [reflexivity|]; split; [reflexivity|]; cbn [matches];
           apply same_entries_add, Em).
      + injection B as <-. eexists. split; [reflexivity|]. split; [reflexivity|].
        cbn [matches]. apply same_entries_add, Em.
    - injection B as <-. eexists. split; [reflexivity|]. split; [reflexivity|exact Em]. }
  destruct B0 as (st1_0 & -> & S1). cbn [bind].
  exact (push_market_akin st1_0 st1 ek _ _ st' S1 TM H).
Qed.

Lemma for_each_akin sportName items0 items :
  Forall2 without_runners items0 items ->
  forall st0 st st',
    same_tables st0 st ->
    for_each (scan_market date_getTime sportName) st items = Normal st' ->
    exists st0', for_each (scan_market date_getTime sportName) st0 items0 = Normal st0' /\
                 same_tables st0' st'.
Proof.
  induction 1 as [|r0 r items0 items W _ IH]; simpl; intros st0 st st' S H.
  - injection H as <-. eauto.
  - apply bind_normal in H as (st1 & B & H).
    destruct (scan_market_akin sportName st0 st r0 r st1 S W B) as (st1_0 & -> & S1).
    cbn [bind]. exact (IH _ _ _ S1 H).
Qed.

Lemma map_items_akin ms0 ms es slots :
  Forall2 same_entry ms0 ms ->
  map_items (fun matchId => let! k := to_string matchId in Normal (lookup ms k)) es
  = Normal slots ->
  exists slots0,
    map_items (fun matchId => let! k := to_string matchId in Normal (lookup ms0 k)) es
    = Normal slots0 /\
    Forall2 same_slot slots0 slots.
Proof.
  intros Em. revert slots. induction es as [|e es IH]; simpl; intros slots H.
  - injection H as <-. eauto.
  - apply bind_normal in H as (sl & B & H). apply bind_normal in B as (k & -> & B).
    injection B as <-. apply bind_normal in H as (rest & R & H). injection H as <-.
    destruct (IH _ R) as (rest0 & -> & F). cbn [bind].
    eexists. split; [reflexivity|]. constructor; [|exact F].
    apply same_entries_lookup, Em.
Qed.

Lemma resolve_akin ms0 ms cs unsorted :
  Forall2 same_entry ms0 ms ->
  map_list (resolve_competition ms) cs = Normal unsorted ->
  exists unsorted0,
    map_list (resolve_competition ms0) cs = Normal unsorted0 /\
    Forall2 same_competition unsorted0 unsorted.
Proof.
  intros Em. revert unsorted. induction cs as [|c cs IH]; simpl; intros unsorted H.
  - injection H as <-. eauto.
  - apply bind_normal in H as (c' & B & H). apply bind_normal in H as (rest & R & H).
    injection H as <-. destruct (IH _ R) as (rest0 & -> & F').
    unfold resolve_competition in B |- *.
    apply bind_normal in B as (slots & M & B). injection B as <-.
    destruct (map_items_akin _ _ _ _ Em M) as (slots0 & -> & F). cbn [bind].
    eexists. split; [reflexivity|]. constructor; [|exact F'].
    split; [reflexivity|]. split; [reflexivity|exact F].
Qed.

Lemma compare_names_akin (a0 a b0 b : Competition.t (slot Match.t)) :
  same_competition a0 a -> same_competition b0 b ->
  compare_names localeCompare a0 b0 = compare_names localeCompare a b.
Proof.
  intros (_ & Ea & _) (_ & Eb & _). unfold compare_names. rewrite Ea, Eb. reflexivity.
Qed.

Lemma insert_sorted_akin a0 a l0 l r :
  same_competition a0 a -> Forall2 same_competition l0 l ->
  insert_sorted (compare_names localeCompare) a l = Normal r ->
  exists r0, insert_sorted (compare_names localeCompare) a0 l0 = Normal r0 /\
             Forall2 same_competition r0 r.
Proof.
  intros Sa F. revert r. induction F as [|b0 b l0 l Sb F IH]; simpl; intros r H.
  - injection H as <-. eexists. split; [reflexivity|]. constructor; [exact Sa|constructor].
  - rewrite (compare_names_akin _ _ _ _ Sa Sb).
    apply bind_normal in H as (c & -> & H). cbn [bind].
    destruct (c <? 0)%Z.
    + injection H as <-. eexists. split; [reflexivity|].
      constructor; [exact Sa|]. constructor; [exact Sb|exact F].
    + apply bind_normal in H as (r1 & R & H). injection H as <-.
      destruct (IH _ R) as (r0 & -> & F0). cbn [bind].
      eexists. split; [reflexivity|]. constructor; [exact Sb|exact F0].
Qed.

Lemma sort_into_akin placed0 placed l0 l r :
  Forall2 same_competition placed0 placed -> Forall2 same_competition l0 l ->
  sort_into (compare_names localeCompare) placed l = Normal r ->
  exists r0, sort_into (compare_names localeCompare) placed0 l0 = Normal r0 /\
             Forall2 same_competition r0 r.
Proof.
  intros P F. revert placed0 placed P r.
  induction F as [|a0 a l0 l Sa F IH]; simpl; intros placed0 placed P r H.
  - injection H as <-. eauto.
  - apply bind_normal in H as (p & B & H).
    destruct (insert_sorted_akin _ _ _ _ _ Sa P B) as (p0 & -> & P0). cbn [bind].
    exact (IH _ _ P0 _ H).
Qed.

Lemma Forall2_same_length {X Y} (R : X -> Y -> Prop) l0 l :
  Forall2 R l0 l -> length l0 = length l.
Proof. induction 1; simpl; congruence. Qed.

Lemma transformSportData_akin now data0 data sportName items0 items s cs n t :
  truthy data0 = true ->
  field data0 "result" = VArr items0 ->
  field data "result" = VArr items ->
  Forall2 without_runners items0 items ->
  transformSportData now data sportName
  = Normal (SportSuccess s cs n t) ->
  exists cs0,
    transformSportData now data0 sportName
    = Normal (SportSuccess s cs0 n t) /\
    Forall2 same_competition cs0 cs.
Proof.
  intros T0 F0 F W H.
  unfold Transformer.transformSportData in H.
  destruct (truthy data) eqn:T; simpl in H; [|discriminate].
  rewrite (get_truthy _ _ T), F in H. cbn [bind truthy negb] in H.
  destruct (transformSportData_body _ _ now data sportName) eqn:B;
    simpl in H; [|discriminate].
  injection H as ->. unfold transformSportData_body in B.
  rewrite (get_truthy _ _ T), F in B. cbn [bind] in B. unfold array_method in B.
  apply bind_normal in B as (st & E & B).
  apply bind_normal in B as (unsorted & R & B).
  apply bind_normal in B as (sorted & So & B). injection B as <- <- <- <-.
  destruct (for_each_akin sportName items0 items W no_tables no_tables st) as (st0 & E0 & S).
  { split; [reflexivity|constructor]. }
  { exact E. }
  destruct S as [Ec Em].
  destruct (resolve_akin _ _ _ _ Em R) as (unsorted0 & R0 & Fu).
  destruct (sort_into_akin [] [] _ _ _ (List.Forall2_nil _) Fu So) as (sorted0 & So0 & Fs).
  exists sorted0. split; [|exact Fs].
  unfold Transformer.transformSportData, transformSportData_body.
  rewrite T0. cbn [negb]. rewrite (get_truthy _ _ T0), F0. cbn [bind truthy negb].
  unfold array_method. rewrite E0. cbn [bind]. rewrite Ec, R0. cbn [bind].
  unfold array_sort. rewrite So0. cbn [bind try_catch].
  unfold Dict.size. rewrite (Forall2_same_length _ _ _ Em). reflexivity.
Qed.

(** C8.  [transformMarket] returns [null] for every record that lacks
    [runners]; the market list of every match in the tables built by
    [transformSportData], and of every match in its result, consists of
    the transformed records of that event that have [runners], in payload
    order: a record without [runners] contributes nothing.  And it is
    never the cause of an error: when a payload is transformed
    successfully, so is every payload obtained from it by taking the
    runners of some records away, with the same competitions in the same
    order, the same matches but for their market lists, and the same
    [matchCount]. *)
Theorem markets_without_runners_excluded :
  (forall market, has_runners market = false -> transformMarket market = Normal None) /\
  (forall sportName items st,
     for_each (scan_market date_getTime sportName) no_tables items = Normal st ->
     forall k m, assoc k (matches st) = Some m ->
       Match.markets m = markets_of k (List.filter has_runners items)) /\
  (forall now data sportName s cs n t,
     transformSportData now data sportName = Normal (SportSuccess s cs n t) ->
     exists items,
       field data "result" = VArr items /\
       forall c m, In c cs -> In (Own m) (Competition.matches c) ->
         exists k, to_string (Match.id m) = Normal k /\
                   Match.markets m = markets_of k (List.filter has_runners items)) /\
  (forall now data0 data sportName items0 items s cs n t,
     truthy data0 = true ->
     field data0 "result" = VArr items0 ->
     field data "result" = VArr items ->
     Forall2 without_runners items0 items ->
     transformSportData now data sportName = Normal (SportSuccess s cs n t) ->
     exists cs0,
       transformSportData now data0 sportName = Normal (SportSuccess s cs0 n t) /\
       Forall2 same_competition cs0 cs).
Proof.
  split; [exact transformMarket_without_runners|]. split; [|split].
  - intros sportName items st H k m A.
    apply (scanned_for_each _ _ [] _ _ scanned_nothing) in H. simpl in H.
    rewrite <- markets_of_with_runners. apply (scanned_markets _ _ H _ _ A).
  - intros now data sportName s cs n t H.
    apply transformSportData_success in H as (items & st & cs0 & F & S & R & Hs & _).
    exists items. split; [exact F|]. intros c m Ic Im.
    apply (Permutation_in _ (array_sort_perm _ _ _ Hs)) in Ic.
    apply map_list_Forall2 in R.
    destruct (Forall2_right _ _ _ _ R Ic) as (c0 & _ & Hc0).
    destruct (resolved_slot _ _ _ _ Hc0 Im) as (k & A).
    exists k. rewrite <- markets_of_with_runners. apply (scanned_markets _ _ S _ _ A).
  - intros now data0 data sportName items0 items s cs n t.
    apply transformSportData_akin.
Qed.

(** C3, as amended.  In a successful result of [transformSportData],
    [matchCount] counts the distinct event keys of the payload, and the
    match of each key is listed at most once over all competitions:
    exactly once when the first record of its event declares a
    competition id and name, and not at all when that record has no
    competition id (the match is then only counted). *)
Theorem matches_listed_by_first_record now data sportName s cs n t :
  transformSportData now data sportName = Normal (SportSuccess s cs n t) ->
  exists items,
    field data "result" = VArr items /\
    n = length (event_keys [] items) /\
    forall k r, first_record k items = Some r ->
      In k (event_keys [] items) /\
      (listed k cs <= 1)%nat /\
      (has_competition r = true -> listed k cs = 1%nat) /\
      (truthy (competition_id r) = false -> listed k cs = 0%nat).
Proof.
  intros H. apply listed_in_result in H as (items & st & F & S & -> & L).
  exists items. split; [exact F|]. split; [reflexivity|].
  intros k r Hr. rewrite L.
  destruct (scanned_first _ _ S _ _ Hr) as [G1 G2].
  destruct (first_record_key _ _ _ Hr) as [I K].
  split; [apply event_keys_In; right; eauto|].
  split; [apply occurrences_at_most_once, (scanned_once _ _ S)|]. split.
  - intros HC. apply occurrences_once; [apply (scanned_once _ _ S)|auto].
  - intros HC. apply occurrences_absent. auto.
Qed.

(** *** Sorting *)






End Scan.

(** The comparison of [Sample], by the codes of the lower-cased
    characters, is consistent and case-insensitive. *)
Lemma sample_localeCompare_consistent x y :
  (0 <= Sample.localeCompare x y)%Z -> (Sample.localeCompare y x <= 0)%Z.
Proof.
  unfold Sample.localeCompare.
  rewrite (String.compare_antisym (Server.lower x) (Server.lower y)).
  destruct (String.compare (Server.lower y) (Server.lower x)); simpl; lia.
Qed.

Lemma sample_localeCompare_ci x y :
  (Sample.localeCompare x y <= 0)%Z -> Sample.ci_le x y.
Proof.
  unfold Sample.localeCompare, Sample.ci_le.
  destruct (String.compare (Server.lower x) (Server.lower y)); intros H;
    try discriminate; lia.
Qed.





(** C8, witness: a record without [runners], alone and in a payload,
    and the same payload with an empty [runners] array restored to that
    record. *)
Lemma markets_without_runners_excluded_witness :
  transformMarket Sample.no_runners = Normal None /\
  (exists cs n t,
     Transformer.transformSportData Sample.date_getTime Sample.localeCompare
       Sample.error_message 0 (Sample.payload Sample.with_no_runners) "cricket"
     = Normal (SportSuccess "cricket" cs n t) /\
     exists items,
       field (Sample.payload Sample.with_no_runners) "result" = VArr items /\
       forall c m, In c cs -> In (Own m) (Competition.matches c) ->
         exists k, to_string (Match.id m) = Normal k /\
                   Match.markets m = markets_of k (List.filter has_runners items)) /\
  (exists cs n t,
     Transformer.transformSportData Sample.date_getTime Sample.localeCompare
       Sample.error_message 0 (Sample.payload Examples.with_runners_restored) "cricket"
     = Normal (SportSuccess "cricket" cs n t) /\
     exists cs0,
       Transformer.transformSportData Sample.date_getTime Sample.localeCompare
         Sample.error_message 0 (Sample.payload Sample.with_no_runners) "cricket"
       = Normal (SportSuccess "cricket" cs0 n t) /\
       Forall2 same_competition cs0 cs).
Proof.
  split; [|split].
  - apply (proj1 (markets_without_runners_excluded
                    Sample.date_getTime Sample.localeCompare Sample.error_message)).
    reflexivity.
  - eexists _, _, _. split; [reflexivity|].
    eapply (proj1 (proj2 (proj2 (markets_without_runners_excluded
                                   Sample.date_getTime Sample.localeCompare
                                   Sample.error_message)))
              0 (Sample.payload Sample.with_no_runners) "cricket").
    reflexivity.
  - eexists _, _, _. split; [reflexivity|].
    eapply (proj2 (proj2 (proj2 (markets_without_runners_excluded
                                   Sample.date_getTime Sample.localeCompare
                                   Sample.error_message)))
              0 (Sample.payload Sample.with_no_runners)
              (Sample.payload Examples.with_runners_restored) "cricket"
              Sample.with_no_runners Examples.with_runners_restored);
      try reflexivity.
    constructor.
    + right. split; [reflexivity|]. intros k N.
      exact (get_but_runners
               [("event", VObj [("id", VStr "E1")]);
                ("competition", VObj [("id", VStr "C1"); ("name", VStr "League")])]
               (VArr []) k N).
    + constructor; [left; reflexivity|constructor].
Defined.

(** C3, witness: two events, each declaring its competition on its
    first record. *)
Lemma matches_listed_by_first_record_witness :
  exists cs n t,
    Transformer.transformSportData Sample.date_getTime Sample.localeCompare
      Sample.error_message 0 (Sample.payload Sample.two_leagues) "cricket"
    = Normal (SportSuccess "cricket" cs n t) /\
    exists items,
      field (Sample.payload Sample.two_leagues) "result" = VArr items /\
      n = length (event_keys [] items) /\
      forall k r, first_record k items = Some r ->
        In k (event_keys [] items) /\
        (listed k cs <= 1)%nat /\
        (has_competition r = true -> listed k cs = 1%nat) /\
        (truthy (competition_id r) = false -> listed k cs = 0%nat).
Proof.
  eexists _, _, _. split; [reflexivity|].
  eapply (matches_listed_by_first_record
            Sample.date_getTime Sample.localeCompare Sample.error_message
            0 (Sample.payload Sample.two_leagues) "cricket").
  reflexivity.
Defined.

(** C3, counterexample: the event E1 declares its competition on its
    second record only and is listed nowhere; an event that declares no
    competition is counted but not part of the result. *)
Lemma late_competition_not_listed :
  (exists cs n t,
     Transformer.transformSportData Sample.date_getTime Sample.localeCompare
       Sample.error_message 0 (Sample.payload Sample.late_competition) "cricket"
     = Normal (SportSuccess "cricket" cs n t) /\
     ~ listed_when_declared Sample.late_competition cs) /\
  (exists cs n t,
     Transformer.transformSportData Sample.date_getTime Sample.localeCompare
       Sample.error_message 0 (Sample.payload Sample.no_competition) "cricket"
     = Normal (SportSuccess "cricket" cs n t) /\
     n = 1%nat /\ ~ all_retained Sample.no_competition cs).
Proof.
  split.
  - eexists _, _, _. split; [reflexivity|]. intros X.
    specialize (X "E1" _ (or_intror (or_introl eq_refl)) eq_refl eq_refl).
    discriminate.
  - eexists _, _, _. split; [reflexivity|]. split; [reflexivity|]. intros X.
    specialize (X "E1" _ (or_introl eq_refl) eq_refl).
    vm_compute in X. lia.
Qed.

End TransformerFacts.

(** ** The REST routes *)

Module ServerFacts.
Import JS Dict Transformer Server Spec JSFacts DictFacts TransformerFacts.

Section Host.

Variable toLowerCase : string -> string.
Variable date_getTime : value -> completion value.
Variable localeCompare : string -> string -> Z.
Variable error_message : error -> string.

Local Abbreviation getSportTypeId := (getSportTypeId toLowerCase).
Local Abbreviation sport_route :=
  (sport_route toLowerCase date_getTime localeCompare error_message).
Local Abbreviation event_route :=
  (event_route toLowerCase date_getTime error_message).
Local Abbreviation transformSportData :=
  (transformSportData date_getTime localeCompare error_message).
Local Abbreviation transformEventData := (transformEventData date_getTime error_message).

Lemma getSportTypeId_cases sportName :
  (exists id, getSportTypeId sportName = VStr id) \/
  (exists b, getSportTypeId sportName = VBuiltin b).
Proof.
  unfold Server.getSportTypeId.
  destruct (lookup SPORT_TYPE_IDS (toLowerCase sportName)) as [id|b|] eqn:L; simpl.
  - unfold or_else. simpl. destruct (String.eqb id ""); simpl; eauto.
  - eauto.
  - eauto.
Qed.

Lemma getSportTypeId_prints sportName :
  exists id, to_string (getSportTypeId sportName) = Normal id.
Proof.
  destruct (getSportTypeId_cases sportName) as [(id & ->)|([|n] & ->)]; simpl; eauto.
Qed.

(** A name that is neither a sport nor inherited defaults to cricket. *)
Lemma getSportTypeId_default sportName :
  lookup SPORT_TYPE_IDS (toLowerCase sportName) = Absent ->
  getSportTypeId sportName = VStr "4".
Proof. unfold Server.getSportTypeId. intros ->. reflexivity. Qed.

Lemma lookup_sport_types k :
  k <> "cricket" -> k <> "football" -> k <> "tennis" -> object_prototype k = None ->
  lookup SPORT_TYPE_IDS k = Absent.
Proof.
  intros H1 H2 H3 P. unfold lookup, SPORT_TYPE_IDS. simpl.
  apply String.eqb_neq in H1, H2, H3. rewrite H1, H2, H3, P. reflexivity.
Qed.

Lemma sport_url_normal sportName :
  exists url, sport_url (getSportTypeId sportName) = Normal url.
Proof.
  unfold sport_url. destruct (getSportTypeId_prints sportName) as (id & ->).
  simpl. eauto.
Qed.

Lemma event_url_normal sportName eventId :
  exists url, event_url (getSportTypeId sportName) eventId = Normal url.
Proof.
  unfold event_url. destruct (getSportTypeId_prints sportName) as (id & ->).
  simpl. eauto.
Qed.

Lemma fresh_insert {P} (cache : gmap string (entry P)) key p now now2 ttl :
  fresh (<[key := {| data := Some p; timestamp := now |}]> cache) key now2 ttl =
  if (now2 - now <? ttl)%Z then Some p else None.
Proof. unfold fresh. rewrite lookup_insert_eq. reflexivity. Qed.

Lemma sport_route_hit now clock sportName sportData st cached :
  fresh (sportsDataCache st) (toLowerCase sportName) now CACHE_TTL = Some cached ->
  sport_route now clock sportName sportData st = (ok cached, st).
Proof.
  intros H. unfold Server.sport_route, sport_route_start. rewrite H. reflexivity.
Qed.

Lemma sport_route_miss now clock sportName sportData st :
  fresh (sportsDataCache st) (toLowerCase sportName) now CACHE_TTL = None ->
  exists url,
    sport_url (getSportTypeId sportName) = Normal url /\
    if truthy sportData then
      exists payload,
        transformSportData clock sportData sportName = Normal payload /\
        sport_route now clock sportName sportData st =
        (ok payload,
         set_sport (toLowerCase sportName)
           {| data := Some payload; timestamp := now |} (apiRequest url st))
    else
      sport_route now clock sportName sportData st =
      (failed ("Failed to fetch " +:+ sportName +:+ " data"), apiRequest url st).
Proof.
  intros H. destruct (sport_url_normal sportName) as (url & U).
  exists url. split; [exact U|].
  unfold Server.sport_route, sport_route_start, sport_route_finish.
  rewrite H, U. simpl.
  destruct (truthy sportData); simpl; [|reflexivity].
  destruct (transformSportData_normal date_getTime localeCompare error_message
              clock sportData sportName) as (payload & T).
  exists payload. split; [exact T|]. rewrite T. reflexivity.
Qed.

Lemma event_route_hit now clock sportName eventId eventData st cached :
  fresh (eventDataCache st) (sportName +:+ "_" +:+ eventId) now EVENT_TTL = Some cached ->
  event_route now clock sportName eventId eventData st = (ok cached, st).
Proof.
  intros H. unfold Server.event_route, event_route_start. rewrite H. reflexivity.
Qed.

Lemma event_route_miss now clock sportName eventId eventData st :
  fresh (eventDataCache st) (sportName +:+ "_" +:+ eventId) now EVENT_TTL = None ->
  exists url,
    event_url (getSportTypeId sportName) eventId = Normal url /\
    if truthy eventData then
      exists payload,
        transformEventData clock eventData sportName = Normal payload /\
        event_route now clock sportName eventId eventData st =
        (ok payload,
         set_event (sportName +:+ "_" +:+ eventId)
           {| data := Some payload; timestamp := now |} (apiRequest url st))
    else
      event_route now clock sportName eventId eventData st =
      (failed ("Failed to fetch event data for " +:+ eventId), apiRequest url st).
Proof.
  intros H. destruct (event_url_normal sportName eventId) as (url & U).
  exists url. split; [exact U|].
  unfold Server.event_route, event_route_start, event_route_finish.
  rewrite H, U. simpl.
  destruct (truthy eventData); simpl; [|reflexivity].
  destruct (transformEventData_normal date_getTime error_message
              clock eventData sportName) as (payload & T).
  exists payload. split; [exact T|]. rewrite T. reflexivity.
Qed.



(** C10, as amended.  On a cache miss of either route every truthy
    reply is transformed and the outcome, a failure result included, is
    stored with the time read before the request and served unchanged
    within the window; a falsy reply ([null], but also an empty string,
    zero or [false]) is answered with status 500 and leaves the cache as
    it was. *)
Theorem truthy_replies_are_cached now clock sportName eventId reply st :
  (fresh (sportsDataCache st) (toLowerCase sportName) now CACHE_TTL = None ->
   (forall payload,
      truthy reply = true ->
      transformSportData clock reply sportName = Normal payload ->
      exists st1,
        sport_route now clock sportName reply st = (ok payload, st1) /\
        sportsDataCache st1 !! toLowerCase sportName
        = Some {| data := Some payload; timestamp := now |} /\
        forall now2 clock2 reply2,
          (now2 - now < CACHE_TTL)%Z ->
          sport_route now2 clock2 sportName reply2 st1 = (ok payload, st1)) /\
   (truthy reply = false ->
    status (fst (sport_route now clock sportName reply st)) = 500 /\
    sportsDataCache (snd (sport_route now clock sportName reply st))
    = sportsDataCache st)) /\
  (fresh (eventDataCache st) (sportName +:+ "_" +:+ eventId) now EVENT_TTL = None ->
   (forall payload,
      truthy reply = true ->
      transformEventData clock reply sportName = Normal payload ->
      exists st1,
        event_route now clock sportName eventId reply st = (ok payload, st1) /\
        eventDataCache st1 !! (sportName +:+ "_" +:+ eventId)
        = Some {| data := Some payload; timestamp := now |} /\
        forall now2 clock2 reply2,
          (now2 - now < EVENT_TTL)%Z ->
          event_route now2 clock2 sportName eventId reply2 st1 = (ok payload, st1)) /\
   (truthy reply = false ->
    status (fst (event_route now clock sportName eventId reply st)) = 500 /\
    eventDataCache (snd (event_route now clock sportName eventId reply st))
    = eventDataCache st)).
Proof.
  split; intros F.
  - destruct (sport_route_miss now clock sportName reply st F) as (url & _ & R).
    split.
    + intros payload T P. rewrite T in R. destruct R as (payload' & P' & R).
      assert (payload' = payload) by congruence. subst payload'.
      eexists. split; [exact R|]. split.
      * simpl. apply lookup_insert_eq.
      * intros now2 clock2 reply2 W. apply sport_route_hit. simpl.
        rewrite fresh_insert. apply Z.ltb_lt in W. rewrite W. reflexivity.
    + intros T. rewrite T in R. rewrite R. split; reflexivity.
  - destruct (event_route_miss now clock sportName eventId reply st F) as (url & _ & R).
    split.
    + intros payload T P. rewrite T in R. destruct R as (payload' & P' & R).
      assert (payload' = payload) by congruence. subst payload'.
      eexists. split; [exact R|]. split.
      * simpl. apply lookup_insert_eq.
      * intros now2 clock2 reply2 W. apply event_route_hit. simpl.
        rewrite fresh_insert. apply Z.ltb_lt in W. rewrite W. reflexivity.
    + intros T. rewrite T in R. rewrite R. split; reflexivity.
Qed.

(** Unknown names other than inherited ones fetch the cricket feed. *)
Lemma unknown_sport_fetches_cricket now sportName st :
  let k := toLowerCase sportName in
  k <> "cricket" -> k <> "football" -> k <> "tennis" -> object_prototype k = None ->
  getSportTypeId sportName = VStr "4" /\
  (fresh (sportsDataCache st) k now CACHE_TTL = None ->
   sport_route_start toLowerCase now sportName st =
   Normal (Awaiting (API_BASE_URL +:+ "/exchange/odds/eventType/4"),
           apiRequest (API_BASE_URL +:+ "/exchange/odds/eventType/4") st)).
Proof.
  intros k H1 H2 H3 P.
  assert (G : getSportTypeId sportName = VStr "4").
  { apply getSportTypeId_default, lookup_sport_types; assumption. }
  split; [exact G|]. intros F. unfold sport_route_start. fold k. rewrite F, G.
  reflexivity.
Qed.


End Host.


(** C10, witness: the reply [{}] transforms to a failure result, which
    is cached and served. *)
Lemma truthy_replies_are_cached_witness :
  let route := Server.sport_route Server.lower Sample.date_getTime Sample.localeCompare
                 Sample.error_message in
  let failure := SportFailure "Invalid data format" "cricket" in
  exists st1,
    route 1000 1001 "cricket" (VObj []) Server.initial = (ok failure, st1) /\
    sportsDataCache st1 !! Server.lower "cricket"
    = Some {| data := Some failure; timestamp := 1000 |} /\
    forall now2 clock2 reply2,
      (now2 - 1000 < CACHE_TTL)%Z ->
      route now2 clock2 "cricket" reply2 st1 = (ok failure, st1).
Proof.
  apply (proj1 (proj1 (truthy_replies_are_cached
                         Server.lower Sample.date_getTime Sample.localeCompare
                         Sample.error_message 1000 1001 "cricket" "E1"
                         (VObj []) Server.initial)
                  eq_refl));
    reflexivity.
Defined.

(** C9, at the failing input: the name "constructor" is not a sport, yet
    [SPORT_TYPE_IDS["constructor"]] is the inherited [Object] function,
    which is truthy, so ['4'] is not substituted and the upstream URL is
    built from the function's source text. *)
Theorem getSportTypeId_constructor :
  Server.lower "constructor" <> "cricket" /\
  Server.lower "constructor" <> "football" /\
  Server.lower "constructor" <> "tennis" /\
  getSportTypeId Server.lower "constructor" = VBuiltin (BFunction "Object") /\
  sport_route_start Server.lower 0 "constructor" Server.initial =
  Normal (Awaiting
            "https://gobook9.com/api/exchange/odds/eventType/function Object() { [native code] }",
          apiRequest
            "https://gobook9.com/api/exchange/odds/eventType/function Object() { [native code] }"
            Server.initial).
Proof. repeat split; try discriminate; reflexivity. Qed.


(** C10, counterexample: a reply that is the empty string, not [null],
    skips the cache write. *)
Lemma empty_reply_skips_cache_write :
  let route := Server.sport_route Server.lower Sample.date_getTime Sample.localeCompare
                 Sample.error_message in
  VStr "" <> VNull /\
  fresh (sportsDataCache Server.initial) "cricket" 1000 CACHE_TTL = None /\
  route 1000 1000 "cricket" (VStr "") Server.initial
  = (failed "Failed to fetch cricket data",
     apiRequest "https://gobook9.com/api/exchange/odds/eventType/4" Server.initial).
Proof. repeat split; try discriminate; reflexivity. Qed.

End ServerFacts.

(** ** The socket handlers *)

Module SocketFacts.
Import JS Dict Transformer Server Socket Spec JSFacts DictFacts TransformerFacts ServerFacts.

Section Host.

Variable toLowerCase : string -> string.
Variable date_getTime : value -> completion value.
Variable localeCompare : string -> string -> Z.
Variable error_message : error -> string.

Local Abbreviation transformSportData :=
  (transformSportData date_getTime localeCompare error_message).
Local Abbreviation transformEventData := (transformEventData date_getTime error_message).
Local Abbreviation step := (step toLowerCase date_getTime localeCompare error_message).
Local Abbreviation run := (run toLowerCase date_getTime localeCompare error_message).
Local Abbreviation sport_cycle := (sport_cycle toLowerCase).
Local Abbreviation event_cycle := (event_cycle toLowerCase).
Local Abbreviation subscribed := (subscribed toLowerCase).
Local Abbreviation armed_by_handlers := (armed_by_handlers toLowerCase).

Lemma request_sport_cycle sportName st :
  exists url, cycle_url (sport_cycle sportName) = Normal url /\
              request (sport_cycle sportName) st = apiRequest url st.
Proof.
  unfold request. simpl. destruct (sport_url_normal toLowerCase sportName) as (url & U).
  rewrite U. eauto.
Qed.

Lemma request_event_cycle sportName eventId st :
  exists url, cycle_url (event_cycle sportName eventId) = Normal url /\
              request (event_cycle sportName eventId) st = apiRequest url st.
Proof.
  unfold request. simpl.
  destruct (event_url_normal toLowerCase sportName eventId) as (url & U).
  rewrite U. eauto.
Qed.

Lemma Forall_filter {X} (P : X -> Prop) f l : Forall P l -> Forall P (List.filter f l).
Proof.
  induction 1; simpl; [constructor|]. destruct (f x); [constructor|]; assumption.
Qed.

Lemma clearInterval_armed h ts :
  Forall (fun t => subscribed (callback t)) ts ->
  Forall (fun t => subscribed (callback t)) (clearInterval h ts).
Proof. destruct h; simpl; [apply Forall_filter|auto]. Qed.

Lemma step_armed w e :
  armed_by_handlers (conn w) -> armed_by_handlers (conn (step w e)).
Proof.
  intros [T S]. destruct e; simpl.
  - split; simpl; [apply clearInterval_armed, T|constructor; [reflexivity|exact S]].
  - split; simpl; [apply clearInterval_armed, T|exact S].
  - split; simpl; [apply clearInterval_armed, T|constructor; [reflexivity|exact S]].
  - split; simpl; [apply clearInterval_armed, T|exact S].
  - split; simpl; [apply clearInterval_armed, clearInterval_armed, T|exact S].
  - unfold find_call. destruct (List.find _ (suspended (conn w))) as [[i c]|] eqn:F; simpl.
    + apply find_some in F as [I _].
      split; simpl.
      * constructor; [|exact T]. simpl.
        rewrite List.Forall_forall in S. exact (S _ I).
      * apply Forall_filter, S.
    + split; assumption.
  - destruct (find_timer h (timers (conn w))); simpl; split; assumption.
Qed.

Lemma run_armed w es :
  armed_by_handlers (conn w) -> armed_by_handlers (conn (run w es)).
Proof.
  revert w. induction es as [|e es IH]; simpl; intros w H; [exact H|].
  apply IH, step_armed, H.
Qed.

Lemma connected_armed : armed_by_handlers connected.
Proof. split; constructor. Qed.

Lemma request_subscribed c st :
  subscribed c -> exists url, cycle_url c = Normal url /\ request c st = apiRequest url st.
Proof.
  destruct c as [n id|n e id]; simpl; intros ->.
  - apply request_sport_cycle.
  - apply request_event_cycle.
Qed.

(** C1, as amended.  On a connection driven by any sequence of events,
    every tick of an armed subscription timer sends one upstream
    request, whatever the caches hold, leaves both caches unchanged, and
    emits the transform of the reply when the reply is truthy (nothing
    otherwise). *)
Theorem cycles_always_fetch st es h t reply clock :
  let w := run {| server := st; conn := connected |} es in
  find_timer h (timers (conn w)) = Some t ->
  let w' := step w (Tick h reply clock) in
  sportsDataCache (server w') = sportsDataCache (server w) /\
  eventDataCache (server w') = eventDataCache (server w) /\
  (exists url, requested (server w') = url :: requested (server w)) /\
  match callback t with
  | SportCycle sportName _ =>
      exists payload,
        transformSportData clock reply sportName = Normal payload /\
        emitted (conn w') =
        if truthy reply then sport_update payload :: emitted (conn w)
        else emitted (conn w)
  | EventCycle sportName _ _ =>
      exists payload,
        transformEventData clock reply sportName = Normal payload /\
        emitted (conn w') =
        if truthy reply then event_update payload :: emitted (conn w)
        else emitted (conn w)
  end.
Proof.
  intros w F w'. subst w'.
  assert (A : subscribed (callback t)).
  { destruct (run_armed {| server := st; conn := connected |} es connected_armed) as [T _].
    fold w in T. rewrite List.Forall_forall in T. apply T.
    apply find_some in F. apply F. }
  unfold Socket.step. rewrite F. cbn [server conn emitted].
  destruct (request_subscribed _ (server w) A) as (url & U & ->).
  split; [reflexivity|]. split; [reflexivity|]. split; [exists url; reflexivity|].
  unfold deliver. rewrite U.
  destruct (callback t) as [sportName id|sportName eventId id].
  - destruct (transformSportData_normal date_getTime localeCompare error_message
                clock reply sportName) as (payload & T).
    exists payload. split; [exact T|]. rewrite T. reflexivity.
  - destruct (transformEventData_normal date_getTime error_message
                clock reply sportName) as (payload & T).
    exists payload. split; [exact T|]. rewrite T. reflexivity.
Qed.


Lemma clearInterval_sport h ts :
  (forall t, In t ts -> is_sport_cycle (callback t) = true -> h = Some (handle t)) ->
  List.filter (fun t => is_sport_cycle (callback t)) (clearInterval h ts) = [].
Proof.
  intros H. induction ts as [|t ts IH]; simpl.
  - destruct h; reflexivity.
  - destruct h as [n|].
    + simpl. destruct (Nat.eqb (handle t) n) eqn:E; simpl.
      * apply IH. intros t' I. apply H. right. exact I.
      * destruct (is_sport_cycle (callback t)) eqn:S.
        -- specialize (H t (or_introl eq_refl) S). injection H as ->.
           rewrite Nat.eqb_refl in E. discriminate.
        -- apply IH. intros t' I. apply H. right. exact I.
    + simpl. destruct (is_sport_cycle (callback t)) eqn:S.
      * specialize (H t (or_introl eq_refl) S). discriminate.
      * apply IH. intros t' I. apply H. right. exact I.
Qed.

(** A subscription whose initial fetch resolves before the next
    [subscribe_sport] arrives leaves exactly one sport timer. *)
Lemma sequential_subscription_one_timer w sportName reply clock :
  (forall t, In t (timers (conn w)) -> is_sport_cycle (callback t) = true ->
             sportUpdateInterval (conn w) = Some (handle t)) ->
  let w' := run w [SubscribeSport sportName; Fetched (next_call (conn w)) reply clock] in
  length (sport_timers (conn w')) = 1%nat /\
  (forall t, In t (timers (conn w')) -> is_sport_cycle (callback t) = true ->
             sportUpdateInterval (conn w') = Some (handle t)).
Proof.
  intros H. simpl. unfold find_call. simpl. rewrite Nat.eqb_refl. simpl.
  unfold sport_timers. simpl.
  pose proof (clearInterval_sport _ _ H) as C. rewrite C. split; [reflexivity|].
  intros t [<-|I] S; [reflexivity|]. exfalso.
  assert (In t (List.filter (fun t => is_sport_cycle (callback t))
                  (clearInterval (sportUpdateInterval (conn w)) (timers (conn w))))).
  { apply filter_In. auto. }
  rewrite C in H0. contradiction.
Qed.


End Host.

(** C1, witness: the first tick of a cricket subscription. *)
Lemma cycles_always_fetch_witness :
  let run := Socket.run Server.lower Sample.date_getTime Sample.localeCompare
               Sample.error_message in
  let w := run Sample.start [SubscribeSport "cricket"; Fetched 0 VNull 1500] in
  let w' := Socket.step Server.lower Sample.date_getTime Sample.localeCompare
              Sample.error_message w (Tick 0 (Sample.payload Sample.set_game) 2000) in
  sportsDataCache (server w') = sportsDataCache (server w) /\
  eventDataCache (server w') = eventDataCache (server w) /\
  (exists url, requested (server w') = url :: requested (server w)) /\
  exists payload,
    Transformer.transformSportData Sample.date_getTime Sample.localeCompare
      Sample.error_message 2000 (Sample.payload Sample.set_game) "cricket"
    = Normal payload /\
    emitted (conn w') =
    if truthy (Sample.payload Sample.set_game)
    then sport_update payload :: emitted (conn w)
    else emitted (conn w).
Proof.
  apply (cycles_always_fetch
           Server.lower Sample.date_getTime Sample.localeCompare
           Sample.error_message Server.initial
           [SubscribeSport "cricket"; Fetched 0 VNull 1500]
           0%nat
           {| handle := 0; period := 5000;
              callback := Socket.sport_cycle Server.lower "cricket" |}
           (Sample.payload Sample.set_game) 2000 eq_refl).
Defined.

(** C4, at the failing input: when a second [subscribe_sport] arrives
    while the initial fetch of the first is in flight, both handlers arm
    an interval and two sport timers are active; [unsubscribe_sport] and
    [disconnect] clear only the last one. *)
Theorem overlapping_subscriptions_arm_two_timers r1 c1 r2 c2 :
  let run := Socket.run Server.lower Sample.date_getTime Sample.localeCompare
               Sample.error_message in
  let overlapped :=
    [SubscribeSport "cricket"; SubscribeSport "cricket"; Fetched 0 r1 c1; Fetched 1 r2 c2] in
  length (sport_timers (conn (run Sample.start overlapped))) = 2%nat /\
  length (sport_timers (conn (run Sample.start (overlapped ++ [UnsubscribeSport; Disconnect]))))
  = 1%nat.
Proof. split; reflexivity. Qed.


(** C1, counterexample: with a fresh cache slot for "cricket", a tick of
    a cricket subscription still sends an upstream request and emits
    the transform of the reply, not the cached payload. *)
Lemma tick_ignores_fresh_cache :
  let route := Server.sport_route Server.lower Sample.date_getTime Sample.localeCompare
                 Sample.error_message in
  let run := Socket.run Server.lower Sample.date_getTime Sample.localeCompare
               Sample.error_message in
  let st := snd (route 1000 1000 "cricket" (Sample.payload Sample.two_leagues) Server.initial) in
  let w := run {| server := st; conn := connected |}
             [SubscribeSport "cricket"; Fetched 0 VNull 1500] in
  let w' := run w [Tick 0 (Sample.payload Sample.set_game) 2000] in
  exists cached,
    fresh (sportsDataCache (server w)) "cricket" 2000 CACHE_TTL = Some cached /\
    length (requested (server w')) = S (length (requested (server w))) /\
    hd_error (emitted (conn w')) <> Some (sport_update cached).
Proof.
  eexists. split; [reflexivity|]. split; [reflexivity|].
  simpl. discriminate.
Qed.


End SocketFacts.

(** ** Markets, event payloads and the tables of a sport *)

Module ShapeFacts.
Import JS Dict Transformer Spec Shape JSFacts DictFacts TransformerFacts.

Lemma array_map_items {B} (a : value) (f : value -> completion B) r :
  array_map a f = Normal r -> exists items, a = VArr items /\ map_items f items = Normal r.
Proof.
  unfold array_map, array_method. destruct a; try discriminate. eauto.
Qed.

Lemma transformLadder_absent ladder r :
  nullish ladder = true -> transformLadder ladder = Normal r -> r = [].
Proof. unfold transformLadder. intros ->. congruence. Qed.

Lemma transformRunner_mirrors runner r :
  transformRunner runner = Normal r -> mirrors_runner runner r.
Proof.
  unfold transformRunner. intros H.
  inv_bind H. apply get_normal in E as [N <-].
  inv_bind H. apply get_normal in E as [_ <-].
  inv_bind H. apply get_normal in E as [_ <-].
  inv_bind H. apply get_normal in E as [_ <-].
  inv_bind H. apply get_normal in E as [_ <-].
  inv_bind H. apply get_normal in E as [_ <-].
  inv_bind H. apply get_normal in E as [_ <-].
  inv_bind H. apply get_normal in E as [_ <-].
  inv_bind H. rename E into Hb.
  inv_bind H. apply get_normal in E as [_ <-].
  inv_bind H. rename E into Hl.
  injection H as <-. unfold mirrors_runner. simpl.
  repeat split; try reflexivity.
  - intros Z. exact (transformLadder_absent _ _ Z Hb).
  - intros Z. exact (transformLadder_absent _ _ Z Hl).
Qed.

Lemma transformMarket_some market m :
  transformMarket market = Normal (Some m) ->
  truthy market = true /\ transformMarket_body market = Normal m.
Proof.
  unfold transformMarket. destruct (truthy market) eqn:T; simpl; [|discriminate].
  rewrite (get_truthy _ _ T). simpl.
  destruct (truthy (field market "runners")); simpl; [|discriminate].
  destruct (transformMarket_body market); simpl; [|discriminate].
  intros [= ->]. auto.
Qed.

Lemma transformMarket_copies market :
  (exists o, transformMarket market = Normal o) /\
  (forall m,
     transformMarket market = Normal (Some m) ->
     exists runners,
       field market "runners" = VArr runners /\
       Forall2 mirrors_runner runners (Market.runners m) /\
       Market.id m = field market "id" /\
       Market.name m = field market "name" /\
       Market.status m = field market "status" /\
       Market.totalMatched m = field market "matched" /\
       Market.marketType m = field market "mtype" /\
       Market.inPlay m = or_else (field market "inPlay") (VBool false) /\
       In (Market.sport m) ["football"; "tennis"; "cricket"; "unknown"]).
Proof.
  split; [apply transformMarket_normal|].
  intros m H. apply transformMarket_some in H as [T H].
  unfold transformMarket_body in H.
  inv_bind H. apply get_normal in E as [_ <-].
  inv_bind H. apply get_normal in E as [_ <-].
  inv_bind H. apply get_normal in E as [_ <-].
  inv_bind H. apply get_normal in E as [_ <-].
  inv_bind H. apply get_normal in E as [_ <-].
  inv_bind H. apply get_normal in E as [_ <-].
  inv_bind H. apply get_normal in E as [_ <-].
  inv_bind H. apply get_normal in E as [_ <-].
  inv_bind H. apply get_normal in E as [_ <-].
  inv_bind H. apply get_normal in E as [_ <-].
  inv_bind H. injection H as <-. simpl.
  apply array_map_items in E as (runners & -> & E).
  exists runners. split; [reflexivity|]. split.
  - apply map_items_Forall2 in E.
    induction E; constructor; auto using transformRunner_mirrors.
  - repeat split; try reflexivity.
    unfold sport_of_type.
    destruct (strict_eq_str _ "1"); [simpl; auto|].
    destruct (strict_eq_str _ "2"); [simpl; auto|].
    destruct (strict_eq_str _ "4"); simpl; auto.
Qed.

(** A runner that is [null] makes the whole market unusable. *)
Lemma map_items_throws {B} (f : value -> completion B) items x :
  In x items -> (forall b, f x <> Normal b) -> forall r, map_items f items <> Normal r.
Proof.
  intros I Hx. induction items as [|y items IH]; simpl; [contradiction|].
  intros r H. inv_bind H. inv_bind H. destruct I as [->|I].
  - exact (Hx _ E).
  - exact (IH I _ E0).
Qed.

Lemma transformMarket_null_runner market runners runner :
  field market "runners" = VArr runners ->
  In runner runners -> nullish runner = true ->
  transformMarket market = Normal None.
Proof.
  intros F I N. destruct (transformMarket_normal market) as ([m|] & H); [|exact H].
  exfalso. apply transformMarket_some in H as [T H].
  unfold transformMarket_body in H. repeat inv_bind H.
  apply get_normal in E8 as [_ E8]. rewrite F in E8. subst.
  unfold array_map, array_method in E9.
  apply (map_items_throws transformRunner runners runner I) in E9; [exact E9|].
  intros b Hb. unfold transformRunner in Hb. inv_bind Hb.
  destruct runner; simpl in *; discriminate.
Qed.

(** X1.  [transformMarket] never raises.  When it returns a market, the
    record's [runners] is an array, every runner of the market mirrors
    the runner record at the same position (fields copied, a ladder that
    is [null] or missing is empty), the id, name, status, matched amount
    and type are copied from the record, [inPlay] defaults to [false],
    and the sport is one of the four labels.  A record whose [runners]
    array holds a [null] or [undefined] entry yields no market. *)
Theorem transformMarket_mirrors_record market :
  (exists o, transformMarket market = Normal o) /\
  (forall m,
     transformMarket market = Normal (Some m) ->
     exists runners,
       field market "runners" = VArr runners /\
       Forall2 mirrors_runner runners (Market.runners m) /\
       Market.id m = field market "id" /\
       Market.name m = field market "name" /\
       Market.status m = field market "status" /\
       Market.totalMatched m = field market "matched" /\
       Market.marketType m = field market "mtype" /\
       Market.inPlay m = or_else (field market "inPlay") (VBool false) /\
       In (Market.sport m) ["football"; "tennis"; "cricket"; "unknown"]) /\
  (forall runners runner,
     field market "runners" = VArr runners ->
     In runner runners -> nullish runner = true ->
     transformMarket market = Normal None).
Proof.
  destruct (transformMarket_copies market) as [A B].
  split; [exact A|]. split; [exact B|].
  intros runners runner F I N. exact (transformMarket_null_runner _ _ _ F I N).
Qed.

Section Events.

Variable date_getTime : value -> completion value.
Variable error_message : error -> string.

Local Abbreviation transformEventData := (transformEventData date_getTime error_message).
Local Abbreviation transformEventData_body := (transformEventData_body date_getTime).

(** X2.  [transformEventData] never raises: falsy data or a falsy
    [result] give the failure result "Invalid event data format", an
    exception of the body is turned into the failure result that quotes
    its message, and a truthy [result] that is not an array fails on
    [result.map]. *)
Theorem transformEventData_never_raises now data sportName :
  (exists r, transformEventData now data sportName = Normal r) /\
  (truthy data = false \/ truthy (field data "result") = false ->
   transformEventData now data sportName =
   Normal (EventFailure "Invalid event data format" sportName)) /\
  (forall e,
     truthy data = true -> truthy (field data "result") = true ->
     transformEventData_body now data sportName = Throw e ->
     transformEventData now data sportName =
     Normal (EventFailure ("Error transforming event data: " +:+ error_message e)
               sportName)) /\
  (truthy data = true -> truthy (field data "result") = true ->
   (forall items, field data "result" <> VArr items) ->
   transformEventData now data sportName =
   Normal (EventFailure
             ("Error transforming event data: " +:+ error_message (NotAFunction "map"))
             sportName)).
Proof.
  split; [apply transformEventData_normal|].
  unfold Transformer.transformEventData. split; [|split].
  - intros [H|H].
    + rewrite H. reflexivity.
    + destruct (truthy data) eqn:E; simpl; [|reflexivity].
      rewrite (get_truthy _ _ E). simpl. rewrite H. reflexivity.
  - intros e E R B. rewrite E. simpl.
    rewrite (get_truthy _ _ E). simpl. rewrite R. simpl.
    rewrite B. reflexivity.
  - intros E R NA. rewrite E. simpl.
    rewrite (get_truthy _ _ E). simpl. rewrite R. simpl.
    assert (B : transformEventData_body now data sportName = Throw (NotAFunction "map")).
    { unfold Transformer.transformEventData_body.
      rewrite (get_truthy _ _ E). simpl.
      set (result := field data "result") in *.
      assert (T1 : truthy (or_else (first_item result) (VObj [])) = true).
      { unfold or_else. destruct (truthy (first_item result)) eqn:X; [exact X|reflexivity]. }
      rewrite (get_truthy _ _ T1). simpl.
      destruct result; simpl in R; try discriminate; try reflexivity.
      exfalso. exact (NA _ eq_refl). }
    rewrite B. reflexivity.
Qed.

End Events.

Lemma map_items_transformMarket items :
  exists l, map_items transformMarket items = Normal l /\ keep_markets l = transformed items.
Proof.
  induction items as [|x items (l & Hl & Hk)]; cbn [map_items].
  - exists []. auto.
  - destruct (transformMarket_normal x) as (o & Ho). rewrite Ho, Hl. cbn [bind].
    eexists. split; [reflexivity|]. unfold keep_markets, transformed in *.
    cbn [flat_map]. rewrite Ho, Hk. reflexivity.
Qed.

Lemma transformed_length items : (length (transformed items) <= length items)%nat.
Proof.
  unfold transformed. induction items as [|x items IH]; simpl; [lia|].
  destruct (transformMarket x) as [[m|]|]; simpl; lia.
Qed.

Lemma transformed_In items m :
  In m (transformed items) <-> exists r, In r items /\ transformMarket r = Normal (Some m).
Proof.
  unfold transformed. rewrite in_flat_map. split.
  - intros (r & I & H). exists r. split; [exact I|].
    destruct (transformMarket r) as [[m'|]|]; simpl in H; try contradiction.
    destruct H as [->|[]]. reflexivity.
  - intros (r & I & H). exists r. split; [exact I|]. rewrite H. simpl. auto.
Qed.

Lemma filter_items_defined {X} (p : X -> completion bool) l r :
  filter_items p l = Normal r -> forall x, In x l -> exists b, p x = Normal b.
Proof.
  revert r. induction l as [|y l IH]; simpl; intros r H x I; [contradiction|].
  inv_bind H. inv_bind H. destruct I as [<-|I]; [eauto|]. exact (IH _ E0 x I).
Qed.

Lemma is_other_false m :
  is_other m = Normal false ->
  named "Match Odds" m = true \/ named "Tied Match" m = true \/
  name_includes (Market.name m) "Over/Under" = Normal true \/
  name_includes (Market.name m) "Set" = Normal true \/
  name_includes (Market.name m) "Game" = Normal true.
Proof.
  unfold is_other, named. intros H.
  destruct (strict_eq_str (Market.name m) "Match Odds"); [auto|].
  destruct (strict_eq_str (Market.name m) "Tied Match"); [auto|].
  inv_bind H. destruct v; [auto|].
  inv_bind H. destruct v; [auto 6|].
  inv_bind H. destruct v; [auto 6|]. discriminate.
Qed.

Section Events.

Variable date_getTime : value -> completion value.
Variable error_message : error -> string.

Local Abbreviation transformEventData := (transformEventData date_getTime error_message).
Local Abbreviation transformEventData_body := (transformEventData_body date_getTime).

Lemma transformEventData_body_success now data sportName s e ms g t :
  transformEventData now data sportName = Normal (EventSuccess s e ms g t) ->
  truthy data = true /\
  transformEventData_body now data sportName = Normal (EventSuccess s e ms g t).
Proof.
  unfold Transformer.transformEventData. intros H.
  destruct (truthy data) eqn:T; simpl in H; [|discriminate].
  inv_bind H. destruct (truthy v); simpl in H; [|discriminate].
  destruct (transformEventData_body now data sportName) eqn:B;
    simpl in H; [|discriminate].
  injection H as ->. auto.
Qed.

(** X3.  A successful event transform was given an array: its markets
    are the transforms of the records that have one, in order and no
    more than there are records, its sport and timestamp are the
    arguments, and its event block is read from the first record (its
    [event], or [{}]), with the record's [start] as start time when the
    event has no [openDate]. *)
Theorem transformEventData_payload now data sportName s e ms g t :
  transformEventData now data sportName = Normal (EventSuccess s e ms g t) ->
  exists items,
    field data "result" = VArr items /\
    s = sportName /\ t = now /\
    ms = transformed items /\
    (length ms <= length items)%nat /\
    EventInfo.id e = field (event_block items) "id" /\
    EventInfo.name e = field (event_block items) "name" /\
    EventInfo.venue e = field (event_block items) "venue" /\
    EventInfo.inPlay e = or_else (field (first_record_of items) "inPlay") (VBool false) /\
    (truthy (field (event_block items) "openDate") = false ->
     EventInfo.startTime e = field (first_record_of items) "start").
Proof.
  intros H. apply transformEventData_body_success in H as [T H].
  unfold Transformer.transformEventData_body in H.
  inv_bind H. apply get_normal in E as [_ <-].
  inv_bind H. rename E into Hev.
  inv_bind H. rename E into Hmap.
  inv_bind H. rename E into Hg.
  inv_bind H. rename E into Hid.
  inv_bind H. rename E into Hname.
  inv_bind H. rename E into Hvenue.
  inv_bind H. rename E into Hopen.
  inv_bind H. rename E into Hstart.
  inv_bind H. rename E into Hin.
  inv_bind H. inv_bind H. inv_bind H.
  injection H as <- <- <- <- <-.
  apply array_map_items in Hmap as (items & R & Hmap).
  exists items. split; [exact R|]. rewrite R in *. clear R.
  destruct (map_items_transformMarket items) as (l & Hl & Hk).
  assert (l = v0) by congruence. subst l.
  assert (F : first_item (VArr items) = match items with x :: _ => x | [] => VUndefined end).
  { destruct items; reflexivity. }
  rewrite F in *. fold (first_record_of items) in *.
  apply get_normal in Hev as [_ <-]. fold (event_block items) in *.
  apply get_normal in Hid as [_ <-].
  apply get_normal in Hname as [_ <-].
  apply get_normal in Hvenue as [_ <-].
  apply get_normal in Hopen as [_ <-].
  apply get_normal in Hin as [_ <-].
  simpl. repeat split; try reflexivity; try assumption.
  - rewrite Hk. apply transformed_length.
  - intros Z. rewrite Z in Hstart. apply get_normal in Hstart as [_ <-]. reflexivity.
Qed.

(** X4.  In a successful event transform every bucket holds markets of
    the payload only, every market of the payload is in one of the four
    list buckets or is named "Match Odds" or "Tied Match", and
    [matchOdds] and [tiedMatch] are the first markets with those
    names. *)
Theorem buckets_cover_markets now data sportName s e ms g t :
  transformEventData now data sportName = Normal (EventSuccess s e ms g t) ->
  (forall b m, in_bucket g b m -> In m ms) /\
  (forall m, In m ms ->
     in_bucket g OverUnder m \/ in_bucket g Sets m \/ in_bucket g Games m \/
     in_bucket g Other m \/
     named "Match Odds" m = true \/ named "Tied Match" m = true) /\
  Grouped.matchOdds g = List.find (named "Match Odds") ms /\
  Grouped.tiedMatch g = List.find (named "Tied Match") ms.
Proof.
  intros H. apply transformEventData_success in H.
  unfold groupMarkets in H. repeat inv_bind H. injection H as <-. simpl.
  split; [|split; [|split; reflexivity]].
  - intros b m. destruct b; simpl; intros I.
    + apply find_some in I. apply I.
    + apply find_some in I. apply I.
    + apply (filter_items_In _ _ _ E) in I. apply I.
    + apply (filter_items_In _ _ _ E0) in I. apply I.
    + apply (filter_items_In _ _ _ E1) in I. apply I.
    + apply (filter_items_In _ _ _ E2) in I. apply I.
  - intros m I.
    destruct (filter_items_defined _ _ _ E2 m I) as ([|] & O).
    + right. right. right. left. apply (filter_items_In _ _ _ E2). auto.
    + apply is_other_false in O as [O|[O|[O|[O|O]]]]; auto 7.
      * left. apply (filter_items_In _ _ _ E). auto.
      * right. left. apply (filter_items_In _ _ _ E0). auto.
      * right. right. left. apply (filter_items_In _ _ _ E1). auto.
Qed.

Lemma name_includes_outcome name needle :
  (exists b, name_includes name needle = Normal b) \/
  name_includes name needle = Throw (NotAFunction "includes").
Proof. destruct name; simpl; eauto. Qed.

Lemma filter_items_outcome {X} (p : X -> completion bool) l e :
  (forall x, (exists b, p x = Normal b) \/ p x = Throw e) ->
  (exists r, filter_items p l = Normal r) \/ filter_items p l = Throw e.
Proof.
  intros Hp. induction l as [|x l IH]; simpl; [eauto|].
  destruct (Hp x) as [(b & ->)| ->]; simpl; [|auto].
  destruct IH as [(r & ->)| ->]; simpl; eauto.
Qed.

Lemma is_other_outcome m :
  (exists b, is_other m = Normal b) \/ is_other m = Throw (NotAFunction "includes").
Proof.
  unfold is_other.
  destruct (strict_eq_str _ "Match Odds"); [eauto|].
  destruct (strict_eq_str _ "Tied Match"); [eauto|].
  destruct (name_includes_outcome (Market.name m) "Over/Under") as [(b & ->)| ->];
    simpl; [|auto]. destruct b; [eauto|].
  destruct (name_includes_outcome (Market.name m) "Set") as [(b & ->)| ->];
    simpl; [|auto]. destruct b; [eauto|].
  destruct (name_includes_outcome (Market.name m) "Game") as [(b & ->)| ->];
    simpl; eauto.
Qed.

Lemma groupMarkets_outcome ms :
  (exists g, groupMarkets ms = Normal g) \/
  groupMarkets ms = Throw (NotAFunction "includes").
Proof.
  unfold groupMarkets.
  destruct (filter_items_outcome (fun m => name_includes (Market.name m) "Over/Under")
              ms (NotAFunction "includes")) as [(r1 & ->)| ->]; simpl; [| |auto].
  { intros x. apply name_includes_outcome. }
  destruct (filter_items_outcome (fun m => name_includes (Market.name m) "Set")
              ms (NotAFunction "includes")) as [(r2 & ->)| ->]; simpl; [| |auto].
  { intros x. apply name_includes_outcome. }
  destruct (filter_items_outcome (fun m => name_includes (Market.name m) "Game")
              ms (NotAFunction "includes")) as [(r3 & ->)| ->]; simpl; [| |auto].
  { intros x. apply name_includes_outcome. }
  destruct (filter_items_outcome is_other ms (NotAFunction "includes"))
    as [(r4 & ->)| ->]; simpl; [| |auto].
  { intros x. apply is_other_outcome. }
  eauto.
Qed.

(** X5.  One market whose name is a number, a boolean or an object (a
    value without [includes]) makes the whole event transform answer
    with the failure result of the [TypeError], whatever the other
    records are. *)
Theorem unsearchable_name_fails_event now data sportName items r m :
  truthy data = true ->
  field data "result" = VArr items ->
  In r items ->
  transformMarket r = Normal (Some m) ->
  unsearchable (Market.name m) = true ->
  transformEventData now data sportName =
  Normal (EventFailure
            ("Error transforming event data: " +:+ error_message (NotAFunction "includes"))
            sportName).
Proof.
  intros T R I Hm Hu.
  assert (Hn : forall b, name_includes (Market.name m) "Over/Under" <> Normal b).
  { intros b. destruct (Market.name m); simpl in *; discriminate. }
  assert (B : transformEventData_body now data sportName = Throw (NotAFunction "includes")).
  { unfold Transformer.transformEventData_body.
    rewrite (get_truthy _ _ T), R. cbn [bind].
    assert (T1 : truthy (or_else (first_item (VArr items)) (VObj [])) = true).
    { unfold or_else. destruct (truthy (first_item (VArr items))) eqn:X;
        [exact X|reflexivity]. }
    rewrite (get_truthy _ _ T1). cbn [bind].
    unfold array_map, array_method.
    destruct (map_items_transformMarket items) as (l & Hl & Hk).
    rewrite Hl. cbn [bind]. rewrite Hk.
    destruct (groupMarkets_outcome (transformed items)) as [(g & G)|G].
    - exfalso. unfold groupMarkets in G. inv_bind G.
      assert (Im : In m (transformed items)) by (apply transformed_In; eauto).
      destruct (filter_items_defined _ _ _ E m Im) as (b & Hb).
      exact (Hn _ Hb).
    - rewrite G. reflexivity. }
  unfold Transformer.transformEventData. rewrite T. simpl.
  rewrite (get_truthy _ _ T), R. simpl. rewrite B. reflexivity.
Qed.

End Events.

Section Scan.

Variable date_getTime : value -> completion value.

(** What one record does to the tables, in full. *)
Lemma scan_market_detail sportName st r st' :
  (forall k x, assoc k (matches st) = Some x -> object_prototype k = None) ->
  scan_market date_getTime sportName st r = Normal st' ->
  exists comps1,
    (comps1 = competitions st \/
     exists ck, declares r = true /\
                to_string (competition_id r) = Normal ck /\
                lookup (competitions st) ck = Absent /\
                comps1 = add (competitions st) ck (declared r)) /\
    (declares r = true ->
     exists ck, to_string (competition_id r) = Normal ck /\ lookup comps1 ck <> Absent) /\
    match event_key r with
    | None => st' = {| matches := matches st; competitions := comps1 |}
    | Some k =>
        let eventId := field (field r "event") "id" in
        exists matches1 comps2,
          to_string eventId = Normal k /\
          ( (exists x, assoc k (matches st) = Some x) /\ matches1 = matches st /\ comps2 = comps1
            \/
            assoc k (matches st) = None /\
            (exists m0, Match.id m0 = eventId /\ Match.markets m0 = [] /\
                        Match.sport m0 = sportName /\
                        Match.name m0 = field (field r "event") "name" /\
                        Match.venue m0 = field (field r "event") "venue" /\
                        Match.competitionId m0 = competition_id r /\
                        Match.competition m0 = competition_name r /\
                        matches1 = add (matches st) k m0) /\
            ( (exists ck c, truthy (competition_id r) = true /\
                            to_string (competition_id r) = Normal ck /\
                            assoc ck comps1 = Some c /\
                            comps2 = update ck (Competition.push eventId) comps1)
              \/ (comps2 = comps1 /\ has_competition r = false)) ) /\
          exists o, transformMarket r = Normal o /\
            st' = {| matches := match o with
                                | Some m => update k (Match.push_market m) matches1
                                | None => matches1
                                end;
                     competitions := comps2 |}
    end.
Proof.
  intros Hproper H. unfold scan_market in H.
  inv_bind H. rename v into event.
  apply get_normal in E as [Nr Fe].
  unfold event_key, declares. rewrite Nr, Fe. cbn [negb andb].
  destruct (truthy event) eqn:Te; cbn [negb andb] in H |- *.
  2:{ injection H as <-. exists (competitions st). split; [auto|].
      split; [discriminate|]. destruct st; reflexivity. }
  inv_bind H. rename v into eventId.
  apply get_normal in E as [_ Fi]. rewrite Fi.
  destruct (truthy eventId) eqn:Ti; cbn [negb andb] in H |- *.
  2:{ injection H as <-. exists (competitions st). split; [auto|].
      split; [discriminate|]. destruct st; reflexivity. }
  inv_bind H. rename v into competition. apply get_normal in E as [_ Fc].
  inv_bind H. rename v into competitionId. apply get_opt_field in E.
  inv_bind H. rename v into competitionName. apply get_opt_field in E0.
  rewrite <- Fc in E, E0.
  change (competitionId = competition_id r) in E.
  change (competitionName = competition_name r) in E0.
  subst competitionId competitionName. clear Fc competition.
  inv_bind H. rename v into comps1, E into Hc1.
  inv_bind H. rename v into ek, E into Hek. rewrite Hek.
  inv_bind H. rename v into st1, E into Hst1.
  inv_bind H. rename v into o, E into Ho.
  assert (C1 : (comps1 = competitions st \/
     exists ck, has_competition r = true /\
                to_string (competition_id r) = Normal ck /\
                lookup (competitions st) ck = Absent /\
                comps1 = add (competitions st) ck (declared r)) /\
     (has_competition r = true ->
      exists ck, to_string (competition_id r) = Normal ck /\ lookup comps1 ck <> Absent)).
  { fold (has_competition r) in Hc1. destruct (has_competition r) eqn:HC.
    - inv_bind Hc1. rename v into ck.
      destruct (missing (competitions st) ck) eqn:M; injection Hc1 as <-.
      + split.
        * right. exists ck. split; [reflexivity|]. split; [assumption|].
          split; [|reflexivity].
          unfold missing in M. destruct (lookup (competitions st) ck); congruence.
        * intros _. exists ck. split; [assumption|].
          apply missing_true in M as [M1 M2].
          rewrite lookup_absent, assoc_add, M1, String.eqb_refl. intros [? _]. discriminate.
      + split; [auto|]. intros _. exists ck. split; [assumption|].
        unfold missing in M. destruct (lookup (competitions st) ck); congruence.
    - injection Hc1 as <-. split; [auto|discriminate]. }
  destruct C1 as [C1 C1'].
  exists comps1. split; [exact C1|]. split; [exact C1'|]. clear Hc1 C1.
  destruct (object_prototype ek) eqn:P.
  - assert (M : missing (matches st) ek = false).
    { unfold missing, lookup. destruct (assoc ek (matches st)); [reflexivity|].
      rewrite P. reflexivity. }
    rewrite M in Hst1. injection Hst1 as <-. cbn [matches competitions] in H.
    destruct o as [m|]; [|congruence].
    unfold lookup in H. destruct (assoc ek (matches st)) eqn:A.
    + apply Hproper in A. congruence.
    + rewrite P in H. discriminate.
  - cbv zeta.
    destruct (missing (matches st) ek) eqn:M.
    + apply missing_true in M as [M _].
      inv_bind Hst1. apply get_normal in E as [_ Fn].
      inv_bind Hst1. apply get_normal in E as [_ Fv].
      repeat inv_bind Hst1.
      set (m0 := {| Match.id := eventId; Match.name := v; Match.venue := v0;
                    Match.startTime := v2; Match.inPlay := or_else v3 (VBool false);
                    Match.sport := sportName; Match.competitionId := competition_id r;
                    Match.competition := competition_name r; Match.markets := [] |}) in *.
      assert (R : exists comps2, st1 = {| matches := add (matches st) ek m0; competitions := comps2 |} /\
         ((exists ck c, truthy (competition_id r) = true /\
                            to_string (competition_id r) = Normal ck /\
                            assoc ck comps1 = Some c /\
                            comps2 = update ck (Competition.push eventId) comps1)
              \/ (comps2 = comps1 /\ has_competition r = false))).
      { destruct (truthy (competition_id r)) eqn:Tc.
        - inv_bind Hst1. rename v4 into ck.
          unfold lookup in Hst1. destruct (assoc ck comps1) as [c|] eqn:A.
          + injection Hst1 as <-. eexists. split; [reflexivity|].
            left. exists ck, c. auto.
          + destruct (object_prototype ck) eqn:Pc; [discriminate|].
            injection Hst1 as <-. eexists. split; [reflexivity|]. right.
            split; [reflexivity|].
            destruct (has_competition r) eqn:HC; [|reflexivity].
            destruct (C1' eq_refl) as (ck' & Hck & Hl).
            assert (ck' = ck) by congruence. subst ck'.
            exfalso. apply Hl. apply lookup_absent. auto.
        - injection Hst1 as <-. eexists. split; [reflexivity|]. right.
          split; [reflexivity|]. unfold has_competition. rewrite Tc. reflexivity. }
      destruct R as (comps2 & -> & R). cbn [matches competitions] in H.
      exists (add (matches st) ek m0), comps2. split; [reflexivity|]. split.
      * right. split; [assumption|]. split; [|exact R].
        exists m0. repeat split; try reflexivity; auto.
      * exists o. split; [assumption|].
        destruct o as [m|]; [|congruence].
        unfold lookup in H. rewrite assoc_add, M, String.eqb_refl in H.
        congruence.
    + injection Hst1 as <-. cbn [matches competitions] in H.
      assert (A : exists x, assoc ek (matches st) = Some x).
      { unfold missing, lookup in M. destruct (assoc ek (matches st)); [eauto|].
        rewrite P in M. discriminate. }
      exists (matches st), comps1. split; [reflexivity|]. split; [left; auto|].
      exists o. split; [assumption|].
      destruct o as [m|]; [|congruence].
      destruct A as (x & A). unfold lookup in H. rewrite A in H. congruence.
Qed.

End Scan.

Lemma assoc_add_some {A} (o : Dict.t A) k k' a x :
  assoc k o = Some x -> assoc k (add o k' a) = Some x.
Proof. intros H. rewrite assoc_add, H. reflexivity. Qed.

Lemma assoc_add_inv {A} (o : Dict.t A) k k' a x :
  assoc k (add o k' a) = Some x ->
  assoc k o = Some x \/ (assoc k o = None /\ k = k' /\ x = a).
Proof.
  rewrite assoc_add. destruct (assoc k o); [auto|].
  destruct (String.eqb k k') eqn:E; [|discriminate].
  apply String.eqb_eq in E. intros [= <-]. auto.
Qed.

Lemma assoc_update_inv {A} (o : Dict.t A) k k' f x :
  assoc k (update k' f o) = Some x ->
  (k <> k' /\ assoc k o = Some x) \/ (k = k' /\ exists y, assoc k o = Some y /\ x = f y).
Proof.
  rewrite assoc_update. destruct (String.eqb k' k) eqn:E.
  - apply String.eqb_eq in E. subst. destruct (assoc k o); simpl; [|discriminate].
    intros [= <-]. eauto.
  - apply String.eqb_neq in E. intros H. left. split; [congruence|exact H].
Qed.

Lemma assoc_update_some {A} (o : Dict.t A) k k' f x :
  assoc k o = Some x ->
  exists y, assoc k (update k' f o) = Some y /\ (y = x \/ y = f x).
Proof.
  intros H. rewrite assoc_update, H. destruct (String.eqb k' k); simpl; eauto.
Qed.

Lemma assoc_In {A} (o : Dict.t A) k a : assoc k o = Some a -> In (k, a) o.
Proof.
  induction o as [|[k0 a0] o IH]; simpl; [discriminate|].
  destruct (String.eqb k k0) eqn:E.
  - apply String.eqb_eq in E. intros [= <-]. subst. auto.
  - auto.
Qed.

Lemma In_assoc {A} (o : Dict.t A) k a :
  List.NoDup (map fst o) -> In (k, a) o -> assoc k o = Some a.
Proof.
  induction o as [|[k0 a0] o IH]; simpl; intros D I; [contradiction|].
  inversion D as [|? ? N D']; subst.
  destruct I as [[= -> ->]|I].
  - rewrite String.eqb_refl. reflexivity.
  - destruct (String.eqb k k0) eqn:E; [|auto].
    apply String.eqb_eq in E. subst. exfalso. apply N.
    apply in_map_iff. exists (k0, a). auto.
Qed.

Section Scan.

Variable date_getTime : value -> completion value.
Variable localeCompare : string -> string -> Z.
Variable error_message : error -> string.

Local Abbreviation transformSportData :=
  (transformSportData date_getTime localeCompare error_message).

Lemma catalogued_nothing sportName : catalogued sportName [] no_tables.
Proof.
  split; simpl; try discriminate; try contradiction. constructor.
Qed.

Lemma catalogued_step sportName seen st r st' :
  scanned seen st -> catalogued sportName seen st ->
  scan_market date_getTime sportName st r = Normal st' ->
  catalogued sportName (seen ++ [r]) st'.
Proof.
  intros S C H.
  apply scan_market_detail in H; [|intros k x; apply (scanned_proper _ _ _ _ S)].
  destruct H as (comps1 & C1 & D1 & H).
  (* the competitions after the first block *)
  assert (K1 : forall ck c, assoc ck comps1 = Some c ->
            to_string (Competition.id c) = Normal ck /\
            (exists r0, In r0 (seen ++ [r]) /\ declares r0 = true /\
                        Competition.id c = competition_id r0 /\
                        Competition.name c = competition_name r0) /\
            (forall e, In e (Competition.matches c) ->
               exists k m, to_string e = Normal k /\ assoc k (matches st) = Some m /\
                           to_string (Match.competitionId m) = Normal ck)).
  { intros ck c A.
    match goal with
    | |- ?G => assert (Old : assoc ck (competitions st) = Some c -> G)
    end.
    { intros A0. destruct (catalogued_competition _ _ _ C _ _ A0) as (I & r0 & I0 & D0 & E1 & E2).
      split; [exact I|]. split.
      - exists r0. rewrite in_app_iff. auto.
      - intros e He. exact (catalogued_member _ _ _ C _ _ _ A0 He). }
    destruct C1 as [->|(ck0 & Dr & Tk & L & ->)]; [exact (Old A)|].
    apply assoc_add_inv in A as [A|(_ & -> & ->)]; [exact (Old A)|].
    split; [exact Tk|]. split.
    - exists r. rewrite in_app_iff. simpl. auto.
    - simpl. contradiction. }
  assert (N1 : List.NoDup (map fst comps1)).
  { destruct C1 as [->|(ck0 & Dr & Tk & L & ->)]; [apply (catalogued_keys _ _ _ C)|].
    rewrite keys_add. apply NoDup_app_remove_l with (l := []). simpl.
    apply lookup_absent in L as [L _].
    assert (~ In ck0 (map fst (competitions st))) by (rewrite <- assoc_keys; congruence).
    apply Permutation_NoDup with (l := ck0 :: map fst (competitions st)).
    - apply Permutation_cons_append.
    - constructor; [assumption|apply (catalogued_keys _ _ _ C)]. }
  assert (M1 : forall ck, assoc ck (competitions st) <> None -> assoc ck comps1 <> None).
  { intros ck A. destruct C1 as [->|(ck0 & _ & _ & _ & ->)]; [exact A|].
    rewrite assoc_add. destruct (assoc ck (competitions st)); congruence. }
  assert (Dold : forall r0, In r0 seen -> declares r0 = true ->
            exists ck, to_string (competition_id r0) = Normal ck /\
                       (object_prototype ck = None -> assoc ck comps1 <> None)).
  { intros r0 I0 D0. destruct (catalogued_declared _ _ _ C r0 I0 D0) as (ck & Tk & A).
    exists ck. split; [exact Tk|]. intros P. apply M1, A, P. }
  assert (Dnew : declares r = true ->
            exists ck, to_string (competition_id r) = Normal ck /\
                       (object_prototype ck = None -> assoc ck comps1 <> None)).
  { intros Dr. destruct (D1 Dr) as (ck & Tk & L). exists ck. split; [exact Tk|].
    intros P A. apply L. apply lookup_absent. auto. }
  assert (Dall : forall comps2 : Dict.t (Competition.t value),
            (forall ck, assoc ck comps1 <> None -> assoc ck comps2 <> None) ->
            forall r0, In r0 (seen ++ [r]) -> declares r0 = true ->
            exists ck, to_string (competition_id r0) = Normal ck /\
                       (object_prototype ck = None -> assoc ck comps2 <> None)).
  { intros comps2 Mono r0 I0 D0. apply in_app_iff in I0 as [I0|[<-|[]]].
    - destruct (Dold r0 I0 D0) as (ck & Tk & A). exists ck. split; [exact Tk|].
      intros P. apply Mono, A, P.
    - destruct (Dnew D0) as (ck & Tk & A). exists ck. split; [exact Tk|].
      intros P. apply Mono, A, P. }
  assert (Fold : forall k m, assoc k (matches st) = Some m ->
            Match.sport m = sportName /\
            exists r0, first_record k (seen ++ [r]) = Some r0 /\
                Match.id m = field (field r0 "event") "id" /\
                Match.name m = field (field r0 "event") "name" /\
                Match.venue m = field (field r0 "event") "venue" /\
                Match.competitionId m = competition_id r0 /\
                Match.competition m = competition_name r0).
  { intros k m A. destruct (catalogued_match _ _ _ C _ _ A) as (Sp & r0 & F & Rest).
    split; [exact Sp|]. exists r0. split; [|exact Rest].
    rewrite first_record_app, F. reflexivity. }
  destruct (event_key r) as [k0|] eqn:K.
  - cbv zeta in H.
    destruct H as (matches1 & comps2 & Hk0 & Hm & o & Ho & ->).
    (* pushing a market keeps the fields that are catalogued *)
    assert (Push : forall (ms : Dict.t Match.t),
              (forall k m, assoc k ms = Some m ->
                 Match.sport m = sportName /\
                 exists r0, first_record k (seen ++ [r]) = Some r0 /\
                   Match.id m = field (field r0 "event") "id" /\
                   Match.name m = field (field r0 "event") "name" /\
                   Match.venue m = field (field r0 "event") "venue" /\
                   Match.competitionId m = competition_id r0 /\
                   Match.competition m = competition_name r0) ->
              forall k m,
                assoc k (match o with
                         | Some mk => update k0 (Match.push_market mk) ms
                         | None => ms
                         end) = Some m ->
                 Match.sport m = sportName /\
                 exists r0, first_record k (seen ++ [r]) = Some r0 /\
                   Match.id m = field (field r0 "event") "id" /\
                   Match.name m = field (field r0 "event") "name" /\
                   Match.venue m = field (field r0 "event") "venue" /\
                   Match.competitionId m = competition_id r0 /\
                   Match.competition m = competition_name r0).
    { intros ms Hms k m A. destruct o as [mk|]; [|exact (Hms _ _ A)].
      apply assoc_update_inv in A as [[_ A]|(_ & y & A & ->)]; [exact (Hms _ _ A)|].
      exact (Hms _ _ A). }
    assert (Keep : forall (ms : Dict.t Match.t) k m,
              assoc k ms = Some m ->
              exists m', assoc k (match o with
                                  | Some mk => update k0 (Match.push_market mk) ms
                                  | None => ms
                                  end) = Some m' /\
                         Match.competitionId m' = Match.competitionId m).
    { intros ms k m A. destruct o as [mk|]; [|eauto].
      destruct (assoc_update_some ms k k0 (Match.push_market mk) m A) as (y & Hy & [->| ->]);
        eauto. }
    destruct Hm as [((x & A) & -> & ->)|(A & (m0 & Hid & Hmk & Hsp & Hnm & Hvn & Hci & Hcn & ->) & Hc)].
    + split; cbn [matches competitions].
      * apply Push, Fold.
      * intros ck c Ac. destruct (K1 ck c Ac) as (I & D & _). auto.
      * intros ck c e Ac He. destruct (K1 ck c Ac) as (_ & _ & Me).
        destruct (Me e He) as (k & m & Tk & Am & Tc).
        destruct (Keep _ _ _ Am) as (m' & Am' & Ec).
        exists k, m'. rewrite Ec. auto.
      * exact N1.
      * apply Dall. auto.
    + assert (F0 : first_record k0 seen = None).
      { apply first_record_none. intros r0 I0 E0.
        apply (proj2 (scanned_seen localeCompare _ _ k0 S)) in A; [exact A|eauto]. }
      assert (New : forall k m, assoc k (add (matches st) k0 m0) = Some m ->
                 Match.sport m = sportName /\
                 exists r0, first_record k (seen ++ [r]) = Some r0 /\
                   Match.id m = field (field r0 "event") "id" /\
                   Match.name m = field (field r0 "event") "name" /\
                   Match.venue m = field (field r0 "event") "venue" /\
                   Match.competitionId m = competition_id r0 /\
                   Match.competition m = competition_name r0).
      { intros k m Am. apply assoc_add_inv in Am as [Am|(_ & -> & ->)].
        - exact (Fold _ _ Am).
        - split; [exact Hsp|]. exists r. split.
          + rewrite first_record_app, F0, (proj2 (has_key_true k0 r) K). reflexivity.
          + auto. }
      assert (Mono : forall ck, assoc ck comps1 <> None -> assoc ck comps2 <> None).
      { intros ck Ac. destruct Hc as [(ck0 & c0 & _ & _ & _ & ->)|[-> _]]; [|exact Ac].
        rewrite assoc_update. destruct (String.eqb ck0 ck); [|exact Ac].
        destruct (assoc ck comps1); simpl; congruence. }
      split; cbn [matches competitions].
      * apply Push, New.
      * intros ck c Ac.
        destruct Hc as [(ck0 & c0 & _ & _ & _ & ->)|[-> _]].
        -- apply assoc_update_inv in Ac as [[_ Ac]|(_ & y & Ac & ->)];
             destruct (K1 _ _ Ac) as (I & D & _); auto.
        -- destruct (K1 _ _ Ac) as (I & D & _); auto.
      * intros ck c e Ac He.
        assert (Old : forall c1, assoc ck comps1 = Some c1 -> In e (Competition.matches c1) ->
                  exists k m, to_string e = Normal k /\
                    assoc k (match o with
                             | Some mk => update k0 (Match.push_market mk)
                                            (add (matches st) k0 m0)
                             | None => add (matches st) k0 m0
                             end) = Some m /\
                    to_string (Match.competitionId m) = Normal ck).
        { intros c1 A1 I1. destruct (K1 _ _ A1) as (_ & _ & Me).
          destruct (Me e I1) as (k & m & Tk & Am & Tc).
          destruct (Keep _ _ _ (assoc_add_some _ _ k0 m0 _ Am)) as (m' & Am' & Ec).
          exists k, m'. rewrite Ec. auto. }
        destruct Hc as [(ck0 & c0 & Tc & Tk & A0 & ->)|[-> _]]; [|exact (Old _ Ac He)].
        apply assoc_update_inv in Ac as [[_ Ac]|(-> & y & Ac & ->)]; [exact (Old _ Ac He)|].
        simpl in He. apply in_app_iff in He as [He|[<-|[]]]; [exact (Old _ Ac He)|].
        assert (Am : assoc k0 (add (matches st) k0 m0) = Some m0).
        { rewrite assoc_add, A, String.eqb_refl. reflexivity. }
        destruct (Keep _ _ _ Am) as (m' & Am' & Ec).
        exists k0, m'. rewrite Ec, Hci. auto.
      * destruct Hc as [(ck0 & c0 & _ & _ & _ & ->)|[-> _]]; [|exact N1].
        rewrite keys_update. exact N1.
      * apply Dall, Mono.
  - subst st'. split; cbn [matches competitions].
    + exact Fold.
    + intros ck c Ac. destruct (K1 ck c Ac) as (I & D & _). auto.
    + intros ck c e Ac He. destruct (K1 ck c Ac) as (_ & _ & Me). exact (Me e He).
    + exact N1.
    + apply Dall. auto.
Qed.

Lemma tables_for_each sportName items seen st st' :
  scanned seen st -> catalogued sportName seen st ->
  for_each (scan_market date_getTime sportName) st items = Normal st' ->
  scanned (seen ++ items) st' /\ catalogued sportName (seen ++ items) st'.
Proof.
  revert seen st. induction items as [|r items IH]; simpl; intros seen st S C H.
  - injection H as <-. rewrite app_nil_r. auto.
  - inv_bind H. replace (seen ++ r :: items) with ((seen ++ [r]) ++ items)
      by (rewrite <- app_assoc; reflexivity).
    eapply IH; [| |exact H].
    + eapply scanned_step; eassumption.
    + eapply catalogued_step; eassumption.
Qed.

Lemma transformSportData_tables now data sportName s cs n t :
  transformSportData now data sportName = Normal (SportSuccess s cs n t) ->
  exists items st competitionsArray,
    field data "result" = VArr items /\
    scanned items st /\ catalogued sportName items st /\
    map_list (resolve_competition (matches st)) (values (competitions st))
    = Normal competitionsArray /\
    array_sort (compare_names localeCompare) competitionsArray = Normal cs /\
    n = Dict.size (matches st) /\ s = sportName /\ t = now.
Proof.
  unfold Transformer.transformSportData. intros H.
  destruct (truthy data) eqn:T; simpl in H; [|discriminate].
  inv_bind H. apply get_normal in E as [_ F].
  destruct (truthy v); simpl in H; [|discriminate].
  destruct (transformSportData_body _ _ now data sportName) eqn:B;
    simpl in H; [|discriminate].
  injection H as ->. unfold transformSportData_body in B.
  inv_bind B. apply get_normal in E as [_ F']. rewrite F in F'. subst v0.
  inv_bind B. rename v0 into st.
  inv_bind B. inv_bind B. injection B as <- <- <- <-.
  destruct v; simpl in E; try discriminate.
  exists items, st, v0.
  destruct (tables_for_each _ _ [] _ _ scanned_nothing (catalogued_nothing sportName) E)
    as [S C].
  split; [exact F|]. split; [exact S|]. split; [exact C|]. auto.
Qed.

End Scan.

Lemma resolve_fields ms c c' :
  resolve_competition ms c = Normal c' ->
  Competition.id c' = Competition.id c /\
  Competition.name c' = Competition.name c /\
  Forall2 (fun e s => exists k, to_string e = Normal k /\ s = lookup ms k)
          (Competition.matches c) (Competition.matches c').
Proof.
  unfold resolve_competition. intros H. inv_bind H. injection H as <-. simpl.
  split; [reflexivity|]. split; [reflexivity|].
  apply map_items_Forall2 in E.
  induction E as [|e s es ss He _ IH]; constructor; [|exact IH].
  apply bind_normal in He as (k & Hk & He). injection He as <-. eauto.
Qed.

Lemma Forall2_left {X Y} (R : X -> Y -> Prop) l r x :
  Forall2 R l r -> In x l -> exists y, In y r /\ R x y.
Proof.
  induction 1 as [|x' y l r Hxy _ IH]; simpl; [contradiction|].
  intros [<-|I]; [eauto|]. destruct (IH I) as (y' & ? & ?). eauto.
Qed.

Lemma Forall2_length_eq {X Y} (R : X -> Y -> Prop) l r :
  Forall2 R l r -> length l = length r.
Proof. induction 1; simpl; congruence. Qed.

Lemma listing_length comps :
  length (listing comps) =
  list_sum (map (fun c => length (Competition.matches c)) (map snd comps)).
Proof.
  unfold listing. induction comps as [|[ck c] comps IH]; simpl; [reflexivity|].
  rewrite length_app, length_map, IH. reflexivity.
Qed.

Lemma NoDup_map_Some {X} (l : list X) : List.NoDup l -> List.NoDup (map Some l).
Proof.
  induction 1 as [|x l N D IH]; simpl; constructor; [|exact IH].
  intros I. apply in_map_iff in I as (y & [= ->] & I). contradiction.
Qed.

Section Scan.

Variable date_getTime : value -> completion value.
Variable localeCompare : string -> string -> Z.
Variable error_message : error -> string.

Local Abbreviation transformSportData :=
  (transformSportData date_getTime localeCompare error_message).

(** The competitions of a result are the stored ones, resolved. *)
Lemma result_competitions (st : tables) cs0 cs :
  List.NoDup (map fst (competitions st)) ->
  map_list (resolve_competition (matches st)) (values (competitions st)) = Normal cs0 ->
  array_sort (compare_names localeCompare) cs0 = Normal cs ->
  (forall c', In c' cs ->
     exists ck c, assoc ck (competitions st) = Some c /\
                  resolve_competition (matches st) c = Normal c') /\
  (forall ck c, assoc ck (competitions st) = Some c ->
     exists c', In c' cs /\ resolve_competition (matches st) c = Normal c').
Proof.
  intros D R Hs. apply array_sort_perm in Hs. apply map_list_Forall2 in R. split.
  - intros c' I. apply (Permutation_in _ Hs) in I.
    destruct (Forall2_right _ _ _ _ R I) as (c & Ic & Hc).
    apply (Permutation_in _ (values_perm _)) in Ic.
    apply in_map_iff in Ic as ([ck c0] & <- & Ic).
    exists ck, c0. split; [apply In_assoc; assumption|exact Hc].
  - intros ck c A. apply assoc_In in A.
    assert (Ic : In c (values (competitions st))).
    { apply (Permutation_in _ (Permutation_sym (values_perm _))).
      apply in_map_iff. exists (ck, c). auto. }
    destruct (Forall2_left _ _ _ _ R Ic) as (c' & I' & Hc).
    exists c'. split; [|exact Hc].
    apply (Permutation_in _ (Permutation_sym Hs)). exact I'.
Qed.

Lemma listed_matches_fields now data sportName s cs n t :
  transformSportData now data sportName = Normal (SportSuccess s cs n t) ->
  exists items,
    field data "result" = VArr items /\
    forall c slot, In c cs -> In slot (Competition.matches c) ->
      exists m k r,
        slot = Own m /\
        to_string (Match.id m) = Normal k /\
        first_record k items = Some r /\
        Match.sport m = sportName /\
        Match.id m = field (field r "event") "id" /\
        Match.name m = field (field r "event") "name" /\
        Match.venue m = field (field r "event") "venue" /\
        Match.competitionId m = competition_id r /\
        Match.competition m = competition_name r /\
        key_of (Match.competitionId m) = key_of (Competition.id c).
Proof.
  intros H. apply transformSportData_tables in H
    as (items & st & cs0 & F & S & C & R & Hs & _).
  exists items. split; [exact F|]. intros c' slot Ic Is.
  destruct (result_competitions st cs0 cs (catalogued_keys _ _ _ C) R Hs) as [Res _].
  destruct (Res c' Ic) as (ck & c & A & Hc).
  apply resolve_fields in Hc as (Eid & _ & F2).
  destruct (Forall2_right _ _ _ _ F2 Is) as (e & Ie & k' & Tk' & ->).
  destruct (catalogued_member _ _ _ C _ _ _ A Ie) as (k & m & Tk & Am & Tc).
  assert (k' = k) by congruence. subst k'.
  destruct (catalogued_match _ _ _ C _ _ Am) as (Sp & r & Fr & E1 & E2 & E3 & E4 & E5).
  destruct (scanned_markets _ _ S _ _ Am) as [Ti _].
  destruct (catalogued_competition _ _ _ C _ _ A) as (Tck & _).
  exists m, k, r. rewrite (lookup_own _ _ _ Am).
  repeat split; try assumption.
  unfold key_of. rewrite Eid, Tc, Tck. reflexivity.
Qed.

(** X6.  The competitions of a successful sport transform have pairwise
    distinct id keys; each carries the id and name of a record that
    declares a competition (truthy event, event id, competition id and
    competition name); and every declaring record whose competition key
    is not a property of [Object.prototype] has its competition in the
    result. *)
Theorem competitions_distinct_and_declared now data sportName s cs n t :
  transformSportData now data sportName = Normal (SportSuccess s cs n t) ->
  exists items,
    field data "result" = VArr items /\
    List.NoDup (map (fun c => key_of (Competition.id c)) cs) /\
    (forall c, In c cs ->
       exists r, In r items /\ declares r = true /\
                 Competition.id c = competition_id r /\
                 Competition.name c = competition_name r) /\
    (forall r ck, In r items -> declares r = true ->
       to_string (competition_id r) = Normal ck -> object_prototype ck = None ->
       exists c, In c cs /\ key_of (Competition.id c) = Some ck).
Proof.
  intros H. apply transformSportData_tables in H
    as (items & st & cs0 & F & S & C & R & Hs & _).
  exists items. split; [exact F|].
  destruct (result_competitions st cs0 cs (catalogued_keys _ _ _ C) R Hs) as [Res Res'].
  split; [|split].
  - apply (Permutation_NoDup
             (l := map (fun c => key_of (Competition.id c)) cs0)).
    { apply Permutation_map, Permutation_sym, array_sort_perm with (1 := Hs). }
    assert (E : map (fun c => key_of (Competition.id c)) cs0 =
                map (fun c => key_of (Competition.id c)) (values (competitions st))).
    { apply map_list_Forall2 in R. clear - R.
      induction R as [|c c' l l' Hc _ IH]; simpl; [reflexivity|].
      apply resolve_fields in Hc as (-> & _). f_equal. exact IH. }
    rewrite E.
    apply (Permutation_NoDup
             (l := map (fun c => key_of (Competition.id c)) (map snd (competitions st)))).
    { apply Permutation_map, Permutation_sym, values_perm. }
    rewrite map_map.
    assert (E2 : map (fun x => key_of (Competition.id (snd x))) (competitions st) =
                 map (fun x => Some (fst x)) (competitions st)).
    { apply map_ext_in. intros [ck c] I. simpl.
      apply (In_assoc _ _ _ (catalogued_keys _ _ _ C)) in I.
      destruct (catalogued_competition _ _ _ C _ _ I) as (Tk & _).
      unfold key_of. rewrite Tk. reflexivity. }
    rewrite E2, <- (map_map fst Some).
    apply NoDup_map_Some, (catalogued_keys _ _ _ C).
  - intros c' I. destruct (Res c' I) as (ck & c & A & Hc).
    apply resolve_fields in Hc as (-> & -> & _).
    destruct (catalogued_competition _ _ _ C _ _ A) as (_ & r & Ir & D & E1 & E2).
    exists r. auto.
  - intros r ck Ir D Tk P.
    destruct (catalogued_declared _ _ _ C r Ir D) as (ck' & Tk' & A).
    assert (ck' = ck) by congruence. subst ck'.
    destruct (assoc ck (competitions st)) as [c|] eqn:Ac; [|exfalso; exact (A P eq_refl)].
    destruct (Res' _ _ Ac) as (c' & I' & Hc).
    exists c'. split; [exact I'|].
    apply resolve_fields in Hc as (-> & _).
    destruct (catalogued_competition _ _ _ C _ _ Ac) as (Tc & _).
    unfold key_of. rewrite Tc. reflexivity.
Qed.

Lemma listed_count_bound now data sportName s cs n t :
  transformSportData now data sportName = Normal (SportSuccess s cs n t) ->
  (list_sum (map (fun c => length (Competition.matches c)) cs) <= n)%nat.
Proof.
  intros H. apply transformSportData_tables in H
    as (items & st & cs0 & F & S & C & R & Hs & -> & _).
  rewrite (list_sum_perm _ _ _ (array_sort_perm _ _ _ Hs)).
  assert (E : map (fun c => length (Competition.matches c)) cs0 =
              map (fun c => length (Competition.matches c)) (values (competitions st))).
  { apply map_list_Forall2 in R. clear - R.
    induction R as [|c c' l l' Hc _ IH]; simpl; [reflexivity|].
    apply resolve_fields in Hc as (_ & _ & F2).
    rewrite (Forall2_length_eq _ _ _ F2). f_equal. exact IH. }
  rewrite E, (list_sum_perm _ _ _ (values_perm _)), <- listing_length.
  unfold Dict.size.
  assert (L : (length (listing (competitions st))
               <= length (map Some (map fst (matches st))))%nat).
  { apply NoDup_incl_length; [apply (scanned_once _ _ S)|].
    intros e He. destruct (scanned_listed _ _ S e He) as (k & -> & Ik).
    apply in_map. exact Ik. }
  rewrite !List.length_map in L. exact L.
Qed.

(** X7.  In a successful sport transform every entry of every
    competition's [matches] is a match object (never [undefined]) of the
    requested sport, whose id, name, venue, competition id and
    competition name are those of the first record of its event and
    whose competition id has the key of the competition that lists it;
    and the competitions list no more entries than [matchCount]. *)
Theorem listed_matches_are_catalogued now data sportName s cs n t :
  transformSportData now data sportName = Normal (SportSuccess s cs n t) ->
  exists items,
    field data "result" = VArr items /\
    (forall c slot, In c cs -> In slot (Competition.matches c) ->
       exists m k r,
         slot = Own m /\
         to_string (Match.id m) = Normal k /\
         first_record k items = Some r /\
         Match.sport m = sportName /\
         Match.id m = field (field r "event") "id" /\
         Match.name m = field (field r "event") "name" /\
         Match.venue m = field (field r "event") "venue" /\
         Match.competitionId m = competition_id r /\
         Match.competition m = competition_name r /\
         key_of (Match.competitionId m) = key_of (Competition.id c)) /\
    (list_sum (map (fun c => length (Competition.matches c)) cs) <= n)%nat.
Proof.
  intros H. destruct (listed_matches_fields _ _ _ _ _ _ _ H) as (items & F & L).
  exists items. split; [exact F|]. split; [exact L|].
  exact (listed_count_bound _ _ _ _ _ _ _ H).
Qed.

End Scan.

Lemma get_opt_value v k :
  get_opt v k = Normal (if nullish v then VUndefined else field v k).
Proof.
  unfold get_opt. destruct (nullish v) eqn:N; [reflexivity|]. apply get_field, N.
Qed.

Lemma lookup_plain {A} (o : Dict.t A) k :
  object_prototype k = None ->
  (exists a, lookup o k = Own a /\ assoc k o = Some a) \/
  (lookup o k = Absent /\ assoc k o = None).
Proof.
  intros P. unfold lookup. destruct (assoc k o); [eauto|]. rewrite P. auto.
Qed.

Lemma update_In {A} (o : Dict.t A) k f k' a :
  In (k', a) (update k f o) -> exists b, In (k', b) o /\ (a = b \/ a = f b).
Proof.
  induction o as [|[k0 a0] o IH]; simpl; [contradiction|].
  destruct (String.eqb k k0).
  - intros [[= <- <-]|I]; eauto.
  - intros [[= <- <-]|I]; [eauto|]. destruct (IH I) as (b & ? & ?). eauto.
Qed.

Lemma update_In_pushed {A} (o : Dict.t A) k f k' a :
  In (k', a) (update k f o) ->
  In (k', a) o \/ (k' = k /\ exists b, In (k', b) o /\ a = f b).
Proof.
  induction o as [|[k0 a0] o IH]; simpl; [contradiction|].
  destruct (String.eqb k k0) eqn:E.
  - apply String.eqb_eq in E. subst k0. intros [[= <- <-]|I]; [|auto].
    right. split; [reflexivity|]. eauto.
  - intros [[= <- <-]|I]; [auto|]. destruct (IH I) as [?|(-> & b & ? & ?)]; [auto|].
    right. split; [reflexivity|]. eauto.
Qed.

Section Scan.

Variable date_getTime : value -> completion value.
Variable localeCompare : string -> string -> Z.
Variable error_message : error -> string.

Local Abbreviation transformSportData :=
  (transformSportData date_getTime localeCompare error_message).

Lemma scan_market_well_formed sportName st r :
  well_formed date_getTime r -> presentable st ->
  exists st', scan_market date_getTime sportName st r = Normal st' /\ presentable st'.
Proof.
  intros [N W] P. unfold scan_market.
  rewrite (get_field _ _ N). cbn [bind].
  destruct (truthy (field r "event")) eqn:Te; cbn [negb]; [|eauto].
  rewrite (get_truthy _ _ Te). cbn [bind].
  destruct (truthy (field (field r "event") "id")) eqn:Ti; cbn [negb]; [|eauto].
  destruct (W eq_refl eq_refl) as ((ek & Tek & Pek) & Wc & Wn & Wd). clear W.
  rewrite (get_field _ _ N). cbn [bind].
  rewrite !get_opt_value. cbn [bind].
  fold (competition_id r). fold (competition_name r). fold (has_competition r).
  (* store competition info *)
  assert (C1 : exists comps1,
            (if has_competition r
             then let! ck := to_string (competition_id r)
                  in (if missing (competitions st) ck
                      then Normal (add (competitions st) ck
                             {| Competition.id := competition_id r;
                                Competition.name := competition_name r;
                                Competition.matches := [] |})
                      else Normal (competitions st))
             else Normal (competitions st)) = Normal comps1 /\
            presentable {| matches := matches st; competitions := comps1 |}).
  { destruct (has_competition r) eqn:HC; [|exists (competitions st); split; [reflexivity|exact P]].
    assert (Tc : truthy (competition_id r) = true).
    { unfold has_competition in HC. apply andb_true_iff in HC. apply HC. }
    destruct (Wc Tc) as (ck & Tck & _). rewrite Tck. cbn [bind].
    destruct (missing (competitions st) ck); eexists; (split; [reflexivity|]);
      [|exact P].
    intros ck' c I. cbn [competitions] in I. unfold add in I.
    apply in_app_iff in I as [I|[[= <- <-]|[]]]; [exact (P _ _ I)|].
    simpl. split; [exact (Wn eq_refl)|contradiction]. }
  destruct C1 as (comps1 & -> & P1). cbn [bind].
  rewrite Tek. cbn [bind].
  (* create or update the match entry *)
  match goal with
  | |- exists st', bind ?X _ = _ /\ _ =>
      assert (M1 : exists st1, X = Normal st1 /\
                presentable st1 /\ (exists x, lookup (matches st1) ek = Own x))
  end.

  { destruct (lookup_plain (matches st) ek Pek) as [(x & L & A)|[L A]].
    - unfold missing. rewrite L. eexists. split; [reflexivity|]. split; [exact P1|].
      cbn [matches]. eauto.
    - unfold missing. rewrite L.
      rewrite !(get_truthy _ _ Te). cbn [bind].
      assert (St : exists x, (if truthy (field (field r "event") "openDate")
                              then date_getTime (field (field r "event") "openDate")
                              else get r "start") = Normal x).
      { destruct (truthy (field (field r "event") "openDate")) eqn:To; [exact (Wd eq_refl)|].
        rewrite (get_field _ _ N). eauto. }
      destruct St as (startTime & ->). cbn [bind].
      rewrite (get_field _ _ N). cbn [bind].
      set (m0 := {| Match.id := _ |}).
      assert (Lk : lookup (add (matches st) ek m0) ek = Own m0).
      { apply lookup_own. rewrite assoc_add, A, String.eqb_refl. reflexivity. }
      destruct (truthy (competition_id r)) eqn:Tc.
      + destruct (Wc eq_refl) as (ck & Tck & Pck). rewrite Tck. cbn [bind].
        destruct (lookup_plain comps1 ck Pck) as [(c & -> & Ac)|[-> Ac]].
        * eexists. split; [reflexivity|]. split; [|cbn [matches]; eauto].
          intros ck' c' I. cbn [competitions] in I.
          apply update_In in I as (b & Ib & [->| ->]); [exact (P1 _ _ Ib)|].
          destruct (P1 _ _ Ib) as [Hn He]. simpl. split; [exact Hn|].
          intros e Ie. apply in_app_iff in Ie as [Ie|[<-|[]]]; [exact (He e Ie)|].
          eauto.
        * eexists. split; [reflexivity|]. split; [exact P1|cbn [matches]; eauto].
      + eexists. split; [reflexivity|]. split; [exact P1|cbn [matches]; eauto]. }
  destruct M1 as (st1 & -> & P2 & x & Lx). cbn [bind].
  destruct (transformMarket_normal r) as ([m|] & ->); cbn [bind].
  - rewrite Lx. eexists. split; [reflexivity|]. exact P2.
  - eexists. split; [reflexivity|]. exact P2.
Qed.

Lemma for_each_well_formed sportName items st :
  Forall (well_formed date_getTime) items -> presentable st ->
  exists st', for_each (scan_market date_getTime sportName) st items = Normal st' /\
              presentable st'.
Proof.
  intros W. revert st. induction W as [|r items Wr _ IH]; simpl; intros st P; [eauto|].
  destruct (scan_market_well_formed sportName st r Wr P) as (st1 & -> & P1).
  cbn [bind]. apply IH, P1.
Qed.

Lemma map_list_total {X Y} (f : X -> completion Y) (Q : Y -> Prop) l :
  (forall x, In x l -> exists y, f x = Normal y /\ Q y) ->
  exists r, map_list f l = Normal r /\ Forall Q r.
Proof.
  induction l as [|x l IH]; simpl; intros H; [eauto|].
  destruct (H x (or_introl eq_refl)) as (y & -> & Qy). cbn [bind].
  destruct IH as (r & -> & Qr); [intros x' I; apply H; auto|]. cbn [bind].
  eauto.
Qed.

Lemma map_items_total {Y} (f : value -> completion Y) l :
  (forall x, In x l -> exists y, f x = Normal y) ->
  exists r, map_items f l = Normal r.
Proof.
  induction l as [|x l IH]; simpl; intros H; [eauto|].
  destruct (H x (or_introl eq_refl)) as (y & ->). cbn [bind].
  destruct IH as (r & ->); [intros x' I; apply H; auto|]. cbn [bind]. eauto.
Qed.

Lemma insert_sorted_total {M} (a : Competition.t M) l :
  string_named a -> Forall string_named l ->
  exists r, insert_sorted (compare_names localeCompare) a l = Normal r /\
            Forall string_named r.
Proof.
  intros Ha Hl. induction Hl as [|b l Hb Hl IH]; simpl; [eauto|].
  unfold compare_names at 1. destruct Ha as (s & Ea). rewrite Ea.
  destruct Hb as (s' & Eb). rewrite Eb. simpl.
  destruct (localeCompare s s' <? 0)%Z.
  - eexists. split; [reflexivity|].
    constructor; [exists s; exact Ea|]. constructor; [exists s'; exact Eb|exact Hl].
  - destruct IH as (r & -> & Hr). cbn [bind]. eexists. split; [reflexivity|].
    constructor; [exists s'; exact Eb|exact Hr].
Qed.

Lemma sort_into_total {M} (placed l : list (Competition.t M)) :
  Forall string_named placed -> Forall string_named l ->
  exists r, sort_into (compare_names localeCompare) placed l = Normal r.
Proof.
  intros Hp Hl. revert placed Hp. induction Hl as [|a l Ha Hl IH]; simpl; intros placed Hp; [eauto|].
  destruct (insert_sorted_total a placed Ha Hp) as (r & -> & Hr). cbn [bind].
  apply IH, Hr.
Qed.

Lemma plain_keyb_sound v : plain_keyb v = true -> plain_key v.
Proof.
  unfold plain_keyb, plain_key. destruct (to_string v) as [k|]; [|discriminate].
  destruct (object_prototype k) eqn:P; [discriminate|]. eauto.
Qed.

Lemma well_formedb_sound r : well_formedb date_getTime r = true -> well_formed date_getTime r.
Proof.
  unfold well_formedb, well_formed. intros H.
  apply andb_true_iff in H as [N H]. apply negb_true_iff in N.
  split; [exact N|]. intros Te Ti. rewrite Te, Ti in H. cbn [andb negb orb] in H.
  apply andb_true_iff in H as [H Hd]. apply andb_true_iff in H as [H Hn].
  apply andb_true_iff in H as [Hk Hc].
  split; [apply plain_keyb_sound, Hk|]. split; [|split].
  - intros Tc. rewrite Tc in Hc. apply plain_keyb_sound, Hc.
  - intros Hh. rewrite Hh in Hn. cbn [negb orb] in Hn.
    destruct (competition_name r); try discriminate. eauto.
  - intros To. rewrite To in Hd. cbn [negb orb] in Hd.
    destruct (date_getTime _); [eauto|discriminate].
Qed.

(** X8.  The sport transform succeeds, with the requested sport and the
    clock as timestamp, on every payload whose [result] is an array of
    well-formed records: none is [null], and where a record has an event
    with an id, that id and the competition id have string forms that
    are not properties of [Object.prototype], the name of a declared
    competition is a string, and [openDate] is accepted by [Date]. *)
Theorem transformSportData_succeeds now data sportName items :
  truthy data = true ->
  field data "result" = VArr items ->
  forallb (well_formedb date_getTime) items = true ->
  exists cs n, transformSportData now data sportName = Normal (SportSuccess sportName cs n now).
Proof.
  intros T R Wb.
  assert (W : Forall (well_formed date_getTime) items).
  { apply List.Forall_forall. intros r I. apply well_formedb_sound.
    rewrite forallb_forall in Wb. exact (Wb r I). }
  unfold Transformer.transformSportData, transformSportData_body.
  rewrite T. cbn [negb]. rewrite (get_truthy _ _ T), R. cbn [bind truthy negb].
  unfold array_method.
  destruct (for_each_well_formed sportName items no_tables W) as (st & -> & P).
  { intros ck c []. }
  cbn [bind].
  destruct (map_list_total (resolve_competition (matches st)) string_named
              (values (competitions st))) as (cs0 & -> & Hn).
  { intros c Ic. apply (Permutation_in _ (values_perm _)) in Ic.
    apply in_map_iff in Ic as ([ck c0] & <- & Ic). simpl.
    destruct (P _ _ Ic) as [Hname He].
    unfold resolve_competition.
    destruct (map_items_total
                (fun matchId => let! k := to_string matchId in Normal (lookup (matches st) k))
                (Competition.matches c0)) as (slots & ->).
    { intros e Ie. destruct (He e Ie) as (k & ->). cbn [bind]. eauto. }
    cbn [bind]. eexists. split; [reflexivity|]. exact Hname. }
  cbn [bind]. unfold array_sort.
  destruct (sort_into_total [] cs0 (List.Forall_nil _) Hn) as (cs & ->).
  cbn [bind try_catch]. eauto.
Qed.

End Scan.

(** X1, witness: a market with one runner. *)
Lemma transformMarket_mirrors_record_witness :
  exists m,
    transformMarket Examples.priced = Normal (Some m) /\
    exists runners,
      field Examples.priced "runners" = VArr runners /\
      Forall2 mirrors_runner runners (Market.runners m) /\
      Market.id m = field Examples.priced "id" /\
      Market.name m = field Examples.priced "name" /\
      Market.status m = field Examples.priced "status" /\
      Market.totalMatched m = field Examples.priced "matched" /\
      Market.marketType m = field Examples.priced "mtype" /\
      Market.inPlay m = or_else (field Examples.priced "inPlay") (VBool false) /\
      In (Market.sport m) ["football"; "tennis"; "cricket"; "unknown"].
Proof.
  eexists. split; [reflexivity|].
  apply (proj1 (proj2 (transformMarket_mirrors_record Examples.priced))).
  reflexivity.
Defined.

(** X3, witness: an event payload of three records. *)
Lemma transformEventData_payload_witness :
  exists e ms g,
    Transformer.transformEventData Sample.date_getTime Sample.error_message
      5 (Sample.payload Sample.two_leagues) "cricket"
    = Normal (EventSuccess "cricket" e ms g 5) /\
    exists items,
      field (Sample.payload Sample.two_leagues) "result" = VArr items /\
      "cricket" = "cricket" /\ 5 = 5 /\
      ms = transformed items /\
      (length ms <= length items)%nat /\
      EventInfo.id e = field (event_block items) "id" /\
      EventInfo.name e = field (event_block items) "name" /\
      EventInfo.venue e = field (event_block items) "venue" /\
      EventInfo.inPlay e = or_else (field (first_record_of items) "inPlay") (VBool false) /\
      (truthy (field (event_block items) "openDate") = false ->
       EventInfo.startTime e = field (first_record_of items) "start").
Proof.
  eexists _, _, _. split; [reflexivity|].
  eapply (transformEventData_payload Sample.date_getTime Sample.error_message
            5 (Sample.payload Sample.two_leagues) "cricket").
  reflexivity.
Defined.

(** X4, witness: the same payload. *)
Lemma buckets_cover_markets_witness :
  exists e ms g t,
    Transformer.transformEventData Sample.date_getTime Sample.error_message
      5 (Sample.payload Sample.two_leagues) "cricket"
    = Normal (EventSuccess "cricket" e ms g t) /\
    (forall b m, in_bucket g b m -> In m ms) /\
    (forall m, In m ms ->
       in_bucket g OverUnder m \/ in_bucket g Sets m \/ in_bucket g Games m \/
       in_bucket g Other m \/
       named "Match Odds" m = true \/ named "Tied Match" m = true) /\
    Grouped.matchOdds g = List.find (named "Match Odds") ms /\
    Grouped.tiedMatch g = List.find (named "Tied Match") ms.
Proof.
  eexists _, _, _, _. split; [reflexivity|].
  eapply (buckets_cover_markets Sample.date_getTime Sample.error_message
            5 (Sample.payload Sample.two_leagues) "cricket").
  reflexivity.
Defined.

(** X5, witness: a market named [7] behind an ordinary one. *)
Lemma unsearchable_name_fails_event_witness :
  Transformer.transformEventData Sample.date_getTime Sample.error_message
    5 (Sample.payload [Sample.record "E1" "Match Odds" None; Examples.numbered]) "cricket"
  = Normal (EventFailure
              ("Error transforming event data: " +:+
               Sample.error_message (NotAFunction "includes"))
              "cricket").
Proof.
  eapply (unsearchable_name_fails_event Sample.date_getTime Sample.error_message
            5 (Sample.payload [Sample.record "E1" "Match Odds" None; Examples.numbered])
            "cricket" _ Examples.numbered);
    [reflexivity|reflexivity|simpl; tauto|reflexivity|reflexivity].
Defined.

(** X6, witness: two competitions, declared by three records. *)
Lemma competitions_distinct_and_declared_witness :
  exists cs n t,
    Transformer.transformSportData Sample.date_getTime Sample.localeCompare
      Sample.error_message 0 (Sample.payload Sample.two_leagues) "cricket"
    = Normal (SportSuccess "cricket" cs n t) /\
    exists items,
      field (Sample.payload Sample.two_leagues) "result" = VArr items /\
      List.NoDup (map (fun c => key_of (Competition.id c)) cs) /\
      (forall c, In c cs ->
         exists r, In r items /\ declares r = true /\
                   Competition.id c = competition_id r /\
                   Competition.name c = competition_name r) /\
      (forall r ck, In r items -> declares r = true ->
         to_string (competition_id r) = Normal ck -> object_prototype ck = None ->
         exists c, In c cs /\ key_of (Competition.id c) = Some ck).
Proof.
  eexists _, _, _. split; [reflexivity|].
  eapply (competitions_distinct_and_declared
            Sample.date_getTime Sample.localeCompare Sample.error_message
            0 (Sample.payload Sample.two_leagues) "cricket").
  reflexivity.
Defined.

(** X7, witness: the same payload. *)
Lemma listed_matches_are_catalogued_witness :
  exists cs n t,
    Transformer.transformSportData Sample.date_getTime Sample.localeCompare
      Sample.error_message 0 (Sample.payload Sample.two_leagues) "cricket"
    = Normal (SportSuccess "cricket" cs n t) /\
    exists items,
      field (Sample.payload Sample.two_leagues) "result" = VArr items /\
      (forall c slot, In c cs -> In slot (Competition.matches c) ->
         exists m k r,
           slot = Own m /\
           to_string (Match.id m) = Normal k /\
           first_record k items = Some r /\
           Match.sport m = "cricket" /\
           Match.id m = field (field r "event") "id" /\
           Match.name m = field (field r "event") "name" /\
           Match.venue m = field (field r "event") "venue" /\
           Match.competitionId m = competition_id r /\
           Match.competition m = competition_name r /\
           key_of (Match.competitionId m) = key_of (Competition.id c)) /\
      (list_sum (map (fun c => length (Competition.matches c)) cs) <= n)%nat.
Proof.
  eexists _, _, _. split; [reflexivity|].
  eapply (listed_matches_are_catalogued
            Sample.date_getTime Sample.localeCompare Sample.error_message
            0 (Sample.payload Sample.two_leagues) "cricket").
  reflexivity.
Defined.

(** X8, witness: the records of the sample payload are well formed. *)
Lemma transformSportData_succeeds_witness :
  exists cs n,
    Transformer.transformSportData Sample.date_getTime Sample.localeCompare
      Sample.error_message 9 (Sample.payload Sample.two_leagues) "cricket"
    = Normal (SportSuccess "cricket" cs n 9).
Proof.
  apply (transformSportData_succeeds
           Sample.date_getTime Sample.localeCompare Sample.error_message
           9 (Sample.payload Sample.two_leagues) "cricket" Sample.two_leagues);
    reflexivity.
Defined.

End ShapeFacts.

(** ** The REST routes: keys, statuses and overlapping requests *)

Module RoutesFacts.
Import JS Dict Transformer Server Spec JSFacts DictFacts TransformerFacts ServerFacts.

Lemma fresh_later {P} (cache : gmap string (entry P)) key now now2 ttl :
  (now <= now2)%Z -> fresh cache key now ttl = None -> fresh cache key now2 ttl = None.
Proof.
  unfold fresh. intros L. destruct (cache !! key) as [e|]; [|reflexivity].
  destruct (data e); [|reflexivity].
  destruct (now - timestamp e <? ttl)%Z eqn:A; [discriminate|]. intros _.
  apply Z.ltb_ge in A. assert (B : (now2 - timestamp e <? ttl)%Z = false) by (apply Z.ltb_ge; lia).
  rewrite B. reflexivity.
Qed.

Section Host.

Variable toLowerCase : string -> string.
Variable date_getTime : value -> completion value.
Variable localeCompare : string -> string -> Z.
Variable error_message : error -> string.

Local Abbreviation getSportTypeId := (getSportTypeId toLowerCase).
Local Abbreviation sport_route :=
  (sport_route toLowerCase date_getTime localeCompare error_message).
Local Abbreviation event_route :=
  (event_route toLowerCase date_getTime error_message).
Local Abbreviation sport_route_start := (sport_route_start toLowerCase).
Local Abbreviation sport_route_finish :=
  (sport_route_finish toLowerCase date_getTime localeCompare error_message).
Local Abbreviation transformSportData :=
  (transformSportData date_getTime localeCompare error_message).
Local Abbreviation transformEventData := (transformEventData date_getTime error_message).

(** X9.  [getSportTypeId] always returns a truthy value: the table's id
    for a name that lower-cases to a sport, the host object for one
    that lower-cases to a property of [Object.prototype], and ['4'] for
    every other name. *)
Theorem getSportTypeId_by_table sportName :
  let k := toLowerCase sportName in
  truthy (getSportTypeId sportName) = true /\
  (k = "cricket" -> getSportTypeId sportName = VStr "4") /\
  (k = "football" -> getSportTypeId sportName = VStr "1") /\
  (k = "tennis" -> getSportTypeId sportName = VStr "2") /\
  (k <> "cricket" -> k <> "football" -> k <> "tennis" ->
   match object_prototype k with
   | Some b => getSportTypeId sportName = VBuiltin b
   | None => getSportTypeId sportName = VStr "4"
   end).
Proof.
  intros k. unfold Server.getSportTypeId. fold k. split; [|split; [|split; [|split]]].
  - unfold lookup, SPORT_TYPE_IDS. simpl.
    destruct (String.eqb k "cricket"); [reflexivity|].
    destruct (String.eqb k "football"); [reflexivity|].
    destruct (String.eqb k "tennis"); [reflexivity|].
    destruct (object_prototype k) as [[|]|]; reflexivity.
  - intros ->. reflexivity.
  - intros ->. reflexivity.
  - intros ->. reflexivity.
  - intros H1 H2 H3. unfold lookup, SPORT_TYPE_IDS. simpl.
    apply String.eqb_neq in H1, H2, H3. rewrite H1, H2, H3.
    destruct (object_prototype k) as [[|]|]; reflexivity.
Qed.

(** X10.  [GET /api/event/:sportName/:eventId] answers from the cache,
    sending nothing upstream and changing nothing, while the slot of
    [sportName_eventId] holds a payload younger than 10 seconds; after a
    miss answered by the upstream one request has been sent, calls
    within the 10 seconds return the same payload, and a call after them
    sends one more request. *)
Theorem event_route_serves_fresh_cache now clock sportName eventId eventData st :
  let key := sportName +:+ "_" +:+ eventId in
  (forall cached,
     fresh (eventDataCache st) key now EVENT_TTL = Some cached ->
     event_route now clock sportName eventId eventData st = (ok cached, st)) /\
  (fresh (eventDataCache st) key now EVENT_TTL = None ->
   truthy eventData = true ->
   exists payload st1,
     event_route now clock sportName eventId eventData st = (ok payload, st1) /\
     length (requested st1) = S (length (requested st)) /\
     forall now2 clock2 eventData2,
       ((now2 - now < 10000)%Z ->
        event_route now2 clock2 sportName eventId eventData2 st1 = (ok payload, st1)) /\
       ((10000 <= now2 - now)%Z ->
        length (requested (snd (event_route now2 clock2 sportName eventId eventData2 st1)))
        = S (length (requested st1)))).
Proof.
  intros key. split; [intros cached; apply event_route_hit|].
  intros F T.
  destruct (event_route_miss toLowerCase date_getTime error_message
              now clock sportName eventId eventData st F) as (url & U & R).
  rewrite T in R. destruct R as (payload & _ & R).
  set (st1 := set_event key {| data := Some payload; timestamp := now |} (apiRequest url st)) in *.
  exists payload, st1. split; [exact R|]. split; [reflexivity|].
  intros now2 clock2 eventData2. split; intros W.
  - apply event_route_hit. simpl. rewrite fresh_insert.
    apply Z.ltb_lt in W. unfold EVENT_TTL. rewrite W. reflexivity.
  - destruct (event_route_miss toLowerCase date_getTime error_message
                now2 clock2 sportName eventId eventData2 st1) as (url2 & _ & R2).
    { simpl. rewrite fresh_insert. apply Z.ltb_ge in W. unfold EVENT_TTL. rewrite W.
      reflexivity. }
    destruct (truthy eventData2).
    + destruct R2 as (p2 & _ & ->). reflexivity.
    + rewrite R2. reflexivity.
Qed.

(** X11.  Each of the two routes answers with status 200 or with its
    own failure message, and the status is 500 exactly when the cache
    holds no fresh payload and the upstream reply is falsy: the [catch]
    branch is never taken. *)
Theorem routes_fail_only_without_reply now clock sportName eventId reply st :
  let sport := fst (sport_route now clock sportName reply st) in
  let event := fst (event_route now clock sportName eventId reply st) in
  (status sport = 200 \/ sport = failed ("Failed to fetch " +:+ sportName +:+ " data")) /\
  (status sport = 500 <->
   fresh (sportsDataCache st) (toLowerCase sportName) now CACHE_TTL = None /\
   truthy reply = false) /\
  (status event = 200 \/ event = failed ("Failed to fetch event data for " +:+ eventId)) /\
  (status event = 500 <->
   fresh (eventDataCache st) (sportName +:+ "_" +:+ eventId) now EVENT_TTL = None /\
   truthy reply = false).
Proof.
  cbv zeta.
  assert (S : forall c : option sport_data,
             fresh (sportsDataCache st) (toLowerCase sportName) now CACHE_TTL = c ->
             (status (fst (sport_route now clock sportName reply st)) = 200 \/
              fst (sport_route now clock sportName reply st)
              = failed ("Failed to fetch " +:+ sportName +:+ " data")) /\
             (status (fst (sport_route now clock sportName reply st)) = 500 <->
              c = None /\ truthy reply = false)).
  { intros [cached|] F.
    - rewrite (sport_route_hit toLowerCase date_getTime localeCompare error_message
                 now clock sportName reply st cached F). simpl.
      split; [auto|]. split; [discriminate|intros [? _]; discriminate].
    - destruct (sport_route_miss toLowerCase date_getTime localeCompare error_message
                  now clock sportName reply st F) as (url & _ & R).
      destruct (truthy reply).
      + destruct R as (payload & _ & ->). simpl.
        split; [auto|]. split; [discriminate|intros [_ ?]; discriminate].
      + rewrite R. simpl. split; [auto|]. split; auto. }
  assert (E : forall c : option event_data,
             fresh (eventDataCache st) (sportName +:+ "_" +:+ eventId) now EVENT_TTL = c ->
             (status (fst (event_route now clock sportName eventId reply st)) = 200 \/
              fst (event_route now clock sportName eventId reply st)
              = failed ("Failed to fetch event data for " +:+ eventId)) /\
             (status (fst (event_route now clock sportName eventId reply st)) = 500 <->
              c = None /\ truthy reply = false)).
  { intros [cached|] F.
    - rewrite (event_route_hit toLowerCase date_getTime error_message
                 now clock sportName eventId reply st cached F). simpl.
      split; [auto|]. split; [discriminate|intros [? _]; discriminate].
    - destruct (event_route_miss toLowerCase date_getTime error_message
                  now clock sportName eventId reply st F) as (url & _ & R).
      destruct (truthy reply).
      + destruct R as (payload & _ & ->). simpl.
        split; [auto|]. split; [discriminate|intros [_ ?]; discriminate].
      + rewrite R. simpl. split; [auto|]. split; auto. }
  destruct (S _ eq_refl) as [S1 S2]. destruct (E _ eq_refl) as [E1 E2].
  split; [exact S1|]. split; [exact S2|]. split; [exact E1|exact E2].
Qed.

(** X12.  A request to the sport route leaves the event cache and the
    slots of the other sport keys as they were, and a request to the
    event route leaves the sport cache and the other event slots as they
    were; either sends at most one upstream request. *)
Theorem routes_touch_one_slot now clock sportName eventId reply st :
  let st1 := snd (sport_route now clock sportName reply st) in
  let st2 := snd (event_route now clock sportName eventId reply st) in
  eventDataCache st1 = eventDataCache st /\
  (forall k, k <> toLowerCase sportName -> sportsDataCache st1 !! k = sportsDataCache st !! k) /\
  (requested st1 = requested st \/ exists url, requested st1 = url :: requested st) /\
  sportsDataCache st2 = sportsDataCache st /\
  (forall k, k <> sportName +:+ "_" +:+ eventId ->
             eventDataCache st2 !! k = eventDataCache st !! k) /\
  (requested st2 = requested st \/ exists url, requested st2 = url :: requested st).
Proof.
  cbv zeta.
  assert (S : let st1 := snd (sport_route now clock sportName reply st) in
              eventDataCache st1 = eventDataCache st /\
              (forall k, k <> toLowerCase sportName ->
                         sportsDataCache st1 !! k = sportsDataCache st !! k) /\
              (requested st1 = requested st \/ exists url, requested st1 = url :: requested st)).
  { destruct (fresh (sportsDataCache st) (toLowerCase sportName) now CACHE_TTL)
      as [cached|] eqn:F.
    - rewrite (sport_route_hit toLowerCase date_getTime localeCompare error_message
                 now clock sportName reply st cached F). simpl. auto.
    - destruct (sport_route_miss toLowerCase date_getTime localeCompare error_message
                  now clock sportName reply st F) as (url & _ & R).
      destruct (truthy reply).
      + destruct R as (payload & _ & ->). simpl.
        split; [reflexivity|]. split; [|eauto].
        intros k N. apply lookup_insert_ne. congruence.
      + rewrite R. simpl. eauto. }
  assert (E : let st2 := snd (event_route now clock sportName eventId reply st) in
              sportsDataCache st2 = sportsDataCache st /\
              (forall k, k <> sportName +:+ "_" +:+ eventId ->
                         eventDataCache st2 !! k = eventDataCache st !! k) /\
              (requested st2 = requested st \/ exists url, requested st2 = url :: requested st)).
  { destruct (fresh (eventDataCache st) (sportName +:+ "_" +:+ eventId) now EVENT_TTL)
      as [cached|] eqn:F.
    - rewrite (event_route_hit toLowerCase date_getTime error_message
                 now clock sportName eventId reply st cached F). simpl. auto.
    - destruct (event_route_miss toLowerCase date_getTime error_message
                  now clock sportName eventId reply st F) as (url & _ & R).
      destruct (truthy reply).
      + destruct R as (payload & _ & ->). simpl.
        split; [reflexivity|]. split; [|eauto].
        intros k N. apply lookup_insert_ne. congruence.
      + rewrite R. simpl. eauto. }
  cbv zeta in S, E. tauto.
Qed.

Lemma spellings_share now clock first second other reply st :
  toLowerCase first = toLowerCase second ->
  fresh (sportsDataCache st) (toLowerCase first) now CACHE_TTL = None ->
  truthy reply = true ->
  exists payload st1,
    transformSportData clock reply first = Normal payload /\
    sport_route now clock first reply st = (ok payload, st1) /\
    forall now2 clock2,
      (now2 - now < CACHE_TTL)%Z ->
      sport_route now2 clock2 second other st1 = (ok payload, st1).
Proof.
  intros L F T.
  destruct (sport_route_miss toLowerCase date_getTime localeCompare error_message
              now clock first reply st F) as (url & _ & R).
  rewrite T in R. destruct R as (payload & P & R).
  eexists payload, _. split; [exact P|]. split; [exact R|].
  intros now2 clock2 W. apply sport_route_hit. rewrite <- L. simpl.
  rewrite fresh_insert. apply Z.ltb_lt in W. rewrite W. reflexivity.
Qed.

Lemma event_keys_collide now clock sport1 event1 sport2 event2 other reply st :
  sport1 +:+ "_" +:+ event1 = sport2 +:+ "_" +:+ event2 ->
  fresh (eventDataCache st) (sport1 +:+ "_" +:+ event1) now EVENT_TTL = None ->
  truthy reply = true ->
  exists payload st1,
    transformEventData clock reply sport1 = Normal payload /\
    event_route now clock sport1 event1 reply st = (ok payload, st1) /\
    forall now2 clock2,
      (now2 - now < EVENT_TTL)%Z ->
      event_route now2 clock2 sport2 event2 other st1 = (ok payload, st1).
Proof.
  intros L F T.
  destruct (event_route_miss toLowerCase date_getTime error_message
              now clock sport1 event1 reply st F) as (url & _ & R).
  rewrite T in R. destruct R as (payload & P & R).
  eexists payload, _. split; [exact P|]. split; [exact R|].
  intros now2 clock2 W. apply event_route_hit. rewrite <- L. simpl.
  rewrite fresh_insert. apply Z.ltb_lt in W. rewrite W. reflexivity.
Qed.

(** X13.  Requests whose cache keys coincide are served each other's
    payload: after a miss of the sport route for one spelling of a
    name, every spelling with the same lower-case form gets, within the
    window, the payload transformed for the first spelling; and two
    event requests whose [sportName_eventId] strings are equal share
    their slot even when sport and event differ. *)
Theorem equal_keys_share_a_slot now clock sport1 event1 sport2 event2 other reply st :
  truthy reply = true ->
  (toLowerCase sport1 = toLowerCase sport2 ->
   fresh (sportsDataCache st) (toLowerCase sport1) now CACHE_TTL = None ->
   exists payload st1,
     transformSportData clock reply sport1 = Normal payload /\
     sport_route now clock sport1 reply st = (ok payload, st1) /\
     forall now2 clock2,
       (now2 - now < CACHE_TTL)%Z ->
       sport_route now2 clock2 sport2 other st1 = (ok payload, st1)) /\
  (sport1 +:+ "_" +:+ event1 = sport2 +:+ "_" +:+ event2 ->
   fresh (eventDataCache st) (sport1 +:+ "_" +:+ event1) now EVENT_TTL = None ->
   exists payload st1,
     transformEventData clock reply sport1 = Normal payload /\
     event_route now clock sport1 event1 reply st = (ok payload, st1) /\
     forall now2 clock2,
       (now2 - now < EVENT_TTL)%Z ->
       event_route now2 clock2 sport2 event2 other st1 = (ok payload, st1)).
Proof.
  intros T. split.
  - intros L F. exact (spellings_share _ _ _ _ _ _ _ L F T).
  - intros L F. exact (event_keys_collide _ _ _ _ _ _ _ _ _ L F T).
Qed.

(** X14.  Requests are not coalesced: when a second request for a sport
    starts while the first is waiting for the upstream, both send the
    same upstream request, and the handler that finishes last overwrites
    the slot, so that the slot can end with the older reply and the
    older timestamp. *)
Theorem overlapping_requests_both_fetch now1 now2 clock1 clock2 sportName reply1 reply2 st :
  (now1 <= now2)%Z ->
  fresh (sportsDataCache st) (toLowerCase sportName) now1 CACHE_TTL = None ->
  truthy reply1 = true -> truthy reply2 = true ->
  exists url st1 st2 st3 st4 payload1 payload2,
    sport_route_start now1 sportName st = Normal (Awaiting url, st1) /\
    sport_route_start now2 sportName st1 = Normal (Awaiting url, st2) /\
    requested st2 = url :: url :: requested st /\
    sport_route_finish now2 clock2 sportName reply2 st2 = Normal (ok payload2, st3) /\
    sport_route_finish now1 clock1 sportName reply1 st3 = Normal (ok payload1, st4) /\
    sportsDataCache st4 !! toLowerCase sportName
    = Some {| data := Some payload1; timestamp := now1 |}.
Proof.
  intros L F T1 T2.
  destruct (sport_url_normal toLowerCase sportName) as (url & U).
  destruct (transformSportData_normal date_getTime localeCompare error_message
              clock1 reply1 sportName) as (payload1 & P1).
  destruct (transformSportData_normal date_getTime localeCompare error_message
              clock2 reply2 sportName) as (payload2 & P2).
  exists url. eexists _, _, _, _, payload1, payload2.
  unfold Server.sport_route_start, Server.sport_route_finish.
  rewrite F, U. cbn [bind]. split; [reflexivity|].
  cbn [sportsDataCache apiRequest].
  rewrite (fresh_later _ _ _ _ _ L F). cbn [bind]. split; [reflexivity|].
  split; [reflexivity|].
  rewrite T1, T2, P1, P2. cbn [negb bind]. split; [reflexivity|]. split; [reflexivity|].
  simpl. apply lookup_insert_eq.
Qed.

End Host.

(** X10, witness: the first request for an event on a cold cache. *)
Lemma event_route_serves_fresh_cache_witness :
  let route := Server.event_route Server.lower Sample.date_getTime Sample.error_message in
  let reply := Sample.payload Sample.two_leagues in
  exists payload st1,
    route 1000 1001 "cricket" "E1" reply Server.initial = (ok payload, st1) /\
    length (requested st1) = S (length (requested Server.initial)) /\
    forall now2 clock2 eventData2,
      ((now2 - 1000 < 10000)%Z ->
       route now2 clock2 "cricket" "E1" eventData2 st1 = (ok payload, st1)) /\
      ((10000 <= now2 - 1000)%Z ->
       length (requested (snd (route now2 clock2 "cricket" "E1" eventData2 st1)))
       = S (length (requested st1))).
Proof.
  apply (proj2 (event_route_serves_fresh_cache
                  Server.lower Sample.date_getTime Sample.error_message
                  1000 1001 "cricket" "E1"
                  (Sample.payload Sample.two_leagues) Server.initial));
    reflexivity.
Defined.

(** X13, witness: "Cricket" and "cricket" share a slot, and so do the
    event requests [a_b/c] and [a/b_c]. *)
Lemma equal_keys_share_a_slot_witness :
  let sport_route := Server.sport_route Server.lower Sample.date_getTime
                       Sample.localeCompare Sample.error_message in
  let event_route := Server.event_route Server.lower Sample.date_getTime
                       Sample.error_message in
  let reply := Sample.payload Sample.two_leagues in
  (exists payload st1,
     Transformer.transformSportData Sample.date_getTime Sample.localeCompare
       Sample.error_message 1001 reply "Cricket" = Normal payload /\
     sport_route 1000 1001 "Cricket" reply Server.initial = (ok payload, st1) /\
     forall now2 clock2,
       (now2 - 1000 < CACHE_TTL)%Z ->
       sport_route now2 clock2 "cricket" VNull st1 = (ok payload, st1)) /\
  (exists payload st1,
     Transformer.transformEventData Sample.date_getTime Sample.error_message
       1001 reply "a_b" = Normal payload /\
     event_route 1000 1001 "a_b" "c" reply Server.initial = (ok payload, st1) /\
     forall now2 clock2,
       (now2 - 1000 < EVENT_TTL)%Z ->
       event_route now2 clock2 "a" "b_c" VNull st1 = (ok payload, st1)).
Proof.
  split.
  - apply (proj1 (equal_keys_share_a_slot
                    Server.lower Sample.date_getTime Sample.localeCompare
                    Sample.error_message 1000 1001 "Cricket" "E1" "cricket" "E1" VNull
                    (Sample.payload Sample.two_leagues) Server.initial eq_refl));
      reflexivity.
  - apply (proj2 (equal_keys_share_a_slot
                    Server.lower Sample.date_getTime Sample.localeCompare
                    Sample.error_message 1000 1001 "a_b" "c" "a" "b_c" VNull
                    (Sample.payload Sample.two_leagues) Server.initial eq_refl));
      reflexivity.
Defined.

(** X14, witness: two requests for cricket, one second apart, on a cold
    cache. *)
Lemma overlapping_requests_both_fetch_witness :
  let start := Server.sport_route_start Server.lower in
  let finish := Server.sport_route_finish Server.lower Sample.date_getTime
                  Sample.localeCompare Sample.error_message in
  let reply1 := Sample.payload Sample.two_leagues in
  let reply2 := Sample.payload Sample.set_game in
  exists url st1 st2 st3 st4 payload1 payload2,
    start 1000 "cricket" Server.initial = Normal (Awaiting url, st1) /\
    start 2000 "cricket" st1 = Normal (Awaiting url, st2) /\
    requested st2 = url :: url :: requested Server.initial /\
    finish 2000 2001 "cricket" reply2 st2 = Normal (ok payload2, st3) /\
    finish 1000 2002 "cricket" reply1 st3 = Normal (ok payload1, st4) /\
    sportsDataCache st4 !! Server.lower "cricket"
    = Some {| data := Some payload1; timestamp := 1000 |}.
Proof.
  apply (overlapping_requests_both_fetch
           Server.lower Sample.date_getTime Sample.localeCompare Sample.error_message
           1000 2000 2002 2001 "cricket"
           (Sample.payload Sample.two_leagues) (Sample.payload Sample.set_game)
           Server.initial);
    [lia|reflexivity|reflexivity|reflexivity].
Defined.

End RoutesFacts.

(** ** The socket handlers: lanes, sequential clients and effects *)

Module LaneFacts.
Import JS Dict Transformer Server Socket Lane Spec JSFacts DictFacts TransformerFacts
  ServerFacts SocketFacts.

Lemma filter_swap {X} (f g : X -> bool) l :
  List.filter f (List.filter g l) = List.filter g (List.filter f l).
Proof.
  induction l as [|x l IH]; simpl; [reflexivity|].
  destruct (g x) eqn:G, (f x) eqn:F; simpl; rewrite ?G, ?F, IH; reflexivity.
Qed.

Lemma filter_all {X} (f : X -> bool) l :
  (forall x, In x l -> f x = true) -> List.filter f l = l.
Proof.
  induction l as [|x l IH]; simpl; intros H; [reflexivity|].
  rewrite (H x (or_introl eq_refl)), IH; [reflexivity|]. intros y I. apply H. auto.
Qed.

Lemma filter_none {X} (f : X -> bool) l :
  (forall x, In x l -> f x = false) -> List.filter f l = [].
Proof.
  induction l as [|x l IH]; simpl; intros H; [reflexivity|].
  rewrite (H x (or_introl eq_refl)), IH; [reflexivity|]. intros y I. apply H. auto.
Qed.

Lemma clearInterval_In h ts t : In t (clearInterval h ts) -> In t ts.
Proof. destruct h; simpl; [|auto]. intros I. apply filter_In in I. apply I. Qed.

Lemma clearInterval_filter f h ts :
  List.filter f (clearInterval h ts) = clearInterval h (List.filter f ts).
Proof. destruct h; simpl; [apply filter_swap|reflexivity]. Qed.

Lemma clearInterval_swap a b ts :
  clearInterval a (clearInterval b ts) = clearInterval b (clearInterval a ts).
Proof. destruct a, b; simpl; try reflexivity. apply filter_swap. Qed.

(** Clearing a handle leaves the timers that do not carry it. *)
Lemma clearInterval_other h ts :
  (forall n t, h = Some n -> In t ts -> handle t <> n) -> clearInterval h ts = ts.
Proof.
  destruct h as [n|]; simpl; [|reflexivity]. intros H. apply filter_all.
  intros t I. apply negb_true_iff, Nat.eqb_neq. exact (H n t eq_refl I).
Qed.

Section Host.

Variable toLowerCase : string -> string.
Variable date_getTime : value -> completion value.
Variable localeCompare : string -> string -> Z.
Variable error_message : error -> string.

Local Abbreviation step := (step toLowerCase date_getTime localeCompare error_message).
Local Abbreviation run := (run toLowerCase date_getTime localeCompare error_message).
Local Abbreviation deliver := (deliver date_getTime localeCompare error_message).
Local Abbreviation sport_cycle := (sport_cycle toLowerCase).
Local Abbreviation event_cycle := (event_cycle toLowerCase).
Local Abbreviation perform := (perform toLowerCase date_getTime localeCompare error_message).
Local Abbreviation session := (session toLowerCase date_getTime localeCompare error_message).
Local Abbreviation sport_lane_settled := (sport_lane_settled toLowerCase).
Local Abbreviation event_lane_settled := (event_lane_settled toLowerCase).
Local Abbreviation settled := (settled toLowerCase).

Lemma run_app w es1 es2 : run (run w es1) es2 = run w (es1 ++ es2).
Proof. unfold Socket.run. symmetry. apply fold_left_app. Qed.

Lemma connected_lanes : lanes connected.
Proof. split; simpl; [contradiction|discriminate|discriminate]. Qed.

Lemma step_lanes w e : lanes (conn w) -> lanes (conn (step w e)).
Proof.
  intros [H S E]. destruct e; simpl.
  - split; simpl.
    + intros t I. apply H, (clearInterval_In _ _ _ I).
    + intros h Eh. destruct (S h Eh) as [L K]. split; [exact L|].
      intros t I. apply K, (clearInterval_In _ _ _ I).
    + intros h Eh. destruct (E h Eh) as [L K]. split; [exact L|].
      intros t I. apply K, (clearInterval_In _ _ _ I).
  - split; simpl.
    + intros t I. apply H, (clearInterval_In _ _ _ I).
    + discriminate.
    + intros h Eh. destruct (E h Eh) as [L K]. split; [exact L|].
      intros t I. apply K, (clearInterval_In _ _ _ I).
  - split; simpl.
    + intros t I. apply H, (clearInterval_In _ _ _ I).
    + intros h Eh. destruct (S h Eh) as [L K]. split; [exact L|].
      intros t I. apply K, (clearInterval_In _ _ _ I).
    + intros h Eh. destruct (E h Eh) as [L K]. split; [exact L|].
      intros t I. apply K, (clearInterval_In _ _ _ I).
  - split; simpl.
    + intros t I. apply H, (clearInterval_In _ _ _ I).
    + intros h Eh. destruct (S h Eh) as [L K]. split; [exact L|].
      intros t I. apply K, (clearInterval_In _ _ _ I).
    + discriminate.
  - split; simpl.
    + intros t I. apply H, (clearInterval_In _ _ _ (clearInterval_In _ _ _ I)).
    + intros h Eh. destruct (S h Eh) as [L K]. split; [exact L|].
      intros t I. apply K, (clearInterval_In _ _ _ (clearInterval_In _ _ _ I)).
    + intros h Eh. destruct (E h Eh) as [L K]. split; [exact L|].
      intros t I. apply K, (clearInterval_In _ _ _ (clearInterval_In _ _ _ I)).
  - destruct (find_call call (suspended (conn w))) as [cyc|]; [|split; assumption].
    split; simpl.
    + intros t [<-|I]; simpl; [lia|]. specialize (H t I). lia.
    + destruct (is_sport_cycle cyc) eqn:C.
      * intros h [= <-]. split; [lia|]. intros t [<-|I] Eh; [exact C|].
        specialize (H t I). lia.
      * intros h Eh. destruct (S h Eh) as [L K]. split; [lia|].
        intros t [<-|I] Et; [simpl in Et; lia|]. exact (K t I Et).
    + destruct (is_sport_cycle cyc) eqn:C.
      * intros h Eh. destruct (E h Eh) as [L K]. split; [lia|].
        intros t [<-|I] Et; [simpl in Et; lia|]. exact (K t I Et).
      * intros h [= <-]. split; [lia|]. intros t [<-|I] Eh; [exact C|].
        specialize (H t I). lia.
  - destruct (find_timer h (timers (conn w))); split; assumption.
Qed.

Lemma run_lanes w es : lanes (conn w) -> lanes (conn (run w es)).
Proof.
  revert w. induction es as [|e es IH]; simpl; intros w H; [exact H|].
  apply IH, step_lanes, H.
Qed.

Lemma clear_sport_keeps_events c :
  lanes c ->
  List.filter (fun t => negb (is_sport_cycle (callback t)))
    (clearInterval (sportUpdateInterval c) (timers c)) = event_timers c.
Proof.
  intros [_ S _]. rewrite clearInterval_filter. apply clearInterval_other.
  intros n t Eh I Et. apply filter_In in I as [I N].
  destruct (S n Eh) as [_ K]. rewrite (K t I Et) in N. discriminate.
Qed.

Lemma clear_event_keeps_sports c :
  lanes c ->
  List.filter (fun t => is_sport_cycle (callback t))
    (clearInterval (eventUpdateInterval c) (timers c)) = sport_timers c.
Proof.
  intros [_ _ E]. rewrite clearInterval_filter. apply clearInterval_other.
  intros n t Eh I Et. apply filter_In in I as [I N].
  destruct (E n Eh) as [_ K]. rewrite (K t I Et) in N. discriminate.
Qed.

(** X15.  On a connection driven by any sequence of events, subscribing
    to or unsubscribing from a sport leaves the armed event timers as
    they are, and subscribing to or unsubscribing from an event leaves
    the armed sport timers as they are. *)
Theorem lanes_are_independent st es sportName eventId :
  let w := run {| server := st; conn := connected |} es in
  event_timers (conn (step w (SubscribeSport sportName))) = event_timers (conn w) /\
  event_timers (conn (step w UnsubscribeSport)) = event_timers (conn w) /\
  sport_timers (conn (step w (SubscribeEvent sportName eventId))) = sport_timers (conn w) /\
  sport_timers (conn (step w UnsubscribeEvent)) = sport_timers (conn w).
Proof.
  intros w.
  assert (L : lanes (conn w)) by (apply run_lanes, connected_lanes).
  unfold event_timers, sport_timers. simpl.
  rewrite (clear_sport_keeps_events _ L), (clear_event_keeps_sports _ L).
  repeat split.
Qed.

Lemma connected_settled : settled connected.
Proof. split; [apply connected_lanes|reflexivity..]. Qed.

Lemma sport_lane_cleared c :
  sport_lane_settled c ->
  List.filter (fun t => is_sport_cycle (callback t))
    (clearInterval (sportUpdateInterval c) (timers c)) = [].
Proof.
  unfold Lane.sport_lane_settled. rewrite clearInterval_filter.
  fold (sport_timers c).
  destruct (subscriptions_sport c).
  - intros (h & -> & ->). simpl. rewrite Nat.eqb_refl. reflexivity.
  - intros ->. destruct (sportUpdateInterval c); reflexivity.
Qed.

Lemma event_lane_cleared c :
  event_lane_settled c ->
  List.filter (fun t => negb (is_sport_cycle (callback t)))
    (clearInterval (eventUpdateInterval c) (timers c)) = [].
Proof.
  unfold Lane.event_lane_settled. rewrite clearInterval_filter.
  fold (event_timers c).
  destruct (subscriptions_event c) as [[n e]|].
  - intros (h & -> & ->). simpl. rewrite Nat.eqb_refl. reflexivity.
  - intros ->. destruct (eventUpdateInterval c); reflexivity.
Qed.

Lemma perform_settled w cmd : settled (conn w) -> settled (conn (perform w cmd)).
Proof.
  intros [L S Sp Ev].
  assert (L' : lanes (conn (perform w cmd))) by (apply run_lanes, L).
  split; [exact L'|..]; clear L'.
  - destruct cmd; unfold Lane.perform; simpl; try exact S.
    + unfold find_call. simpl. rewrite Nat.eqb_refl. simpl. rewrite S. reflexivity.
    + unfold find_call. simpl. rewrite Nat.eqb_refl. simpl. rewrite S. reflexivity.
    + destruct (find_timer h (timers (conn w))); exact S.
  - destruct cmd; unfold Lane.perform; simpl.
    + unfold find_call. simpl. rewrite Nat.eqb_refl. simpl.
      unfold Lane.sport_lane_settled, sport_timers. simpl.
      rewrite (sport_lane_cleared _ Sp). eauto.
    + unfold Lane.sport_lane_settled, sport_timers. simpl.
      apply (sport_lane_cleared _ Sp).
    + unfold find_call. simpl. rewrite Nat.eqb_refl. simpl.
      unfold Lane.sport_lane_settled, sport_timers in *. simpl.
      rewrite (clear_event_keeps_sports _ L). exact Sp.
    + unfold Lane.sport_lane_settled, sport_timers in *. simpl.
      rewrite (clear_event_keeps_sports _ L). exact Sp.
    + destruct (find_timer h (timers (conn w))); exact Sp.
  - destruct cmd; unfold Lane.perform; simpl.
    + unfold find_call. simpl. rewrite Nat.eqb_refl. simpl.
      unfold Lane.event_lane_settled, event_timers in *. simpl.
      rewrite (clear_sport_keeps_events _ L). exact Ev.
    + unfold Lane.event_lane_settled, event_timers in *. simpl.
      rewrite (clear_sport_keeps_events _ L). exact Ev.
    + unfold find_call. simpl. rewrite Nat.eqb_refl. simpl.
      unfold Lane.event_lane_settled, event_timers. simpl.
      rewrite (event_lane_cleared _ Ev). eauto.
    + unfold Lane.event_lane_settled, event_timers. simpl.
      apply (event_lane_cleared _ Ev).
    + destruct (find_timer h (timers (conn w))); exact Ev.
Qed.

Lemma session_settled w cmds : settled (conn w) -> settled (conn (session w cmds)).
Proof.
  revert w. induction cmds as [|cmd cmds IH]; simpl; intros w H; [exact H|].
  apply IH, perform_settled, H.
Qed.

Lemma settled_disconnect w : settled (conn w) -> timers (conn (step w Disconnect)) = [].
Proof.
  intros [L _ Sp Ev]. simpl.
  set (ts := clearInterval _ (clearInterval _ _)).
  assert (A : List.filter (fun t => is_sport_cycle (callback t)) ts = []).
  { unfold ts. rewrite clearInterval_filter, (sport_lane_cleared _ Sp).
    destruct (eventUpdateInterval (conn w)); reflexivity. }
  assert (B : List.filter (fun t => negb (is_sport_cycle (callback t))) ts = []).
  { unfold ts. rewrite clearInterval_swap, clearInterval_filter, (event_lane_cleared _ Ev).
    destruct (sportUpdateInterval (conn w)); reflexivity. }
  destruct ts as [|t ts']; [reflexivity|]. exfalso.
  simpl in A, B. destruct (is_sport_cycle (callback t)); simpl in *; discriminate.
Qed.

(** X16.  For a client that waits for the first update of a
    subscription before its next message, no handler is left suspended
    and each lane holds exactly one timer per active subscription, with
    the period and the cycle of that subscription and named by the
    lane's interval variable; unsubscribing empties the lane and
    [disconnect] leaves no timer at all. *)
Theorem sequential_client_one_timer_per_subscription st cmds :
  let w := session {| server := st; conn := connected |} cmds in
  suspended (conn w) = [] /\
  sport_lane_settled (conn w) /\
  event_lane_settled (conn w) /\
  (length (sport_timers (conn w)) <= 1)%nat /\
  (length (event_timers (conn w)) <= 1)%nat /\
  sport_timers (conn (step w UnsubscribeSport)) = [] /\
  event_timers (conn (step w UnsubscribeEvent)) = [] /\
  timers (conn (step w Disconnect)) = [].
Proof.
  intros w.
  assert (S : settled (conn w)) by (apply session_settled, connected_settled).
  destruct S as [L Su Sp Ev] eqn:Keep. clear Keep.
  split; [exact Su|]. split; [exact Sp|]. split; [exact Ev|].
  split.
  { unfold Lane.sport_lane_settled in Sp. destruct (subscriptions_sport (conn w)).
    - destruct Sp as (h & _ & ->). simpl. lia.
    - rewrite Sp. simpl. lia. }
  split.
  { unfold Lane.event_lane_settled in Ev.
    destruct (subscriptions_event (conn w)) as [[a b]|].
    - destruct Ev as (h & _ & ->). simpl. lia.
    - rewrite Ev. simpl. lia. }
  split; [apply (sport_lane_cleared _ Sp)|].
  split; [apply (event_lane_cleared _ Ev)|].
  apply settled_disconnect. split; assumption.
Qed.

(** X17.  A [disconnect] that arrives while a subscription handler waits
    for its initial fetch does not cancel it: when the fetch resolves
    the handler arms its interval, and that timer stays armed through
    every later fetch and tick. *)
Theorem disconnect_spares_pending_subscription w call cyc reply clock es :
  find_call call (suspended (conn w)) = Some cyc ->
  forallb is_internal es = true ->
  In {| handle := next_handle (conn w);
        period := if is_sport_cycle cyc then 5000 else 1000;
        callback := cyc |}
     (timers (conn (run w (Disconnect :: Fetched call reply clock :: es)))).
Proof.
  intros F I. change (Disconnect :: Fetched call reply clock :: es)
    with ([Disconnect; Fetched call reply clock] ++ es).
  rewrite <- run_app.
  set (w1 := run w [Disconnect; Fetched call reply clock]).
  set (t := {| handle := _ |}).
  assert (A : In t (timers (conn w1))).
  { unfold w1. simpl. rewrite F. simpl. left. reflexivity. }
  clearbody w1. clear F. revert w1 A.
  induction es as [|e es IH]; intros w1 A; [exact A|].
  simpl in I. apply andb_true_iff in I as [Ie I]. simpl. apply (IH I).
  destruct e; try discriminate; simpl.
  - destruct (find_call call0 (suspended (conn w1))); simpl; auto.
  - destruct (find_timer h (timers (conn w1))); simpl; auto.
Qed.

Lemma step_server w e :
  sportsDataCache (server (step w e)) = sportsDataCache (server w) /\
  eventDataCache (server (step w e)) = eventDataCache (server w) /\
  exists urls, requested (server (step w e)) = urls ++ requested (server w) /\
               (length urls <= if asks e then 1 else 0)%nat.
Proof.
  assert (R : forall c st,
             sportsDataCache (request c st) = sportsDataCache st /\
             eventDataCache (request c st) = eventDataCache st /\
             exists urls, requested (request c st) = urls ++ requested st /\
                          (length urls <= 1)%nat).
  { intros c st. unfold request. destruct (cycle_url c) as [url|].
    - split; [reflexivity|]. split; [reflexivity|]. exists [url]. simpl. auto.
    - split; [reflexivity|]. split; [reflexivity|]. exists []. simpl. auto. }
  assert (N : sportsDataCache (server w) = sportsDataCache (server w) /\
              eventDataCache (server w) = eventDataCache (server w) /\
              exists urls, requested (server w) = urls ++ requested (server w) /\
                           (length urls <= 0)%nat).
  { split; [reflexivity|]. split; [reflexivity|]. exists []. simpl. auto. }
  destruct e; simpl; try exact N; try apply R.
  - destruct (find_call call (suspended (conn w))); exact N.
  - destruct (find_timer h (timers (conn w))); simpl; [apply R|].
    destruct N as (? & ? & urls & ? & ?). split; [assumption|]. split; [assumption|].
    exists urls. split; [assumption|lia].
Qed.

Lemma deliver_grows c reply clock out :
  exists new, deliver c reply clock out = new ++ out /\
              (length new <= if truthy reply then 1 else 0)%nat.
Proof.
  unfold Socket.deliver. destruct (cycle_url c); [|exists []; split; [reflexivity|simpl; lia]].
  destruct (truthy reply); [|exists []; split; [reflexivity|simpl; lia]].
  destruct c.
  - destruct (transformSportData _ _ _ _ _ _); [eexists [_]|exists []]; split;
      try reflexivity; simpl; lia.
  - destruct (transformEventData _ _ _ _ _); [eexists [_]|exists []]; split;
      try reflexivity; simpl; lia.
Qed.

Lemma step_emitted w e :
  exists new, emitted (conn (step w e)) = new ++ emitted (conn w) /\
              (length new <= if answers e then 1 else 0)%nat.
Proof.
  assert (N : forall b : bool, exists new : list emission,
             emitted (conn w) = new ++ emitted (conn w) /\
             (length new <= if b then 1 else 0)%nat).
  { intros b. exists []. split; [reflexivity|]. simpl. lia. }
  destruct e; simpl; try apply (N false).
  - destruct (find_call call (suspended (conn w))); [|apply N]. simpl. apply deliver_grows.
  - destruct (find_timer h (timers (conn w))); [|apply N]. simpl. apply deliver_grows.
Qed.

Lemma run_server w es :
  sportsDataCache (server (run w es)) = sportsDataCache (server w) /\
  eventDataCache (server (run w es)) = eventDataCache (server w) /\
  exists urls, requested (server (run w es)) = urls ++ requested (server w) /\
               (length urls <= length (List.filter asks es))%nat.
Proof.
  revert w. induction es as [|e es IH]; intros w.
  - split; [reflexivity|]. split; [reflexivity|]. exists []. simpl. auto.
  - simpl. destruct (IH (step w e)) as (A & B & urls & C & D).
    destruct (step_server w e) as (A1 & B1 & urls1 & C1 & D1).
    split; [congruence|]. split; [congruence|].
    exists (urls ++ urls1). split.
    + rewrite C, C1. apply app_assoc.
    + rewrite List.length_app. destruct (asks e); simpl in *; lia.
Qed.

Lemma run_emitted w es :
  exists new, emitted (conn (run w es)) = new ++ emitted (conn w) /\
              (length new <= length (List.filter answers es))%nat.
Proof.
  revert w. induction es as [|e es IH]; intros w.
  - exists []. split; [reflexivity|]. simpl. lia.
  - simpl. destruct (IH (step w e)) as (new & C & D).
    destruct (step_emitted w e) as (new1 & C1 & D1).
    exists (new ++ new1). split.
    + rewrite C, C1. apply app_assoc.
    + rewrite List.length_app. destruct (answers e); simpl in *; lia.
Qed.

(** X18.  Whatever happens on a connection, the socket handlers leave
    both caches as they are, send at most one upstream request per
    subscription message and per tick, and emit at most one update per
    resolved fetch or tick whose reply is truthy. *)
Theorem socket_effects_are_bounded w es :
  sportsDataCache (server (run w es)) = sportsDataCache (server w) /\
  eventDataCache (server (run w es)) = eventDataCache (server w) /\
  (exists urls, requested (server (run w es)) = urls ++ requested (server w) /\
                (length urls <= length (List.filter asks es))%nat) /\
  (exists new, emitted (conn (run w es)) = new ++ emitted (conn w) /\
               (length new <= length (List.filter answers es))%nat).
Proof.
  destruct (run_server w es) as (A & B & C).
  split; [exact A|]. split; [exact B|]. split; [exact C|]. apply run_emitted.
Qed.

End Host.

(** X17, witness: a disconnect while the first cricket subscription is
    being fetched. *)
Lemma disconnect_spares_pending_subscription_witness :
  let run := Socket.run Server.lower Sample.date_getTime Sample.localeCompare
               Sample.error_message in
  let w := run Sample.start [SubscribeSport "cricket"] in
  In {| handle := 0; period := 5000;
        callback := Socket.sport_cycle Server.lower "cricket" |}
     (timers (conn (run w [Disconnect; Fetched 0 VNull 10; Tick 0 VNull 20;
                           Tick 0 VNull 30]))).
Proof.
  apply (disconnect_spares_pending_subscription
           Server.lower Sample.date_getTime Sample.localeCompare Sample.error_message
           (Socket.run Server.lower Sample.date_getTime Sample.localeCompare
              Sample.error_message Sample.start [SubscribeSport "cricket"])
           0%nat (Socket.sport_cycle Server.lower "cricket") VNull 10
           [Tick 0 VNull 20; Tick 0 VNull 30]);
    reflexivity.
Defined.

End LaneFacts.

(** ** Authentication and user management *)

Module UsersFacts.
Import JS Spec Users JSFacts.

Lemma alter_here {A} (f : A -> A) x l : alter f 0%nat (x :: l) = f x :: l.
Proof. reflexivity. Qed.

Lemma alter_there {A} (f : A -> A) x i l : alter f (S i) (x :: l) = x :: alter f i l.
Proof. reflexivity. Qed.

Lemma delete_here {A} (x : A) l : delete 0%nat (x :: l) = l.
Proof. reflexivity. Qed.

Lemma delete_there {A} (x : A) i l : delete (S i) (x :: l) = x :: delete i l.
Proof. reflexivity. Qed.

Lemma findIndex_None {A} (f : A -> bool) l :
  findIndex f l = None -> forall x, In x l -> f x = false.
Proof.
  induction l as [|y l IH]; simpl; [contradiction|].
  destruct (f y) eqn:F; [discriminate|].
  destruct (findIndex f l); [discriminate|]. intros _ x [<-|I]; auto.
Qed.

Lemma findIndex_find {A} (f : A -> bool) l :
  match List.find f l with
  | Some _ => exists i, findIndex f l = Some i
  | None => findIndex f l = None
  end.
Proof.
  induction l as [|y l IH]; simpl; [reflexivity|].
  destruct (f y); [eauto|]. destruct (List.find f l).
  - destruct IH as (i & ->). simpl. eauto.
  - rewrite IH. reflexivity.
Qed.

Lemma findIndex_ext {A} (f g : A -> bool) l :
  (forall x, In x l -> f x = g x) -> findIndex f l = findIndex g l.
Proof.
  induction l as [|y l IH]; simpl; intros H; [reflexivity|].
  rewrite (H y (or_introl eq_refl)), IH; [reflexivity|]. intros x I. apply H. auto.
Qed.

(** With unique ids, changing the first record with a given id changes
    the only one. *)
Lemma alter_by_id (f : User.t -> User.t) n us i :
  List.NoDup (map User.id us) ->
  findIndex (fun u => (User.id u =? n)%Z) us = Some i ->
  alter f i us = map (fun u => if (User.id u =? n)%Z then f u else u) us.
Proof.
  revert i. induction us as [|u us IH]; simpl; intros i D F; [discriminate|].
  apply NoDup_cons_iff in D as [N D].
  destruct (User.id u =? n)%Z eqn:E.
  - injection F as <-. rewrite alter_here. f_equal.
    apply Z.eqb_eq in E. subst n.
    symmetry. erewrite map_ext_in; [apply map_id|].
    intros a I. simpl. destruct (User.id a =? User.id u)%Z eqn:E2; [|reflexivity].
    apply Z.eqb_eq in E2. exfalso. apply N. rewrite <- E2. apply in_map, I.
  - destruct (findIndex _ us) as [j|] eqn:F2; [|discriminate]. injection F as <-.
    rewrite alter_there. f_equal. apply IH; [exact D|reflexivity].
Qed.

Lemma delete_by_id n us i :
  List.NoDup (map User.id us) ->
  findIndex (fun u => (User.id u =? n)%Z) us = Some i ->
  delete i us = List.filter (fun u => negb (User.id u =? n)%Z) us.
Proof.
  revert i. induction us as [|u us IH]; simpl; intros i D F; [discriminate|].
  apply NoDup_cons_iff in D as [N D].
  destruct (User.id u =? n)%Z eqn:E; simpl.
  - injection F as <-. rewrite delete_here.
    apply Z.eqb_eq in E. subst n. symmetry.
    assert (G : forall l, (forall a, In a l -> User.id a <> User.id u) ->
                          List.filter (fun a => negb (User.id a =? User.id u)%Z) l = l).
    { induction l as [|a l IHl]; simpl; intros H; [reflexivity|].
      assert (Ea : (User.id a =? User.id u)%Z = false)
        by (apply Z.eqb_neq, H; auto).
      rewrite Ea. simpl. f_equal. apply IHl. intros b I. apply H. auto. }
    apply G. intros a I Ea. apply N. rewrite <- Ea. apply in_map, I.
  - destruct (findIndex _ us) as [j|] eqn:F2; [|discriminate]. injection F as <-.
    rewrite delete_there. f_equal. apply IH; [exact D|reflexivity].
Qed.

Lemma unique_id us a b :
  List.NoDup (map User.id us) -> In a us -> In b us -> User.id a = User.id b -> a = b.
Proof.
  induction us as [|u us IH]; simpl; [contradiction|].
  intros D Ia Ib E. apply NoDup_cons_iff in D as [N D].
  destruct Ia as [<-|Ia], Ib as [<-|Ib]; auto.
  - exfalso. apply N. rewrite E. apply in_map, Ib.
  - exfalso. apply N. rewrite <- E. apply in_map, Ia.
Qed.

Lemma NoDup_snoc {A} (l : list A) x :
  List.NoDup l -> ~ In x l -> List.NoDup (l ++ [x]).
Proof.
  induction l as [|y l IH]; simpl; intros D N.
  - constructor; [simpl; tauto|constructor].
  - apply NoDup_cons_iff in D as [Ny D]. apply NoDup_cons_iff. split.
    + intros I. apply in_app_iff in I as [I|[<-|[]]]; [auto|]. apply N. auto.
    + apply IH; [exact D|]. intros I. apply N. auto.
Qed.

Lemma max_id_bound ids n : In n ids -> n <= max_id ids.
Proof.
  unfold max_id. induction ids as [|m ids IH]; simpl; [contradiction|].
  intros [->|I]; [lia|]. specialize (IH I). lia.
Qed.

Lemma max_id_nonneg ids : 0 <= max_id ids.
Proof. unfold max_id. induction ids as [|m ids IH]; simpl; lia. Qed.

Lemma max_id_incl ids' ids : incl ids' ids -> max_id ids' <= max_id ids.
Proof.
  induction ids' as [|m ids' IH]; intros I.
  - apply max_id_nonneg.
  - change (max_id (m :: ids')) with (Z.max m (max_id ids')).
    assert (m <= max_id ids) by (apply max_id_bound, I; left; reflexivity).
    assert (max_id ids' <= max_id ids) by (apply IH; intros x Ix; apply I; right; exact Ix).
    lia.
Qed.

Lemma max_id_snoc ids n : max_id (ids ++ [n]) = Z.max (max_id ids) n.
Proof.
  unfold max_id. induction ids as [|m ids IH]; simpl; [lia|]. rewrite IH. lia.
Qed.

(** A positive maximum is the id of somebody. *)
Lemma max_id_attained ids : 0 < max_id ids -> In (max_id ids) ids.
Proof.
  induction ids as [|m ids IH]; [unfold max_id; simpl; lia|].
  change (max_id (m :: ids)) with (Z.max m (max_id ids)). intros P.
  destruct (Z.max_spec m (max_id ids)) as [[L E]|[L E]]; rewrite E in *.
  - right. apply IH, P.
  - left. reflexivity.
Qed.

Lemma plus_one_exact n : n < 2 ^ 53 -> plus_one n = n + 1.
Proof.
  intros L. unfold plus_one. apply Z.ltb_lt in L. rewrite L. reflexivity.
Qed.

Lemma add_user_cases body hashed date saved us :
  (snd (add_user body hashed date saved us) = us /\
   (fst (add_user body hashed date saved us) = Refused 400 "Username already exists" \/
    fst (add_user body hashed date saved us) = Refused 500 "Failed to add user")) \/
  (exists h,
     nullish body = false /\ hashed = Some h /\
     List.find (fun u => strict_equals (User.username u) (field body "username")) us = None /\
     let newUser :=
       {| User.id := plus_one (max_id (map User.id us));
          User.username := field body "username";
          User.password := h;
          User.plainPassword := field body "password";
          User.activeSessions := [];
          User.createdAt := date |} in
     add_user body hashed date saved us =
     (if saved then UserCreated (row_of newUser) else Refused 500 "Failed to add user",
      us ++ [newUser])).
Proof.
  unfold add_user, add_user_start, add_user_finish.
  destruct (nullish body) eqn:N.
  { left. destruct body; try discriminate; simpl; auto. }
  rewrite !(get_field _ _ N). cbn [bind].
  destruct (List.find _ us) as [u|] eqn:F; [left; auto|].
  destruct hashed as [h|]; [|left; auto].
  right. exists h. split; [reflexivity|]. split; [reflexivity|]. split; [reflexivity|].
  destruct saved; reflexivity.
Qed.

Lemma body_fields body :
  (exists e, (let! username := get body "username" in
              let! password := get body "password" in
              Normal (username, password)) = Throw e /\ nullish body = true) \/
  (let! username := get body "username" in
   let! password := get body "password" in
   Normal (username, password)) = Normal (field body "username", field body "password").
Proof.
  destruct (nullish body) eqn:N.
  - left. destruct body; try discriminate; simpl; eauto.
  - right. rewrite !(get_field _ _ N). reflexivity.
Qed.

Lemma findIndex_In {A} (f : A -> bool) l x :
  In x l -> f x = true -> exists i, findIndex f l = Some i.
Proof.
  induction l as [|y l IH]; simpl; [contradiction|].
  intros [->|I] F.
  - rewrite F. eauto.
  - destruct (f y); [eauto|]. destruct (IH I F) as (i & ->). simpl. eauto.
Qed.

Lemma findIndex_map {A B} (f : B -> bool) (g : A -> B) l :
  findIndex f (map g l) = findIndex (fun x => f (g x)) l.
Proof.
  induction l as [|y l IH]; simpl; [reflexivity|]. rewrite IH. reflexivity.
Qed.

Lemma builtin_eqb_eq a b : builtin_eqb a b = true <-> a = b.
Proof.
  destruct a as [|n], b as [|m]; simpl; split; try discriminate; try reflexivity.
  - intros E. apply String.eqb_eq in E. congruence.
  - intros [= ->]. apply String.eqb_refl.
Qed.

Lemma strict_equals_spec a b :
  strict_equals a b = true <-> a = b /\ by_value b = true.
Proof.
  split.
  - destruct a, b; simpl; try discriminate; intros E; (split; [|reflexivity]);
      try reflexivity; f_equal;
      first [apply Bool.eqb_prop, E | apply Z.eqb_eq, E | apply String.eqb_eq, E
            | apply builtin_eqb_eq, E].
  - intros [-> B]. destruct b; simpl in *; try discriminate; try reflexivity;
      first [apply Bool.eqb_reflx | apply Z.eqb_refl | apply String.eqb_refl
            | apply builtin_eqb_eq; reflexivity].
Qed.

Lemma split_word s : spaceless s = true -> split " " s = [s].
Proof.
  induction s as [|c s IH]; simpl; [reflexivity|].
  intros H. apply andb_true_iff in H as [C S]. apply negb_true_iff in C.
  rewrite C, (IH S). reflexivity.
Qed.

Lemma split_words s rest :
  spaceless s = true -> split " " (s +:+ String " " rest) = s :: split " " rest.
Proof.
  induction s as [|c s IH]; simpl; [reflexivity|].
  intros H. apply andb_true_iff in H as [C S]. apply negb_true_iff in C.
  rewrite C, (IH S). reflexivity.
Qed.

Lemma bearer_second authHeader :
  bearer (Some authHeader) =
  match nth_error (split " " authHeader) 1 with
  | Some "" => None
  | other => other
  end.
Proof. destruct authHeader; reflexivity. Qed.

Lemma bearer_word scheme token :
  spaceless scheme = true -> spaceless token = true ->
  bearer (Some (scheme +:+ String " " token)) =
  if String.eqb token "" then None else Some token.
Proof.
  intros S T. rewrite bearer_second, (split_words _ _ S), (split_word _ T). simpl.
  destruct token; reflexivity.
Qed.

Lemma bearer_words scheme token rest :
  spaceless scheme = true -> spaceless token = true ->
  bearer (Some (scheme +:+ String " " (token +:+ String " " rest))) =
  if String.eqb token "" then None else Some token.
Proof.
  intros S T. rewrite bearer_second, (split_words _ _ S), (split_words _ _ T). simpl.
  destruct token; reflexivity.
Qed.

Lemma filter_keeps {A} (f : A -> bool) l : (forall x, In x l -> f x = true) -> List.filter f l = l.
Proof.
  induction l as [|x l IH]; simpl; intros H; [reflexivity|].
  rewrite (H x (or_introl eq_refl)), IH; [reflexivity|]. intros y I. apply H. auto.
Qed.

Section Host.

Variable verify : string -> option value.
Variable compare : value -> string -> option bool.

Local Abbreviation login := (login compare).
Local Abbreviation serve := (serve compare).
Local Abbreviation authenticateToken := (authenticateToken verify).
Local Abbreviation logout_route := (logout_route verify).
Local Abbreviation io_use := (io_use verify).

(** The users after a login: unchanged, or one session more for the
    user found by name. *)
Lemma login_users body host us :
  List.NoDup (map User.id us) ->
  snd (login body host us) = us \/
  exists user token,
    List.find (fun u => strict_equals (User.username u) (field body "username")) us
    = Some user /\
    compare (field body "password") (User.password user) = Some true /\
    (length (User.activeSessions user) < MAX_DEVICES_PER_USER)%nat /\
    signed host = Some token /\
    fst (login body host us) =
      (if login_saved host then LoggedIn token (User.id user) (User.username user)
       else Unanswered) /\
    snd (login body host us) =
    map (fun u => if (User.id u =? User.id user)%Z
                  then User.push_session
                         {| ActiveSession.sessionId := new_sessionId host;
                            ActiveSession.userAgent :=
                              or_else (header_userAgent host) (VStr "Unknown");
                            ActiveSession.ipAddress := req_ip host;
                            ActiveSession.createdAt := login_date host |} u
                  else u) us.
Proof.
  intros D. unfold Users.login.
  destruct (body_fields body) as [(e & -> & _)| -> ]; [left; reflexivity|].
  destruct (List.find _ us) as [user|] eqn:F; [|left; reflexivity].
  destruct (compare _ _) as [[|]|] eqn:C; [|left; reflexivity..].
  destruct (MAX_DEVICES_PER_USER <=? _)%nat eqn:M; [left; reflexivity|].
  destruct (signed host) as [token|] eqn:S; [|left; reflexivity].
  destruct (findIndex _ us) as [i|] eqn:I; [|left; reflexivity].
  right. exists user, token. split; [reflexivity|]. split; [exact C|].
  split; [apply Nat.leb_gt, M|]. split; [reflexivity|].
  rewrite <- (alter_by_id _ _ _ _ D I).
  destruct (login_saved host); split; reflexivity.
Qed.

Lemma Forall_map_if {A} (P : A -> Prop) (c : A -> bool) f l :
  Forall P l -> (forall x, In x l -> c x = true -> P (f x)) ->
  Forall P (map (fun x => if c x then f x else x) l).
Proof.
  induction 1 as [|x l Px Pl IH]; simpl; intros H; [constructor|].
  constructor.
  - destruct (c x) eqn:C; [apply H; auto|exact Px].
  - apply IH. intros y I. apply H. auto.
Qed.

Lemma map_id_if (c : User.t -> bool) f us :
  (forall u, User.id (f u) = User.id u) ->
  map User.id (map (fun u => if c u then f u else u) us) = map User.id us.
Proof.
  intros H. rewrite map_map. apply map_ext. intros u. destruct (c u); auto.
Qed.

Lemma alter_ids (f : User.t -> User.t) i us :
  (forall u, User.id (f u) = User.id u) ->
  map User.id (alter f i us) = map User.id us.
Proof.
  intros H. revert i. induction us as [|u us IH]; intros [|i]; try reflexivity.
  - rewrite alter_here. simpl. rewrite H. reflexivity.
  - rewrite alter_there. simpl. rewrite IH. reflexivity.
Qed.

Lemma delete_In {A} i (l : list A) x : In x (delete i l) -> In x l.
Proof.
  revert i. induction l as [|y l IH]; intros [|i]; try (intros []; fail).
  - rewrite delete_here. simpl. auto.
  - rewrite delete_there. simpl. intros [->|I]; [auto|]. right. exact (IH i I).
Qed.

Lemma delete_NoDup {A} i (l : list A) : List.NoDup l -> List.NoDup (delete i l).
Proof.
  revert i. induction l as [|y l IH]; intros [|i] D; try exact D.
  - rewrite delete_here. apply NoDup_cons_iff in D. apply D.
  - rewrite delete_there. apply NoDup_cons_iff in D as [N D].
    apply NoDup_cons_iff. split; [|apply IH, D].
    intros I. apply N, (delete_In _ _ _ I).
Qed.

Lemma delete_map {A B} (f : A -> B) i l : map f (delete i l) = delete i (map f l).
Proof.
  revert i. induction l as [|y l IH]; intros [|i]; try reflexivity.
  simpl map. rewrite !delete_there. simpl. rewrite IH. reflexivity.
Qed.

Lemma serve_consistent us r :
  consistent us ->
  (is_addition r = true -> max_id (map User.id us) < 2 ^ 53) ->
  consistent (serve us r) /\
  max_id (map User.id (serve us r))
  <= max_id (map User.id us) + (if is_addition r then 1 else 0).
Proof.
  intros [D B] Hb.
  destruct r as [body host|user saved|body hashed date saved|userId saved]; simpl.
  - destruct (login_users body host us D) as [->|(user & token & F & _ & L & _ & _ & ->)];
      [split; [split; assumption|simpl; lia]|].
    apply find_some in F as [I _]. split; [split|].
    + rewrite map_id_if; [exact D|reflexivity].
    + apply Forall_map_if; [exact B|]. intros u Iu E. apply Z.eqb_eq in E.
      rewrite (unique_id us u user D Iu I E). simpl.
      rewrite List.length_app. simpl. unfold MAX_DEVICES_PER_USER in *. lia.
    + rewrite map_id_if; [lia|reflexivity].
  - unfold logout.
    destruct (let! _ := _ in _) as [[sessionId id]|]; [|split; [split; assumption|simpl; lia]].
    destruct (findIndex _ us) as [i|]; [|split; [split; assumption|simpl; lia]].
    assert (C : consistent (alter (User.filter_sessions
                 (fun s => negb (strict_equals (VStr (ActiveSession.sessionId s)) sessionId)))
                 i us) /\
                max_id (map User.id (alter (User.filter_sessions
                 (fun s => negb (strict_equals (VStr (ActiveSession.sessionId s)) sessionId)))
                 i us)) <= max_id (map User.id us) + 0).
    { split; [split|].
      - rewrite alter_ids; [exact D|reflexivity].
      - apply Forall_alter; [exact B|]. intros u _ Lu.
        eapply Nat.le_trans; [apply List.filter_length_le|exact Lu].
      - rewrite alter_ids; [lia|reflexivity]. }
    destruct saved; exact C.
  - specialize (Hb eq_refl).
    destruct (add_user_cases body hashed date saved us)
      as [[-> _]|(h & _ & _ & _ & E)]; [split; [split; assumption|simpl; lia]|].
    cbv zeta in E. rewrite E. cbn [snd]. rewrite (plus_one_exact _ Hb).
    split; [split|].
    + rewrite map_app. simpl. apply NoDup_snoc; [exact D|].
      intros I. pose proof (max_id_bound _ _ I). lia.
    + apply Forall_app. split; [exact B|]. constructor; [|constructor]. simpl.
      unfold MAX_DEVICES_PER_USER. lia.
    + rewrite map_app. simpl. rewrite max_id_snoc.
      pose proof (max_id_nonneg (map User.id us)). lia.
  - unfold delete_user. destruct (findIndex _ us) as [i|]; [|split; [split; assumption|simpl; lia]].
    assert (C : consistent (delete i us) /\
                max_id (map User.id (delete i us)) <= max_id (map User.id us) + 0).
    { split; [split|].
      - rewrite delete_map. apply delete_NoDup, D.
      - rewrite List.Forall_forall in *. intros u I. apply B, (delete_In _ _ _ I).
      - rewrite Z.add_0_r. apply max_id_incl. intros n I.
        apply in_map_iff in I as (u & <- & I). apply in_map, (delete_In _ _ _ I). }
    destruct saved; exact C.
Qed.

Lemma fold_consistent us rs :
  consistent us ->
  max_id (map User.id us) + Z.of_nat (length (List.filter is_addition rs)) <= 2 ^ 53 ->
  consistent (fold_left serve rs us).
Proof.
  revert us. induction rs as [|r rs IH]; simpl; intros us C Hb; [exact C|].
  destruct (serve_consistent us r C) as [C' M].
  { intros A. rewrite A in Hb. simpl length in Hb. lia. }
  apply IH; [exact C'|].
  destruct (is_addition r); simpl length in Hb; lia.
Qed.

(** X19.  When requests are served one after another, logins, logouts,
    additions and deletions keep the user ids pairwise distinct and keep
    every user at no more than [MAX_DEVICES_PER_USER] (two) active
    sessions, whatever the requests carry and whatever the host
    answers, as long as the additions cannot take the largest id past
    2^53, where [+ 1] stops giving a new number. *)
Theorem requests_keep_users_consistent us rs :
  consistent us ->
  max_id (map User.id us) + Z.of_nat (length (List.filter is_addition rs)) <= 2 ^ 53 ->
  let us' := fold_left serve rs us in
  List.NoDup (map User.id us') /\
  forall u, In u us' -> (length (User.activeSessions u) <= 2)%nat.
Proof.
  intros C Hb. destruct (fold_consistent us rs C Hb) as [D B].
  split; [exact D|]. rewrite List.Forall_forall in B. exact B.
Qed.

(** X20.  With distinct ids, a login either leaves the users as they
    were (and is unanswered, or refused with 401 "Invalid credentials"
    or with the 403 of the device limit), or it found a user of that
    name whose password compares equal and who held fewer than two
    sessions, and then exactly that user gained the new session, as the
    last one; the token is answered only when the file was saved. *)
Theorem login_opens_one_session body host us :
  List.NoDup (map User.id us) ->
  let out := login body host us in
  (snd out = us /\
   (fst out = Unanswered \/
    fst out = Refused 401 "Invalid credentials" \/
    fst out = Refused 403 "Maximum number of active devices (2) reached")) \/
  (exists user token,
     In user us /\
     strict_equals (User.username user) (field body "username") = true /\
     compare (field body "password") (User.password user) = Some true /\
     (length (User.activeSessions user) < 2)%nat /\
     signed host = Some token /\
     fst out = (if login_saved host
                then LoggedIn token (User.id user) (User.username user)
                else Unanswered) /\
     snd out = map (fun u => if (User.id u =? User.id user)%Z
                             then User.push_session (session_of host) u else u) us).
Proof.
  intros D out. subst out. unfold Users.login.
  destruct (body_fields body) as [(e & -> & _)| -> ]; [left; auto|].
  destruct (List.find _ us) as [user|] eqn:F; [|left; auto].
  destruct (compare _ _) as [[|]|] eqn:C; [|left; auto..].
  destruct (_ <=? _)%nat eqn:M; [left; auto|].
  destruct (signed host) as [token|] eqn:S; [|left; auto].
  destruct (findIndex _ us) as [i|] eqn:I; [|left; auto].
  right. exists user, token. apply find_some in F as [Iu U].
  split; [exact Iu|]. split; [exact U|]. split; [exact C|].
  split; [apply Nat.leb_gt, M|]. split; [reflexivity|].
  rewrite <- (alter_by_id _ _ _ _ D I).
  destruct (login_saved host); split; reflexivity.
Qed.

Lemma login_success body host us token id username us' :
  List.NoDup (map User.id us) ->
  login body host us = (LoggedIn token id username, us') ->
  exists user,
    In user us /\ id = User.id user /\ username = User.username user /\
    signed host = Some token /\
    us' = map (fun u => if (User.id u =? User.id user)%Z
                        then User.push_session (session_of host) u else u) us.
Proof.
  intros D. unfold Users.login.
  destruct (body_fields body) as [(e & -> & _)| -> ]; [discriminate|].
  destruct (List.find _ us) as [user|] eqn:F; [|discriminate].
  destruct (compare _ _) as [[|]|] eqn:C; [|discriminate..].
  destruct (_ <=? _)%nat eqn:M; [discriminate|].
  destruct (signed host) as [token'|] eqn:S; [|discriminate].
  destruct (findIndex _ us) as [i|] eqn:I; [|discriminate].
  destruct (login_saved host); [|discriminate]. intros [= <- <- <- <-].
  exists user. apply find_some in F as [Iu _].
  split; [exact Iu|]. split; [reflexivity|]. split; [reflexivity|]. split; [reflexivity|].
  apply (alter_by_id _ _ _ _ D I).
Qed.

(** X21.  A logout with the token of a login undoes that login: when the
    new session id was not in use, the token has no space and verifies
    to a payload with the id and session id of the login, the logout
    route under any scheme word answers "Logged out successfully" and
    leaves the users exactly as they were before the login. *)
Theorem logout_undoes_login body host us token id username us' scheme payload :
  List.NoDup (map User.id us) ->
  login body host us = (LoggedIn token id username, us') ->
  (forall u s, In u us -> In s (User.activeSessions u) ->
               ActiveSession.sessionId s <> new_sessionId host) ->
  spaceless scheme = true -> spaceless token = true -> token <> "" ->
  verify token = Some payload ->
  get payload "id" = Normal (VNum id) ->
  get payload "sessionId" = Normal (VStr (new_sessionId host)) ->
  logout_route (Some (scheme +:+ " " +:+ token)) true us'
  = (Succeeded "Logged out successfully", us).
Proof.
  intros D L Fr Sc St Tn V Gi Gs.
  destruct (login_success _ _ _ _ _ _ _ D L) as (user & Iu & -> & -> & _ & ->).
  set (g := fun u : User.t =>
              if (User.id u =? User.id user)%Z
              then User.push_session (session_of host) u else u).
  assert (Ig : forall u, User.id (g u) = User.id u).
  { intros u. unfold g. destruct (User.id u =? User.id user)%Z; reflexivity. }
  destruct (findIndex_In (fun u => (User.id u =? User.id user)%Z) us user Iu (Z.eqb_refl _))
    as (i & I).
  assert (I' : findIndex (fun u => (User.id u =? User.id user)%Z) (map g us) = Some i).
  { rewrite findIndex_map, <- I. apply findIndex_ext. intros u _. rewrite Ig. reflexivity. }
  unfold Users.logout_route, Users.authenticateToken.
  change (scheme +:+ " " +:+ token) with (scheme +:+ String " " token).
  rewrite (bearer_word _ _ Sc St).
  apply String.eqb_neq in Tn. rewrite Tn, V.
  unfold logout. rewrite Gs, Gi. cbn [bind].
  change (findIndex _ (map g us))
    with (findIndex (fun u => (User.id u =? User.id user)%Z) (map g us)).
  rewrite I'. f_equal.
  rewrite (alter_by_id _ (User.id user) (map g us) i); [|rewrite map_map|exact I'].
  2:{ erewrite map_ext; [exact D|]. intros u. apply Ig. }
  rewrite map_map. erewrite map_ext_in; [apply map_id|].
  intros u Iuu. rewrite Ig. unfold g.
  destruct (User.id u =? User.id user)%Z; [|reflexivity].
  destruct u as [uid un up upp usess uc]. unfold User.filter_sessions, User.push_session.
  cbn [User.id User.username User.password User.plainPassword User.activeSessions
       User.createdAt].
  f_equal. rewrite List.filter_app. cbn [List.filter session_of ActiveSession.sessionId strict_equals].
  rewrite String.eqb_refl. cbn [negb]. rewrite app_nil_r.
  apply filter_keeps. intros s Is. apply negb_true_iff.
  cbn [strict_equals]. apply String.eqb_neq. exact (Fr _ s Iuu Is).
Qed.

(** X22.  [authenticateToken] reads the second word of the header only:
    the scheme word is not examined and whatever follows a second space
    is ignored; a header that is missing, or has no second word, or an
    empty one, is refused with 401 before the token is verified, and a
    token that does not verify with 403.  For tokens without a space the
    REST middleware under any scheme and the socket middleware accept
    the same tokens, with the same decoded user. *)
Theorem authenticateToken_reads_second_word scheme token rest :
  spaceless scheme = true -> spaceless token = true ->
  let verdict :=
    if String.eqb token "" then Denied 401 "Access token required"
    else match verify token with
         | Some user => Next user
         | None => Denied 403 "Invalid or expired token"
         end in
  authenticateToken (Some (scheme +:+ " " +:+ token)) = verdict /\
  authenticateToken (Some (scheme +:+ " " +:+ token +:+ " " +:+ rest)) = verdict /\
  authenticateToken (Some scheme) = Denied 401 "Access token required" /\
  authenticateToken None = Denied 401 "Access token required" /\
  (forall user,
     authenticateToken (Some (scheme +:+ " " +:+ token)) = Next user <->
     io_use (VStr token) = Some user).
Proof.
  intros S T. cbv zeta. unfold Users.authenticateToken, Users.io_use.
  change (scheme +:+ " " +:+ token) with (scheme +:+ String " " token).
  change (scheme +:+ " " +:+ token +:+ " " +:+ rest)
    with (scheme +:+ String " " (token +:+ String " " rest)).
  rewrite (bearer_word _ _ S T), (bearer_words _ _ rest S T).
  rewrite bearer_second, (split_word _ S). simpl.
  destruct (String.eqb token ""); simpl.
  - repeat (split; [reflexivity|]). intros user. split; discriminate.
  - repeat (split; [reflexivity|]). intros user.
    destruct (verify token); split; congruence.
Qed.

End Host.

(** X23.  Served without another request in between,
    [POST /api/admin/users] either leaves the users as they were and
    answers 400 "Username already exists" or 500 "Failed to add
    user", or appends one user with the request's name and no sessions;
    the answer is the created user, or the 500 when the file could not
    be saved.  While the largest id in use is below 2^53 the new id is
    one above it (at least 1), hence above every other id; at 2^53 the
    sum [+ 1] rounds back and the new user gets the id 2^53 again, the
    id of a user there is already. *)
Theorem add_user_assigns_fresh_id body hashed date saved us :
  let out := add_user body hashed date saved us in
  (snd out = us /\
   (fst out = Refused 400 "Username already exists" \/
    fst out = Refused 500 "Failed to add user")) \/
  (exists newUser,
     snd out = us ++ [newUser] /\
     User.id newUser = plus_one (max_id (map User.id us)) /\
     (max_id (map User.id us) < 2 ^ 53 ->
      User.id newUser = max_id (map User.id us) + 1 /\
      0 < User.id newUser /\
      forall u, In u us -> User.id u < User.id newUser) /\
     (max_id (map User.id us) = 2 ^ 53 ->
      User.id newUser = 2 ^ 53 /\
      exists u, In u us /\ User.id u = User.id newUser) /\
     User.username newUser = field body "username" /\
     (forall u, In u us -> strict_equals (User.username u) (User.username newUser) = false) /\
     User.activeSessions newUser = [] /\
     fst out = if saved then UserCreated (row_of newUser)
               else Refused 500 "Failed to add user").
Proof.
  cbv zeta.
  destruct (add_user_cases body hashed date saved us) as [L|(h & _ & _ & F & E)];
    [left; exact L|].
  cbv zeta in E. right. eexists. rewrite E. cbn [fst snd].
  split; [reflexivity|]. cbn [User.id User.username User.activeSessions].
  split; [reflexivity|]. split.
  { intros Hb. rewrite (plus_one_exact _ Hb).
    split; [reflexivity|].
    split; [pose proof (max_id_nonneg (map User.id us)); lia|].
    intros u I. pose proof (max_id_bound _ _ (in_map User.id _ _ I)). lia. }
  split.
  { intros Hm. rewrite Hm. split; [reflexivity|].
    assert (I : In (max_id (map User.id us)) (map User.id us)).
    { apply max_id_attained. rewrite Hm. reflexivity. }
    apply in_map_iff in I as (u & Eu & I). exists u. split; [exact I|].
    rewrite Eu, Hm. reflexivity. }
  split; [reflexivity|].
  split; [intros u I; exact (find_none _ _ F u I)|].
  split; reflexivity.
Qed.

(** X24.  The duplicate check compares names with [===]: the request is
    refused as a duplicate exactly when its name is a primitive equal to
    the name of a user; a name that is an object or an array is never
    taken for a duplicate. *)
Theorem duplicate_names_are_caught_by_value body hashed date saved us :
  nullish body = false ->
  let username := field body "username" in
  (fst (add_user body hashed date saved us) = Refused 400 "Username already exists" <->
   by_value username = true /\ In username (map User.username us)).
Proof.
  intros N username. unfold add_user, add_user_start, add_user_finish.
  rewrite !(get_field _ _ N). cbn [bind]. fold username.
  destruct (List.find _ us) as [u|] eqn:F.
  - apply find_some in F as [I E]. apply strict_equals_spec in E as [E B].
    simpl. split; [|reflexivity]. intros _. split; [exact B|].
    rewrite <- E. apply in_map, I.
  - split.
    + destruct hashed; [destruct saved|]; simpl; discriminate.
    + intros [B I]. exfalso. apply in_map_iff in I as (u & E & I).
      pose proof (find_none _ _ F u I) as X. cbv beta in X.
      assert (Y : strict_equals (User.username u) username = true)
        by (apply strict_equals_spec; auto).
      congruence.
Qed.

(** X25.  A failed write of the users file is not rolled back: the
    users in memory after a login, logout, addition or deletion are the
    same whether the write succeeded or not, while the success answer is
    sent only when it did. *)
Theorem failed_save_is_not_rolled_back compare body host hashed date userId user us :
  snd (login compare body (with_saved false host) us)
  = snd (login compare body (with_saved true host) us) /\
  snd (logout user false us) = snd (logout user true us) /\
  snd (add_user body hashed date false us) = snd (add_user body hashed date true us) /\
  snd (delete_user userId false us) = snd (delete_user userId true us) /\
  (forall token id username,
     fst (login compare body (with_saved false host) us) <> LoggedIn token id username) /\
  (forall message, fst (logout user false us) <> Succeeded message) /\
  (forall r, fst (add_user body hashed date false us) <> UserCreated r) /\
  (forall message, fst (delete_user userId false us) <> Succeeded message).
Proof.
  unfold login, logout, add_user, add_user_start, add_user_finish, delete_user.
  destruct (body_fields body) as [(e & -> & _)| -> ].
  - destruct (let! _ := _ in _) as [[sessionId id]|];
      destruct (findIndex _ us); try destruct (findIndex _ us);
      repeat split; try reflexivity; intros; discriminate.
  - destruct (List.find _ us) as [u|].
    + destruct (compare _ _) as [[|]|];
        [destruct (_ <=? _)%nat;
         [|cbn [signed with_saved login_saved]; destruct (signed host);
           [destruct (findIndex (fun u0 => (User.id u0 =? User.id u)%Z) us)|]]|..];
        destruct (let! _ := _ in _) as [[sessionId id]|];
        try destruct (findIndex (fun u0 => strict_equals _ _) us);
        destruct (findIndex (fun u0 => match userId with _ => _ end) us);
        repeat split; try reflexivity; intros; discriminate.
    + destruct hashed;
        destruct (let! _ := _ in _) as [[sessionId id]|];
        try destruct (findIndex (fun u0 => strict_equals _ _) us);
        destruct (findIndex (fun u0 => match userId with _ => _ end) us);
        repeat split; try reflexivity; intros; discriminate.
Qed.

(** X26.  With distinct ids, deleting an id in use removes the user with
    that id and nobody else (and answers 500 when the file could not be
    saved, the user being removed all the same); an id not in use, or a
    parameter that [parseInt] turns into [NaN], is answered with 404 and
    changes nothing. *)
Theorem delete_user_removes_that_id n saved us :
  List.NoDup (map User.id us) ->
  (In n (map User.id us) ->
   delete_user (Some n) saved us =
   (if saved then Succeeded "User deleted successfully"
    else Refused 500 "Failed to delete user",
    List.filter (fun u => negb (User.id u =? n)%Z) us)) /\
  (~ In n (map User.id us) ->
   delete_user (Some n) saved us = (Refused 404 "User not found", us)) /\
  delete_user None saved us = (Refused 404 "User not found", us).
Proof.
  intros D. unfold delete_user. split; [|split].
  - intros I. apply in_map_iff in I as (u & E & I).
    destruct (findIndex_In (fun u => (User.id u =? n)%Z) us u I) as (i & F).
    { apply Z.eqb_eq, E. }
    rewrite F, (delete_by_id _ _ _ D F). destruct saved; reflexivity.
  - intros N. destruct (findIndex _ us) as [i|] eqn:F; [|reflexivity]. exfalso.
    pose proof (findIndex_find (fun u => (User.id u =? n)%Z) us) as X.
    destruct (List.find _ us) as [u|] eqn:Fu; [|congruence].
    apply find_some in Fu as [I E]. apply N. apply Z.eqb_eq in E. subst n.
    apply in_map, I.
  - assert (F : findIndex (fun _ : User.t => false) us = None).
    { clear D. induction us as [|u us IH]; simpl; [reflexivity|]. rewrite IH. reflexivity. }
    rewrite F. reflexivity.
Qed.

(** X27.  The users that [loadOrCreateUsers] creates when there is no
    users file are consistent: eleven users with the ids 1 to 11, the
    administrator first, none with a session. *)
Theorem created_users_are_consistent adminHash adminDate generated :
  let us := created_users adminHash adminDate generated in
  consistent us /\
  map User.id us = [1; 2; 3; 4; 5; 6; 7; 8; 9; 10; 11] /\
  (forall u, In u us -> User.activeSessions u = []).
Proof.
  cbv zeta.
  assert (I : map User.id (created_users adminHash adminDate generated)
              = [1; 2; 3; 4; 5; 6; 7; 8; 9; 10; 11]).
  { unfold created_users. cbn [map User.id]. rewrite map_map.
    transitivity (1 :: map (fun i => Z.of_nat i + 2) (seq 0 10)); [|reflexivity].
    f_equal. apply map_ext. intros i.
    destruct (generated i) as [[[a b] c] d]. reflexivity. }
  assert (S : forall u, In u (created_users adminHash adminDate generated) ->
                        User.activeSessions u = []).
  { unfold created_users. intros u [<-|In']; [reflexivity|].
    apply in_map_iff in In' as (i & <- & _).
    destruct (generated i) as [[[a b] c] d]. reflexivity. }
  split; [|split; [exact I|exact S]].
  split.
  - rewrite I. repeat (constructor; [simpl; intuition discriminate|]). constructor.
  - apply List.Forall_forall. intros u Iu. rewrite (S u Iu). simpl.
    unfold MAX_DEVICES_PER_USER. lia.
Qed.

(** X30.  The id of a new user is chosen before the handler waits for
    the hash and the user is appended after: two additions that both
    start before either finishes choose the same id, and when both
    hashes arrive the users end with two users of that id, so the ids
    are no longer pairwise distinct. *)
Theorem overlapping_additions_share_an_id
    body1 body2 id1 name1 password1 id2 name2 password2
    hash1 hash2 date1 date2 saved1 saved2 us :
  add_user_start body1 us = Hashing id1 name1 password1 ->
  add_user_start body2 us = Hashing id2 name2 password2 ->
  let us1 := snd (add_user_finish id1 name1 password1 (Some hash1) date1 saved1 us) in
  let us2 := snd (add_user_finish id2 name2 password2 (Some hash2) date2 saved2 us1) in
  id1 = id2 /\
  (exists first second,
     us2 = us ++ [first; second] /\
     User.id first = id1 /\ User.id second = id1 /\
     User.username first = name1 /\ User.username second = name2) /\
  ~ List.NoDup (map User.id us2).
Proof.
  intros S1 S2. cbv zeta.
  assert (E : forall body id name password,
            add_user_start body us = Hashing id name password ->
            id = plus_one (max_id (map User.id us))).
  { intros body id name password S. unfold add_user_start in S.
    destruct (let! _ := _ in _) as [[u p]|]; [|discriminate].
    destruct (List.find _ us); [discriminate|]. congruence. }
  rewrite (E _ _ _ _ S1), (E _ _ _ _ S2).
  unfold add_user_finish. destruct saved1, saved2; cbn [snd];
    rewrite <- !app_assoc; cbn [app];
    (split; [reflexivity|]);
    (split; [eexists _, _; split; [reflexivity|]; repeat split|]);
    rewrite map_app; cbn [map User.id]; intros D;
    apply List.NoDup_remove_2 in D; apply D, in_or_app; right; left; reflexivity.
Qed.

(** X19, witness: a login, an addition, a deletion and a logout served
    from two users. *)
Lemma requests_keep_users_consistent_witness :
  let us' :=
    fold_left (serve Accounts.compare)
      [Login (Accounts.credentials "ann" "secret") Accounts.host;
       AddUser (Accounts.credentials "cat" "pw") (Some "#pw") "2025-01-04" true;
       DeleteUser (Some 2) true;
       Logout (VObj [("id", VNum 1); ("sessionId", VStr "s1")]) true]
      [Accounts.ann; Accounts.bob] in
  List.NoDup (map User.id us') /\
  forall u, In u us' -> (length (User.activeSessions u) <= 2)%nat.
Proof.
  apply (requests_keep_users_consistent Accounts.compare [Accounts.ann; Accounts.bob]).
  - split.
    + repeat (constructor; [simpl; intuition discriminate|]). constructor.
    + repeat constructor.
  - vm_compute. discriminate.
Defined.

(** X20, witness: ann logs in with the right password. *)
Lemma login_opens_one_session_witness :
  let out := login Accounts.compare (Accounts.credentials "ann" "secret") Accounts.host
               [Accounts.ann; Accounts.bob] in
  (snd out = [Accounts.ann; Accounts.bob] /\
   (fst out = Unanswered \/
    fst out = Refused 401 "Invalid credentials" \/
    fst out = Refused 403 "Maximum number of active devices (2) reached")) \/
  (exists user token,
     In user [Accounts.ann; Accounts.bob] /\
     strict_equals (User.username user)
       (field (Accounts.credentials "ann" "secret") "username") = true /\
     Accounts.compare (field (Accounts.credentials "ann" "secret") "password")
       (User.password user) = Some true /\
     (length (User.activeSessions user) < 2)%nat /\
     signed Accounts.host = Some token /\
     fst out = (if login_saved Accounts.host
                then LoggedIn token (User.id user) (User.username user)
                else Unanswered) /\
     snd out = map (fun u => if (User.id u =? User.id user)%Z
                             then User.push_session (session_of Accounts.host) u else u)
                   [Accounts.ann; Accounts.bob]).
Proof.
  apply (login_opens_one_session Accounts.compare (Accounts.credentials "ann" "secret")
           Accounts.host [Accounts.ann; Accounts.bob]).
  repeat (constructor; [simpl; intuition discriminate|]). constructor.
Defined.

(** X21, witness: ann logs in and out again. *)
Lemma logout_undoes_login_witness :
  let us := [Accounts.ann; Accounts.bob] in
  let us' := snd (login Accounts.compare (Accounts.credentials "ann" "secret")
                    Accounts.host us) in
  us' <> us /\
  logout_route Accounts.verify (Some "Bearer t1") true us'
  = (Succeeded "Logged out successfully", us).
Proof.
  split; [discriminate|].
  apply (logout_undoes_login Accounts.verify Accounts.compare
           (Accounts.credentials "ann" "secret") Accounts.host
           [Accounts.ann; Accounts.bob] "t1" 1 (VStr "ann") _ "Bearer"
           (VObj [("id", VNum 1); ("username", VStr "ann"); ("sessionId", VStr "s1")]));
    try reflexivity.
  - repeat (constructor; [simpl; intuition discriminate|]). constructor.
  - intros u s [<-|[<-|[]]] [].
  - discriminate.
Defined.

(** X22, witness: the header "Bearer t1", with and without a tail. *)
Lemma authenticateToken_reads_second_word_witness :
  let user := VObj [("id", VNum 1); ("username", VStr "ann"); ("sessionId", VStr "s1")] in
  authenticateToken Accounts.verify (Some "Bearer t1") = Next user /\
  authenticateToken Accounts.verify (Some "Bearer t1 and more") = Next user /\
  authenticateToken Accounts.verify (Some "Bearer") = Denied 401 "Access token required" /\
  authenticateToken Accounts.verify None = Denied 401 "Access token required" /\
  (forall user',
     authenticateToken Accounts.verify (Some "Bearer t1") = Next user' <->
     io_use Accounts.verify (VStr "t1") = Some user').
Proof.
  apply (authenticateToken_reads_second_word Accounts.verify "Bearer" "t1" "and more");
    reflexivity.
Defined.

(** X24, witness: a second "ann". *)
Lemma duplicate_names_are_caught_by_value_witness :
  fst (add_user (Accounts.credentials "ann" "pw") (Some "#pw") "2025-01-04" true
         [Accounts.ann; Accounts.bob])
  = Refused 400 "Username already exists" <->
  by_value (field (Accounts.credentials "ann" "pw") "username") = true /\
  In (field (Accounts.credentials "ann" "pw") "username")
     (map User.username [Accounts.ann; Accounts.bob]).
Proof.
  apply (duplicate_names_are_caught_by_value (Accounts.credentials "ann" "pw")
           (Some "#pw") "2025-01-04" true [Accounts.ann; Accounts.bob]).
  reflexivity.
Defined.

(** X26, witness: deleting bob. *)
Lemma delete_user_removes_that_id_witness :
  delete_user (Some 2) true [Accounts.ann; Accounts.bob]
  = (Succeeded "User deleted successfully", [Accounts.ann]) /\
  delete_user (Some 3) true [Accounts.ann; Accounts.bob]
  = (Refused 404 "User not found", [Accounts.ann; Accounts.bob]).
Proof.
  assert (D : List.NoDup (map User.id [Accounts.ann; Accounts.bob])).
  { repeat (constructor; [simpl; intuition discriminate|]). constructor. }
  split.
  - apply (proj1 (delete_user_removes_that_id 2 true [Accounts.ann; Accounts.bob] D)).
    simpl. tauto.
  - apply (proj1 (proj2 (delete_user_removes_that_id 3 true
                           [Accounts.ann; Accounts.bob] D))).
    simpl. intuition discriminate.
Defined.

(** X30, witness: "cat" and "dan" are added at the same time and both
    get the id 3. *)
Lemma overlapping_additions_share_an_id_witness :
  let us1 := snd (add_user_finish 3 (VStr "cat") (VStr "pw") (Some "#pw")
                    "2025-01-04" true [Accounts.ann; Accounts.bob]) in
  let us2 := snd (add_user_finish 3 (VStr "dan") (VStr "pw") (Some "#pw")
                    "2025-01-04" true us1) in
  3 = 3 /\
  (exists first second,
     us2 = [Accounts.ann; Accounts.bob] ++ [first; second] /\
     User.id first = 3 /\ User.id second = 3 /\
     User.username first = VStr "cat" /\ User.username second = VStr "dan") /\
  ~ List.NoDup (map User.id us2).
Proof.
  apply (overlapping_additions_share_an_id
           (Accounts.credentials "cat" "pw") (Accounts.credentials "dan" "pw")
           3 (VStr "cat") (VStr "pw") 3 (VStr "dan") (VStr "pw")
           "#pw" "#pw" "2025-01-04" "2025-01-04" true true
           [Accounts.ann; Accounts.bob]); reflexivity.
Defined.

End UsersFacts.

(** ** Generated names and passwords *)

Module RandomFacts.
Import JS Random.

Lemma chars_app a b :
  list_ascii_of_string (a +:+ b) = list_ascii_of_string a ++ list_ascii_of_string b.
Proof. induction a as [|c a IH]; simpl; [reflexivity|]. rewrite IH. reflexivity. Qed.

Lemma chars_length s : length (list_ascii_of_string s) = String.length s.
Proof. induction s as [|c s IH]; simpl; [reflexivity|]. rewrite IH. reflexivity. Qed.

Lemma get_chars s i : String.get i s = nth_error (list_ascii_of_string s) i.
Proof.
  revert i. induction s as [|c s IH]; intros [|i]; simpl; try reflexivity. apply IH.
Qed.

Lemma charAt_chars s i :
  (i < String.length s)%nat ->
  exists c, charAt s i = String c EmptyString /\ In c (list_ascii_of_string s).
Proof.
  intros L. unfold charAt. rewrite get_chars.
  destruct (nth_error (list_ascii_of_string s) i) as [c|] eqn:E.
  - exists c. split; [reflexivity|]. apply (nth_error_In _ _ E).
  - apply nth_error_None in E. rewrite chars_length in E. lia.
Qed.

Lemma substring_all s : String.substring 0 (String.length s) s = s.
Proof. induction s as [|c s IH]; simpl; [reflexivity|]. rewrite IH. reflexivity. Qed.

Lemma generate_chars alphabet (draws : nat -> nat) (rounds : list nat) start :
  (forall i, In i rounds -> (draws i < String.length alphabet)%nat) ->
  exists drawn,
    list_ascii_of_string
      (fold_left (fun result i => result +:+ charAt alphabet (draws i)) rounds start)
    = list_ascii_of_string start ++ drawn /\
    length drawn = length rounds /\
    forall c, In c drawn -> In c (list_ascii_of_string alphabet).
Proof.
  revert start. induction rounds as [|i rounds IH]; simpl; intros start H.
  - exists []. rewrite app_nil_r. split; [reflexivity|]. split; [reflexivity|].
    intros c [].
  - destruct (charAt_chars alphabet (draws i)) as (c & E & Ic); [apply H; auto|].
    destruct (IH (start +:+ charAt alphabet (draws i))) as (drawn & E1 & L & D).
    { intros j Ij. apply H. auto. }
    exists (c :: drawn). rewrite E1, chars_app, E. simpl. rewrite <- app_assoc. simpl.
    split; [reflexivity|]. split; [lia|]. intros x [<-|Ix]; auto.
Qed.

(** X28.  [generateRandomString(length, includeUppercase)] returns
    exactly [length] characters, each from its alphabet (lower-case
    letters and digits, and upper-case letters on request);
    [generateRandomUsername] returns "user" followed by five lower-case
    letters or digits. *)
Theorem generateRandomString_draws_from_alphabet length includeUppercase draws :
  (forall i, (draws i < String.length (characters includeUppercase))%nat) ->
  String.length (generateRandomString length includeUppercase draws) = length /\
  drawn_from (characters includeUppercase)
             (generateRandomString length includeUppercase draws) /\
  (includeUppercase = false ->
   exists suffix,
     generateRandomUsername draws = "user" +:+ suffix /\
     String.length suffix = 5%nat /\
     drawn_from "abcdefghijklmnopqrstuvwxyz0123456789" suffix).
Proof.
  intros H.
  assert (G : forall n,
             String.length (generateRandomString n includeUppercase draws) = n /\
             drawn_from (characters includeUppercase)
                        (generateRandomString n includeUppercase draws)).
  { intros n. unfold generateRandomString.
    destruct (generate_chars (characters includeUppercase) draws (seq 0 n) "")
      as (drawn & E & L & D).
    { intros i _. apply H. }
    change (list_ascii_of_string "" ++ drawn) with drawn in E.
    split.
    - rewrite <- chars_length, E, L. apply length_seq.
    - intros c. rewrite E. apply D. }
  split; [apply G|]. split; [apply G|].
  intros ->. exists (generateRandomString 5 false draws).
  split; [reflexivity|]. apply (G 5%nat).
Qed.

Lemma digit_chars n :
  (n < 10)%nat ->
  exists c, string_of_Z (Z.of_nat n) = String c EmptyString /\
            In c (list_ascii_of_string "0123456789").
Proof.
  intros L. do 10 (destruct n as [|n]; [eexists; split; [reflexivity|simpl; tauto]|]).
  lia.
Qed.

(** X29.  [generateRandomPassword] returns six characters, among them a
    digit, a lower-case letter and an upper-case letter, and all of them
    letters or digits, however the random comparator makes [sort] permute
    them. *)
Theorem generateRandomPassword_mixes n l u draws shuffle :
  (n < 10)%nat -> (l < 26)%nat -> (u < 26)%nat ->
  (forall i, (i < 3)%nat -> (draws i < 62)%nat) ->
  (forall chars, Permutation chars (shuffle chars)) ->
  let password := generateRandomPassword n l u draws shuffle in
  String.length password = 6%nat /\
  contains_one_of "0123456789" password /\
  contains_one_of "abcdefghijklmnopqrstuvwxyz" password /\
  contains_one_of "ABCDEFGHIJKLMNOPQRSTUVWXYZ" password /\
  drawn_from (characters true) password.
Proof.
  intros Ln Ll Lu Ld P. cbv zeta. unfold generateRandomPassword.
  destruct (digit_chars n Ln) as (cn & -> & In_n).
  destruct (charAt_chars "abcdefghijklmnopqrstuvwxyz" l Ll) as (cl & -> & In_l).
  destruct (charAt_chars "ABCDEFGHIJKLMNOPQRSTUVWXYZ" u Lu) as (cu & -> & In_u).
  unfold generateRandomString.
  destruct (generate_chars (characters true) draws (seq 0 3) "") as (drawn & E & L & D).
  { intros i I. apply in_seq in I. apply Ld. lia. }
  change (list_ascii_of_string "" ++ drawn) with drawn in E.
  set (remaining := fold_left _ _ _) in *. clearbody remaining.
  set (combined := String cn "" +:+ String cl "" +:+ String cu "" +:+ remaining).
  assert (C : list_ascii_of_string combined = cn :: cl :: cu :: drawn).
  { unfold combined. rewrite !chars_app, E. reflexivity. }
  pose proof (P (list_ascii_of_string combined)) as Pc.
  set (shuffled := shuffle (list_ascii_of_string combined)) in *. clearbody shuffled.
  rewrite C in Pc.
  assert (Len : length shuffled = 6%nat).
  { rewrite <- (Permutation_length Pc). simpl. rewrite L. reflexivity. }
  assert (S : String.substring 0 6 (string_of_list_ascii shuffled)
              = string_of_list_ascii shuffled).
  { rewrite <- Len at 1.
    rewrite <- (list_ascii_of_string_of_list_ascii shuffled) at 1.
    rewrite chars_length. apply substring_all. }
  rewrite S. unfold contains_one_of, drawn_from.
  rewrite list_ascii_of_string_of_list_ascii.
  split; [rewrite <- chars_length, list_ascii_of_string_of_list_ascii; exact Len|].
  split; [exists cn; split; [apply (Permutation_in _ Pc); simpl; auto|exact In_n]|].
  split; [exists cl; split; [apply (Permutation_in _ Pc); simpl; auto|exact In_l]|].
  split; [exists cu; split; [apply (Permutation_in _ Pc); simpl; auto|exact In_u]|].
  intros c Ic. apply (Permutation_in _ (Permutation_sym Pc)) in Ic.
  destruct Ic as [<-|[<-|[<-|Ic]]].
  - simpl in In_n. simpl. tauto.
  - simpl in In_l. simpl. tauto.
  - simpl in In_u. simpl. tauto.
  - apply D, Ic.
Qed.

(** X28, witness: five rounds that all draw the character [h]. *)
Lemma generateRandomString_draws_from_alphabet_witness :
  String.length (generateRandomString 5 false (fun _ => 7%nat)) = 5%nat /\
  drawn_from (characters false) (generateRandomString 5 false (fun _ => 7%nat)) /\
  (false = false ->
   exists suffix,
     generateRandomUsername (fun _ => 7%nat) = "user" +:+ suffix /\
     String.length suffix = 5%nat /\
     drawn_from "abcdefghijklmnopqrstuvwxyz0123456789" suffix).
Proof.
  apply (generateRandomString_draws_from_alphabet 5 false (fun _ => 7%nat)).
  intros i. simpl. lia.
Defined.

(** X29, witness: a shuffle that reverses. *)
Lemma generateRandomPassword_mixes_witness :
  let password := generateRandomPassword 3 4 5 (fun _ => 7%nat) (@rev ascii) in
  String.length password = 6%nat /\
  contains_one_of "0123456789" password /\
  contains_one_of "abcdefghijklmnopqrstuvwxyz" password /\
  contains_one_of "ABCDEFGHIJKLMNOPQRSTUVWXYZ" password /\
  drawn_from (characters true) password.
Proof.
  apply (generateRandomPassword_mixes 3 4 5 (fun _ => 7%nat) (@rev ascii));
    [lia|lia|lia|intros i _; lia|apply Permutation_rev].
Defined.

End RandomFacts.
